(** * logical_backup: the replication-stream engine

    A shallow embedding of [pkg/logicalbackup/logicalbackup.go] and of
    [pkg/config] ([config.New]), with the properties of the engine's LSN
    bookkeeping, transaction envelope and OID-to-name history.

    Go maps are [gmap]s, Go sets ([map[OID]struct{}]) are [gset]s, unsigned
    64-bit integers are [Z] with the wrap-around written out, and the
    methods of [*LogicalBackup] are computations in a small state monad whose
    results distinguish a normal return, a returned [error] and a run-time
    panic.  Packages that the engine only calls ([dbutils], [message],
    [tablebackup], [decoder], [utils]) are not part of the sources at hand;
    what the engine needs of them is modelled from the specification and is
    marked as such. *)

From Stdlib Require Import ZArith List String Lia.
From stdpp Require Import base option gmap sets list strings.
Import ListNotations.

Local Open Scope Z_scope.

(** Raw protocol bytes ([[]byte]). *)
Abbreviation bytes := (list Byte.byte).

(* ------------------------------------------------------------------ *)
(** ** Package [dbutils] *)

Module dbutils.

(** Modelled from the spec: the declaration of [dbutils.LSN] is missing; an
    LSN is "a 64-bit unsigned monotonic log position", i.e. a [uint64]. *)
Definition LSN := Z.

(** Modelled from the spec: the declaration of [dbutils.OID] is missing; an
    OID is a 32-bit unsigned table identifier. *)
Definition OID := N.

Definition uint64_modulus : Z := 2 ^ 64.

(** Values of type [uint64]. *)
Definition is_uint64 (x : Z) : Prop := 0 <= x < uint64_modulus.

(** Arithmetic on [uint64] wraps around. *)
Definition wrap64 (x : Z) : Z := x mod uint64_modulus.

(** Modelled from the spec: [dbutils.InvalidLSN]; "zero is the distinguished
    invalid value". *)
Definition InvalidLSN : LSN := 0.

(** Modelled from the spec: [LSN.IsValid]. *)
Definition IsValid (l : LSN) : bool := negb (l =? InvalidLSN).

End dbutils.

(* ------------------------------------------------------------------ *)
(** ** Package [message] *)

Module message.

Import dbutils.

(** Modelled from the spec: [message.NamespacedName] is the pair
    (schema, name); Go compares such structs field by field. *)
Record NamespacedName := mkNamespacedName {
  Namespace : string;
  Name : string
}.

#[global] Instance NamespacedName_eq_dec : EqDecision NamespacedName.
Proof. solve_decision. Defined.

(** The zero value of the struct. *)
Definition NamespacedName_zero : NamespacedName := mkNamespacedName "" "".

(** Modelled from the spec: the typed messages the decoder yields, with the
    fields the engine reads. *)
Record Relation := mkRelation {
  Relation_OID : OID;
  Relation_NamespacedName : NamespacedName;
  Relation_Raw : bytes
}.

Record DML := mkDML {
  RelationOID : OID;
  DML_Raw : bytes
}.

Record Begin := mkBegin {
  XID : Z;
  FinalLSN : LSN;
  Begin_Raw : bytes
}.

Record Commit := mkCommit {
  Commit_LSN : LSN;
  Commit_Timestamp : Z;
  Commit_Raw : bytes
}.

Inductive Message :=
| MRelation (v : Relation)
| MInsert (v : DML)
| MUpdate (v : DML)
| MDelete (v : DML)
| MBegin (v : Begin)
| MCommit (v : Commit)
| MOrigin
| MTruncate
| MType (raw : bytes).

End message.

(* ------------------------------------------------------------------ *)
(** ** Package [config] *)

Module config.

(** [time.Duration] is a count of nanoseconds in an [int64]. *)
Definition Duration := Z.
Definition Nanosecond : Duration := 1.
Definition Second : Duration := 1000000000 * Nanosecond.
Definition Minute : Duration := 60 * Second.

(** [Duration.Truncate] of the Go library: [d] rounded toward zero to a
    multiple of [m], and [d] itself when [m <= 0].  Go's [%] truncates
    toward zero, as [Z.rem] does. *)
Definition Truncate (d m : Duration) : Duration :=
  if m <=? 0 then d else d - Z.rem d m.

(** The fields of [Config] the engine and the loader use.  (The loader at
    hand declares [TempDir] and [Slotname]; the engine reads [StagingDir],
    [ArchiveDir] and [SlotName] of a later revision of the same struct.) *)
Record Config := mkConfig {
  StagingDir : string;
  ArchiveDir : string;
  TrackNewTables : bool;
  DeltasPerFile : Z;
  ForceBasebackupAfterInactivityInterval : Duration
}.

Definition set_ForceBasebackupAfterInactivityInterval
    (d : Duration) (c : Config) : Config :=
  mkConfig (StagingDir c) (ArchiveDir c) (TrackNewTables c) (DeltasPerFile c) d.

(** [config.New].  Opening the file and decoding its YAML are the
    environment's: [opened] tells whether [os.Open] succeeded and [decoded]
    is what the YAML decoder filled in, [None] when it failed.  [None] is
    the error return. *)
Definition New (opened : bool) (decoded : option Config) : option Config :=
  if opened then
    match decoded with
    | None => None
    | Some cfg =>
        Some (set_ForceBasebackupAfterInactivityInterval
                (Truncate (ForceBasebackupAfterInactivityInterval cfg)
                          (1 * Minute))
                cfg)
    end
  else None.

End config.

(* ------------------------------------------------------------------ *)
(** ** Package [tablebackup] *)

Module tablebackup.

Import dbutils message.

(** One framed change record of a table's stream: the record's LSN and the
    raw message (the frame's length field is the length of [d_raw]). *)
Record Delta := mkDelta {
  d_lsn : LSN;
  d_raw : bytes
}.

(** Modelled from the spec: the per-table writer of package [tablebackup],
    which is missing.  [deltas] is everything appended to the table's
    stream so far, oldest first, over all its segments; [deltaCnt] counts
    the records of the open segment. *)
Record TableBackup := mkTableBackup {
  ID : OID;
  NamespacedName : message.NamespacedName;
  deltas : list Delta;
  deltaCnt : Z;
  lastSeenLSN : LSN;
  flushedLSN : LSN;
  flushRequired : bool;
  basebackupPending : bool
}.

(** Modelled from the spec: [tablebackup.New] creates the writer of table
    [oid], named [name], with nothing written. *)
Definition New (name : message.NamespacedName) (oid : OID) : TableBackup :=
  mkTableBackup oid name [] 0 InvalidLSN InvalidLSN false false.

(** Modelled from the spec: [SetTextID] "pushes the new name into the live
    writer's text identifier". *)
Definition SetTextID (name : message.NamespacedName) (t : TableBackup) : TableBackup :=
  mkTableBackup (ID t) name (deltas t) (deltaCnt t) (lastSeenLSN t)
                (flushedLSN t) (flushRequired t) (basebackupPending t).

(** Modelled from the spec: [GetFlushLSN] "returns (flushed_lsn,
    flush_required)". *)
Definition GetFlushLSN (t : TableBackup) : LSN * bool :=
  (flushedLSN t, flushRequired t).

(** Modelled from the spec: the number of bytes of a frame
    "{u64 lsn, u32 length, bytes}". *)
Definition frame_size (raw : bytes) : Z := 12 + Z.of_nat (length raw).

(** Modelled from the spec: a successful [WriteDelta] "appends a framed
    record, updates last_seen_lsn = record_lsn, sets flush_required = true,
    increments a local counter, and if the counter reaches deltas_per_file,
    closes the segment", which sets "flushed_lsn = last_seen_lsn" and clears
    "flush_required".  The result is the number of bytes written and the
    writer afterwards.  (The commit LSN only tags the record and is not
    kept.) *)
Definition WriteDelta (deltasPerFile : Z) (raw : bytes) (commitLSN recordLSN : LSN)
    (t : TableBackup) : Z * TableBackup :=
  let stream := deltas t ++ [mkDelta recordLSN raw] in
  let cnt := deltaCnt t + 1 in
  if deltasPerFile <=? cnt then
    (frame_size raw,
     mkTableBackup (ID t) (NamespacedName t) stream 0 recordLSN recordLSN
                   false (basebackupPending t))
  else
    (frame_size raw,
     mkTableBackup (ID t) (NamespacedName t) stream cnt recordLSN (flushedLSN t)
                   true (basebackupPending t)).

End tablebackup.

(* ------------------------------------------------------------------ *)
(** ** Package [logicalbackup] *)

Module logicalbackup.

Import dbutils.

(** [type cmdType int]; the constants are declared with [iota] in a block
    that starts with seven other constants, so [cInsert] is 7. *)
Definition cmdType := Z.
Definition cInsert : cmdType := 7.
Definition cUpdate : cmdType := 8.
Definition cDelete : cmdType := 9.
Definition cBegin : cmdType := 10.
Definition cCommit : cmdType := 11.
Definition cRelation : cmdType := 12.
Definition cType : cmdType := 13.

Definition OidNameMapFile : string := "oid2name.yaml".
Definition stateFile : string := "state.yaml".

Record NameAtLSN := mkNameAtLSN {
  Name : message.NamespacedName;
  Lsn : LSN
}.

(** The zero value [var lastEntry NameAtLSN]. *)
Definition NameAtLSN_zero : NameAtLSN :=
  mkNameAtLSN message.NamespacedName_zero 0.

(** [nameChangeHistory] maps an OID to a slice; a missing key reads as the
    nil slice, a present key holds a non-nil slice. *)
Record oidToName := mkOidToName {
  isChanged : bool;
  nameChangeHistory : gmap OID (list NameAtLSN)
}.

(** *** The outside world

    The documents the engine encodes as YAML.  The state file's timestamp
    is the wall clock's and is left out; the LSN stands for its "X/Y"
    text. *)
Inductive YamlDoc :=
| StateInfoDoc (currentLSN : LSN)
| OidNameDoc (history : gmap OID (list NameAtLSN)).

(** The calls the engine makes on files: [os.OpenFile] with
    [O_CREATE|O_WRONLY|O_TRUNC], [yaml.NewEncoder(fp).Encode] and
    [utils.SyncFileAndDirectory], each with the name of the file. *)
Inductive FsCall :=
| OpenFile (name : string)
| Encode (name : string) (doc : YamlDoc)
| SyncFileAndDirectory (name : string).

Definition FsCall_name (c : FsCall) : string :=
  match c with
  | OpenFile n | Encode n _ | SyncFileAndDirectory n => n
  end.

(** Which calls into the environment succeed, and what the decoder makes
    of a payload.  Package [decoder] is missing; [Parse] stands for
    [decoder.Parse], [None] being its error. *)
Record World := mkWorld {
  fs_ok : FsCall -> bool;
  send_ok : LSN -> bool;
  write_ok : OID -> bytes -> LSN -> bool;
  new_ok : OID -> bool;
  Parse : bytes -> option message.Message
}.

(** *** The engine's state

    The fields of [LogicalBackup] that carry the engine's bookkeeping.
    [backupTables] owns the writers: a [TableBackuper] interface value is a
    pointer to one of them and is modelled by the key it is stored under
    ([None] is the nil interface).  [txBeginRelMsg] is [None] while the Go
    map is nil.  [fsLog] and [standbyStatuses] are the calls made so far on
    the file system and the statuses handed to [SendStandbyStatus], oldest
    first. *)
Record LogicalBackup := mkLogicalBackup {
  cfg : config.Config;
  backupTables : gmap OID tablebackup.TableBackup;
  tableNameChanges : oidToName;
  currentLSN : LSN;
  transactionCommitLSN : LSN;
  latestFlushLSN : LSN;
  lastTxId : Z;
  msgCnt : gmap cmdType Z;
  bytesWritten : Z;
  txBeginRelMsg : option (gset OID);
  relationMessages : gmap OID bytes;
  beginMsg : bytes;
  typeMsg : option bytes;
  fsLog : list FsCall;
  standbyStatuses : list LSN
}.

Definition set_backupTables v b :=
  mkLogicalBackup (cfg b) v (tableNameChanges b) (currentLSN b)
    (transactionCommitLSN b) (latestFlushLSN b) (lastTxId b) (msgCnt b)
    (bytesWritten b) (txBeginRelMsg b) (relationMessages b) (beginMsg b)
    (typeMsg b) (fsLog b) (standbyStatuses b).
Definition set_tableNameChanges v b :=
  mkLogicalBackup (cfg b) (backupTables b) v (currentLSN b)
    (transactionCommitLSN b) (latestFlushLSN b) (lastTxId b) (msgCnt b)
    (bytesWritten b) (txBeginRelMsg b) (relationMessages b) (beginMsg b)
    (typeMsg b) (fsLog b) (standbyStatuses b).
Definition set_currentLSN v b :=
  mkLogicalBackup (cfg b) (backupTables b) (tableNameChanges b) v
    (transactionCommitLSN b) (latestFlushLSN b) (lastTxId b) (msgCnt b)
    (bytesWritten b) (txBeginRelMsg b) (relationMessages b) (beginMsg b)
    (typeMsg b) (fsLog b) (standbyStatuses b).
Definition set_transactionCommitLSN v b :=
  mkLogicalBackup (cfg b) (backupTables b) (tableNameChanges b) (currentLSN b)
    v (latestFlushLSN b) (lastTxId b) (msgCnt b)
    (bytesWritten b) (txBeginRelMsg b) (relationMessages b) (beginMsg b)
    (typeMsg b) (fsLog b) (standbyStatuses b).
Definition set_latestFlushLSN v b :=
  mkLogicalBackup (cfg b) (backupTables b) (tableNameChanges b) (currentLSN b)
    (transactionCommitLSN b) v (lastTxId b) (msgCnt b)
    (bytesWritten b) (txBeginRelMsg b) (relationMessages b) (beginMsg b)
    (typeMsg b) (fsLog b) (standbyStatuses b).
Definition set_lastTxId v b :=
  mkLogicalBackup (cfg b) (backupTables b) (tableNameChanges b) (currentLSN b)
    (transactionCommitLSN b) (latestFlushLSN b) v (msgCnt b)
    (bytesWritten b) (txBeginRelMsg b) (relationMessages b) (beginMsg b)
    (typeMsg b) (fsLog b) (standbyStatuses b).
Definition set_msgCnt v b :=
  mkLogicalBackup (cfg b) (backupTables b) (tableNameChanges b) (currentLSN b)
    (transactionCommitLSN b) (latestFlushLSN b) (lastTxId b) v
    (bytesWritten b) (txBeginRelMsg b) (relationMessages b) (beginMsg b)
    (typeMsg b) (fsLog b) (standbyStatuses b).
Definition set_bytesWritten v b :=
  mkLogicalBackup (cfg b) (backupTables b) (tableNameChanges b) (currentLSN b)
    (transactionCommitLSN b) (latestFlushLSN b) (lastTxId b) (msgCnt b)
    v (txBeginRelMsg b) (relationMessages b) (beginMsg b)
    (typeMsg b) (fsLog b) (standbyStatuses b).
Definition set_txBeginRelMsg v b :=
  mkLogicalBackup (cfg b) (backupTables b) (tableNameChanges b) (currentLSN b)
    (transactionCommitLSN b) (latestFlushLSN b) (lastTxId b) (msgCnt b)
    (bytesWritten b) v (relationMessages b) (beginMsg b)
    (typeMsg b) (fsLog b) (standbyStatuses b).
Definition set_relationMessages v b :=
  mkLogicalBackup (cfg b) (backupTables b) (tableNameChanges b) (currentLSN b)
    (transactionCommitLSN b) (latestFlushLSN b) (lastTxId b) (msgCnt b)
    (bytesWritten b) (txBeginRelMsg b) v (beginMsg b)
    (typeMsg b) (fsLog b) (standbyStatuses b).
Definition set_beginMsg v b :=
  mkLogicalBackup (cfg b) (backupTables b) (tableNameChanges b) (currentLSN b)
    (transactionCommitLSN b) (latestFlushLSN b) (lastTxId b) (msgCnt b)
    (bytesWritten b) (txBeginRelMsg b) (relationMessages b) v
    (typeMsg b) (fsLog b) (standbyStatuses b).
Definition set_typeMsg v b :=
  mkLogicalBackup (cfg b) (backupTables b) (tableNameChanges b) (currentLSN b)
    (transactionCommitLSN b) (latestFlushLSN b) (lastTxId b) (msgCnt b)
    (bytesWritten b) (txBeginRelMsg b) (relationMessages b) (beginMsg b)
    v (fsLog b) (standbyStatuses b).
Definition set_fsLog v b :=
  mkLogicalBackup (cfg b) (backupTables b) (tableNameChanges b) (currentLSN b)
    (transactionCommitLSN b) (latestFlushLSN b) (lastTxId b) (msgCnt b)
    (bytesWritten b) (txBeginRelMsg b) (relationMessages b) (beginMsg b)
    (typeMsg b) v (standbyStatuses b).
Definition set_standbyStatuses v b :=
  mkLogicalBackup (cfg b) (backupTables b) (tableNameChanges b) (currentLSN b)
    (transactionCommitLSN b) (latestFlushLSN b) (lastTxId b) (msgCnt b)
    (bytesWritten b) (txBeginRelMsg b) (relationMessages b) (beginMsg b)
    (typeMsg b) (fsLog b) v.

(** *** The monad of the engine's methods

    A method either returns normally ([Done], for a Go function with an
    [error] result: it returned nil), returns a non-nil [error]
    ([Failed]), or panics ([Panicked]: a nil dereference, a write to a nil
    map, an index out of range).  State changes made before an error is
    returned stay, as they do behind Go's pointer receiver. *)
Inductive result (A : Type) :=
| Done (a : A) (b : LogicalBackup)
| Failed (b : LogicalBackup)
| Panicked.
Arguments Done {A} a b.
Arguments Failed {A} b.
Arguments Panicked {A}.

Definition M (A : Type) : Type := LogicalBackup -> result A.

#[global] Instance M_ret : MRet M := fun A a b => Done a b.

#[global] Instance M_bind : MBind M := fun A B k c b =>
  match c b with
  | Done a b' => k a b'
  | Failed b' => Failed b'
  | Panicked => Panicked
  end.

Definition get : M LogicalBackup := fun b => Done b b.
(** Go on (or [return nil] at the end of a method). *)
Definition skip : M unit := mret tt.
Definition modify (f : LogicalBackup -> LogicalBackup) : M unit :=
  fun b => Done tt (f b).
(** [return err] with a non-nil [err]. *)
Definition fail {A} : M A := fun b => Failed b.
Definition panic {A} : M A := fun _ => Panicked.

(** [if err := c; err != nil { log.Printf(...) }]: the error is logged and
    execution goes on; the result tells whether [c] returned nil. *)
Definition attempt (c : M unit) : M bool := fun b =>
  match c b with
  | Done _ b' => Done true b'
  | Failed b' => Done false b'
  | Panicked => Panicked
  end.

(** [for _, x := range xs { body }] with a body that may return early. *)
Fixpoint forM_ {A} (xs : list A) (body : A -> M unit) : M unit :=
  match xs with
  | [] => skip
  | x :: xs' => body x ;; forM_ xs' body
  end.

(** [path.Join(dir, file)] for two elements: empty elements are ignored
    and the others joined by a slash.  ([path.Clean], which Join applies to
    its result, is left out: the directories are taken as clean paths.) *)
Definition path_Join (dir file : string) : string :=
  if decide (dir = "") then file else (dir ++ "/" ++ file)%string.

Section Engine.

Variable W : World.

(** **** [BackupTables] *)

Definition BackupTables_GetIfExists (oid : OID) (b : LogicalBackup) : option OID :=
  match backupTables b !! oid with
  | Some _ => Some oid
  | None => None
  end.

(** [Get] returns the same pointer with [ok]; [None] is [ok = false]. *)
Definition BackupTables_Get (oid : OID) (b : LogicalBackup) : option OID :=
  BackupTables_GetIfExists oid b.

Definition BackupTables_Set (oid : OID) (t : tablebackup.TableBackup) : M unit :=
  modify (fun b => set_backupTables (<[oid := t]> (backupTables b)) b).

(** [delete(bt.data, oid)]; deleting a missing key does nothing. *)
Definition BackupTables_Delete (oid : OID) : M unit :=
  modify (fun b => set_backupTables (delete oid (backupTables b)) b).

(** **** Calls into the environment *)

Definition fsCall (c : FsCall) : M bool := fun b =>
  Done (fs_ok W c) (set_fsLog (fsLog b ++ [c]) b).

Definition baseDir (b : LogicalBackup) : string :=
  if decide (config.StagingDir (cfg b) = "") then config.ArchiveDir (cfg b)
  else config.StagingDir (cfg b).

(** **** [WriteCommandDataForTable]

    [t] is dereferenced by [t.WriteDelta]: a nil interface panics.  The
    writer is written through its pointer, that is in place in the registry.
    The calls on the metrics exporter are left out, here and below: it is an
    opaque sink. *)
Definition WriteCommandDataForTable (t : option OID) (msg : bytes) (cmd : cmdType)
    : M unit :=
  b ← get;
  match t with
  | None => panic
  | Some p =>
      match backupTables b !! p with
      | None => panic
      | Some w =>
          if write_ok W (tablebackup.ID w) msg (currentLSN b) then
            let '(ln, w') :=
              tablebackup.WriteDelta (config.DeltasPerFile (cfg b)) msg
                (transactionCommitLSN b) (currentLSN b) w in
            modify (fun b =>
              set_msgCnt (<[cmd := default 0 (msgCnt b !! cmd) + 1]> (msgCnt b))
                (set_bytesWritten (wrap64 (bytesWritten b + ln))
                   (set_backupTables (<[p := w']> (backupTables b)) b)))
          else fail
      end
  end.

(** **** [processDMLMessage] *)

(** [_, ok := b.txBeginRelMsg[tableOID]]; reading a nil map finds nothing. *)
Definition txBegin_has (oid : OID) (b : LogicalBackup) : bool :=
  match txBeginRelMsg b with
  | Some s => bool_decide (oid ∈ s)
  | None => false
  end.

(** [b.txBeginRelMsg[bt.ID()] = struct{}{}]; writing to a nil map panics. *)
Definition txBegin_add (bt : OID) : M unit :=
  b ← get;
  match backupTables b !! bt with
  | None => panic
  | Some w =>
      match txBeginRelMsg b with
      | None => panic
      | Some s => modify (set_txBeginRelMsg (Some ({[tablebackup.ID w]} ∪ s)))
      end
  end.

Definition processDMLMessage (tableOID : OID) (cmd : cmdType) (msg : bytes) : M unit :=
  b ← get;
  match BackupTables_Get tableOID b with
  | None => skip
  | Some bt =>
      (if txBegin_has tableOID b then skip
       else
         WriteCommandDataForTable (Some bt) (beginMsg b) cBegin;;
         txBegin_add bt);;
      b ← get;
      match typeMsg b with
      | Some tm =>
          WriteCommandDataForTable (Some bt) tm cType;;
          modify (set_typeMsg None)
      | None => skip
      end;;
      b ← get;
      match relationMessages b !! tableOID with
      | Some relationMsg =>
          WriteCommandDataForTable (Some bt) relationMsg cRelation;;
          modify (fun b => set_relationMessages (delete tableOID (relationMessages b)) b)
      | None => skip
      end;;
      WriteCommandDataForTable (Some bt) msg cmd
  end.

(** **** [sendStatus] *)

Definition sendStatus : M unit :=
  modify (fun b => set_bytesWritten 0 (set_msgCnt ∅ b));;
  b ← get;
  modify (set_standbyStatuses (standbyStatuses b ++ [latestFlushLSN b]));;
  if send_ok W (latestFlushLSN b) then skip else fail.

(** **** [getNextFlushLSN]

    The callback handed to [BackupTables.Map], run on every writer of the
    registry. *)
Definition nextFlushLSN_step (table : tablebackup.TableBackup) (result : LSN) : LSN :=
  let '(flushLSN, isFlushRequired) := tablebackup.GetFlushLSN table in
  if isFlushRequired && (flushLSN <? result) then flushLSN else result.

Definition getNextFlushLSN (b : LogicalBackup) : LSN :=
  map_fold (fun _ table result => nextFlushLSN_step table result)
           (transactionCommitLSN b) (backupTables b).

(** **** [flushOidNameMap] *)

Definition flushOidNameMap : M unit :=
  b ← get;
  if negb (isChanged (tableNameChanges b)) then skip
  else
    let name := path_Join (baseDir b) OidNameMapFile in
    opened ← fsCall (OpenFile name);
    if negb opened then fail
    else
      encoded ← fsCall (Encode name (OidNameDoc (nameChangeHistory (tableNameChanges b))));
      (if (encoded : bool) then
         modify (fun b => set_tableNameChanges
                   (mkOidToName false (nameChangeHistory (tableNameChanges b))) b)
       else skip);;
      synced ← fsCall (SyncFileAndDirectory name);
      if negb synced then fail
      else if (encoded : bool) then skip else fail.

(** **** [writeRestartLSN] *)

Definition writeStateFile (dir : string) : M unit :=
  b ← get;
  let name := path_Join dir stateFile in
  opened ← fsCall (OpenFile name);
  if negb opened then fail
  else
    encoded ← fsCall (Encode name (StateInfoDoc (latestFlushLSN b)));
    if negb encoded then fail
    else
      fsCall (SyncFileAndDirectory name);;
      skip.

Definition writeRestartLSN : M unit :=
  b ← get;
  (if decide (config.StagingDir (cfg b) = "") then skip
   else writeStateFile (config.StagingDir (cfg b)));;
  writeStateFile (config.ArchiveDir (cfg b)).

(** **** [maybeRegisterNewName] *)

(** [slice != nil] for the value read from [nameChangeHistory]. *)
Definition is_Some_bool {A} (o : option A) : bool :=
  match o with
  | Some _ => true
  | None => false
  end.

Definition maybeRegisterNewName (oid : OID) (name : message.NamespacedName) : M unit :=
  b ← get;
  let history := nameChangeHistory (tableNameChanges b) !! oid in
  lastEntry ← match history with
              | None => mret NameAtLSN_zero
              | Some h =>
                  match last h with
                  | Some e => mret e
                  | None => panic
                  end
              end;
  if negb (is_Some_bool history) || negb (bool_decide (Name lastEntry = name)) then
    modify (fun b => set_tableNameChanges
              (mkOidToName true
                 (<[oid := default [] history ++ [mkNameAtLSN name (transactionCommitLSN b)]]>
                    (nameChangeHistory (tableNameChanges b)))) b);;
    b ← get;
    match BackupTables_GetIfExists oid b with
    | None => panic
    | Some t =>
        match backupTables b !! t with
        | None => panic
        | Some w => BackupTables_Set t (tablebackup.SetTextID name w)
        end
    end
  else skip.

(** **** [registerNewTable] and [processRelationMessage] *)

Definition registerNewTable (m : message.Relation) : M bool :=
  b ← get;
  if negb (config.TrackNewTables (cfg b)) then mret false
  else if new_ok W (message.Relation_OID m) then
    BackupTables_Set (message.Relation_OID m)
      (tablebackup.New (message.Relation_NamespacedName m) (message.Relation_OID m));;
    mret true
  else fail.

Definition processRelationMessage (m : message.Relation) : M unit :=
  b ← get;
  track ← match BackupTables_Get (message.Relation_OID m) b with
          | Some _ => mret true
          | None => registerNewTable m
          end;
  if negb track then skip
  else
    maybeRegisterNewName (message.Relation_OID m) (message.Relation_NamespacedName m);;
    modify (fun b => set_relationMessages
              (<[message.Relation_OID m := message.Relation_Raw m]> (relationMessages b)) b).

(** **** [updateMetricsOnCommit]

    Only the dereference [tb.ID()] of each participating table's writer
    matters here. *)
Definition participating (b : LogicalBackup) : list OID :=
  match txBeginRelMsg b with
  | Some s => elements s
  | None => []
  end.

Definition updateMetricsOnCommit : M unit :=
  b ← get;
  forM_ (participating b) (fun relOID =>
    b ← get;
    match BackupTables_GetIfExists relOID b with
    | None => panic
    | Some _ => skip
    end).

(** **** [handler]

    Go ranges over [txBeginRelMsg] in an unspecified order; [elements] fixes
    one.  In the commit case [sendStatus]'s error is assigned to the
    function's own [err], so it is returned at the end, after the metrics
    update; the errors of [flushOidNameMap] and [writeRestartLSN] are only
    logged. *)
Definition handler (m : message.Message) (walStart : LSN) : M unit :=
  modify (set_currentLSN walStart);;
  match m with
  | message.MRelation v => processRelationMessage v
  | message.MInsert v =>
      processDMLMessage (message.RelationOID v) cInsert (message.DML_Raw v)
  | message.MUpdate v =>
      processDMLMessage (message.RelationOID v) cUpdate (message.DML_Raw v)
  | message.MDelete v =>
      processDMLMessage (message.RelationOID v) cDelete (message.DML_Raw v)
  | message.MBegin v =>
      modify (fun b =>
        set_beginMsg (message.Begin_Raw v)
          (set_txBeginRelMsg (Some ∅)
             (set_transactionCommitLSN (message.FinalLSN v)
                (set_lastTxId (message.XID v) b))))
  | message.MCommit v =>
      modify (set_currentLSN (message.Commit_LSN v));;
      b ← get;
      forM_ (participating b) (fun relOID =>
        b ← get;
        WriteCommandDataForTable (BackupTables_GetIfExists relOID b)
          (message.Commit_Raw v) cCommit);;
      attempt flushOidNameMap;;
      b ← get;
      let candidateFlushLSN := getNextFlushLSN b in
      sent ← (if latestFlushLSN b <? candidateFlushLSN then
                modify (set_latestFlushLSN candidateFlushLSN);;
                attempt writeRestartLSN;;
                attempt sendStatus
              else mret true);
      updateMetricsOnCommit;;
      if (sent : bool) then skip else fail
  | message.MOrigin => skip
  | message.MTruncate => skip
  | message.MType _ => skip
  end.

(** **** [prepareTablesForPublication] and [prepareDB]

    Modelled from the spec: [message.ReplicaIdentity], whose declaration is
    missing, with the settings DEFAULT, INDEX and FULL of the spec and the
    server's fourth one. *)
Inductive ReplicaIdentity :=
| ReplicaIdentityDefault
| ReplicaIdentityIndex
| ReplicaIdentityFull
| ReplicaIdentityNothing.

#[global] Instance ReplicaIdentity_eq_dec : EqDecision ReplicaIdentity.
Proof. solve_decision. Defined.

Record tableInfo := mkTableInfo {
  ti_oid : OID;
  ti_name : message.NamespacedName;
  ti_hasPK : bool;
  ti_replicaIdentity : ReplicaIdentity
}.

(** What the database and the archive answer during startup: whether
    connecting and [CreateMissingPublication] succeed, the results of
    [GetSlotFlushLSN], [CreateSlot] and [readRestartLSN] ([None] is an
    error), the rows of the publication's tables ([None] when the query or
    a scan fails) and whether [ALTER TABLE ... REPLICA IDENTITY] succeeds on
    a table. *)
Record Startup := mkStartup {
  connect_ok : bool;
  publication_ok : bool;
  slotFlushLSN : option LSN;
  createdSlot : option LSN;
  restartLSN : option LSN;
  publicationTables : option (list tableInfo);
  alter_ok : OID -> bool
}.

Definition targetReplicaIdentity (t : tableInfo) : ReplicaIdentity :=
  if ti_hasPK t then ReplicaIdentityDefault
  else if negb (bool_decide (ti_replicaIdentity t = ReplicaIdentityIndex))
       then ReplicaIdentityFull
       else ti_replicaIdentity t.

Definition prepareTablesForPublication (S : Startup) : M unit :=
  b ← get;
  match publicationTables S with
  | None => fail
  | Some tables =>
      if (length tables =? 0)%nat && negb (config.TrackNewTables (cfg b)) then fail
      else
        forM_ tables (fun t =>
          (if negb (bool_decide (targetReplicaIdentity t = ti_replicaIdentity t)) then
             if alter_ok S (ti_oid t) then skip else fail
           else skip);;
          if new_ok W (ti_oid t) then
            let tb := tablebackup.New (ti_name t) (ti_oid t) in
            BackupTables_Set (ti_oid t) tb;;
            maybeRegisterNewName (ti_oid t) (tablebackup.NamespacedName tb)
          else fail);;
        attempt flushOidNameMap;;
        skip
  end.

Definition prepareDB (S : Startup) : M unit :=
  if negb (connect_ok S) then fail
  else if negb (publication_ok S) then fail
  else
    match slotFlushLSN S with
    | None => fail
    | Some flushLSN =>
        modify (set_latestFlushLSN flushLSN);;
        (if negb (IsValid flushLSN) then
           match createdSlot S with
           | None => fail
           | Some initialLSN =>
               modify (set_latestFlushLSN (wrap64 (initialLSN - 1)));;
               attempt writeRestartLSN;;
               skip
           end
         else
           match restartLSN S with
           | None => fail
           | Some restart =>
               (if IsValid restart then modify (set_latestFlushLSN restart) else skip);;
               attempt sendStatus;;
               skip
           end);;
        prepareTablesForPublication S
    end.

(** **** [New]

    The struct literal of [New], then [prepareDB].  ([createDirs],
    [initReplConn] and [registerMetrics] touch nothing of the state kept
    here; a failure of theirs makes [New] fail like one of [prepareDB].) *)
Definition initial (c : config.Config) : LogicalBackup :=
  mkLogicalBackup c ∅ (mkOidToName false ∅) 0 0 0 0 ∅ 0 None ∅ [] None [] [].

Definition New (c : config.Config) (S : Startup) : result unit :=
  prepareDB S (initial c).

(** **** [logicalDecoding]

    One turn of the loop.  The turn is decided by which case of the
    [select] is ready and, in the default case, by what
    [WaitForReplicationMessage] returned. *)
Record WalMessage := mkWalMessage {
  WalStart : Z;
  WalData : bytes
}.

Record ServerHeartbeat := mkServerHeartbeat {
  ReplyRequested : Z
}.

Record ReplicationMessage := mkReplicationMessage {
  rm_WalMessage : option WalMessage;
  rm_ServerHeartbeat : option ServerHeartbeat
}.

Inductive Received :=
| DeadlineExceeded
| Canceled
| OtherError
| Delivered (repMsg : option ReplicationMessage).

Inductive Turn :=
| CtxDone
| Tick
| Wait (r : Received).

(** How a turn ends: [continue] (or falling off the end of the body), or
    [return], either silently or after [b.stopCh <- struct{}{}]. *)
Inductive Next :=
| Continue
| Return (stop : bool).

Definition replyRequested (repMsg : ReplicationMessage) : bool :=
  match rm_ServerHeartbeat repMsg with
  | Some hb => ReplyRequested hb =? 1
  | None => false
  end.

Definition heartbeatReply (repMsg : ReplicationMessage) : M Next :=
  if replyRequested repMsg then
    sent ← attempt sendStatus;
    if (sent : bool) then mret Continue else mret (Return true)
  else mret Continue.

Definition logicalDecodingTurn (t : Turn) : M Next :=
  match t with
  | CtxDone => mret (Return false)
  | Tick =>
      sent ← attempt sendStatus;
      if (sent : bool) then mret Continue else mret (Return true)
  | Wait DeadlineExceeded => mret Continue
  | Wait Canceled => mret (Return false)
  | Wait OtherError => mret (Return true)
  | Wait (Delivered None) => mret Continue
  | Wait (Delivered (Some repMsg)) =>
      b ← get;
      match rm_WalMessage repMsg with
      | Some wal =>
          let walStart := WalStart wal in
          if IsValid walStart && (walStart <=? latestFlushLSN b) then mret Continue
          else
            match Parse W (WalData wal) with
            | None => mret (Return true)
            | Some logmsg =>
                handled ← attempt (handler logmsg walStart);
                if (handled : bool) then heartbeatReply repMsg
                else mret (Return true)
            end
      | None => heartbeatReply repMsg
      end
  end.

(** The loop over the turns that come, until one returns. *)
Fixpoint logicalDecodingLoop (turns : list Turn) : M Next :=
  match turns with
  | [] => mret Continue
  | t :: turns' =>
      n ← logicalDecodingTurn t;
      match n with
      | Continue => logicalDecodingLoop turns'
      | Return stop => mret (Return stop)
      end
  end.

(** The engine fed with a sequence of decoded messages, each with its
    frame's [WalStart]; it stops at the first error, as the loop does. *)
Definition run (msgs : list (message.Message * LSN)) : M unit :=
  forM_ msgs (fun '(m, walStart) => handler m walStart).

(** **** [readRestartLSN]

    What the calls logged in [fsLog] leave in the files they name: an
    [OpenFile] that succeeds creates the file or truncates it, an [Encode]
    that succeeds leaves the document in it, and one that fails leaves it
    in an unknown state; syncing changes no content. *)
Inductive FileContent :=
| Truncated
| Holds (doc : YamlDoc)
| Damaged.

Definition fileStep (files : gmap string FileContent) (c : FsCall)
    : gmap string FileContent :=
  match c with
  | OpenFile name => if fs_ok W c then <[name := Truncated]> files else files
  | Encode name doc => <[name := if fs_ok W c then Holds doc else Damaged]> files
  | SyncFileAndDirectory _ => files
  end.

Definition filesAfter (files : gmap string FileContent) (log : list FsCall)
    : gmap string FileContent :=
  foldl fileStep files log.

(** [readRestartLSN] on the files [files]: a missing state file reads as
    [InvalidLSN] without an error; otherwise the file is opened
    ([readable] tells whether that succeeds), decoded and its LSN parsed.
    [None] is the error return.  A file that does not hold a state document
    cannot be decoded into one that parses. *)
Definition readRestartLSN (files : gmap string FileContent) (readable : string -> bool)
    (b : LogicalBackup) : option LSN :=
  let stateFilename := path_Join (baseDir b) stateFile in
  match files !! stateFilename with
  | None => Some InvalidLSN
  | Some content =>
      if readable stateFilename then
        match content with
        | Holds (StateInfoDoc currentLSN) => Some currentLSN
        | _ => None
        end
      else None
  end.

End Engine.

(** **** [createDirs]

    The directories that exist are a set of paths.  [os.Stat] finds a path
    of the set, reports a path outside it as not existing, and fails
    otherwise where [stat_fails] says so; [os.Mkdir] of a path that does not
    exist creates it where [mkdir_ok] says so.  The result is the
    directories afterwards and whether [createDirs] returned nil. *)
Record DirWorld := mkDirWorld {
  stat_fails : string -> bool;
  mkdir_ok : string -> bool
}.

Fixpoint createDirs (D : DirWorld) (dirs : list string) (existing : gset string)
    : gset string * bool :=
  match dirs with
  | [] => (existing, true)
  | dir :: dirs' =>
      if decide (dir = "") then createDirs D dirs' existing
      else if stat_fails D dir then (existing, false)
      else if decide (dir ∈ existing) then createDirs D dirs' existing
      else if mkdir_ok D dir then createDirs D dirs' ({[dir]} ∪ existing)
      else (existing, false)
  end.

End logicalbackup.

(* ------------------------------------------------------------------ *)
(** * Properties *)

Import dbutils logicalbackup.
Local Open Scope Z_scope.

(** ** Reasoning about the engine's methods

    [wp c b Q E X]: run from [b], the method [c] satisfies [Q] when it
    returns normally, [E] when it returns an error and [X] when it
    panics. *)
Definition wp {A} (c : M A) (b : LogicalBackup)
    (Q : A -> LogicalBackup -> Prop) (E : LogicalBackup -> Prop) (X : Prop) : Prop :=
  match c b with
  | Done a b' => Q a b'
  | Failed b' => E b'
  | Panicked => X
  end.

Lemma wp_ret {A} (a : A) b Q E X : Q a b -> wp (mret a) b Q E X.
Proof. exact (fun H => H). Qed.

Lemma wp_skip b Q E X : Q tt b -> wp skip b Q E X.
Proof. exact (fun H => H). Qed.

Lemma wp_get b Q E X : Q b b -> wp get b Q E X.
Proof. exact (fun H => H). Qed.

Lemma wp_modify f b Q E X : Q tt (f b) -> wp (modify f) b Q E X.
Proof. exact (fun H => H). Qed.

Lemma wp_fail {A} b (Q : A -> _) E X : E b -> wp fail b Q E X.
Proof. exact (fun H => H). Qed.

Lemma wp_panic {A} b (Q : A -> _) E (X : Prop) : X -> wp panic b Q E X.
Proof. exact (fun H => H). Qed.

Lemma wp_bind {A B} (c : M A) (k : A -> M B) b Q E X :
  wp c b (fun a b' => wp (k a) b' Q E X) E X -> wp (c ≫= k) b Q E X.
Proof.
  unfold wp, mbind, M_bind. destruct (c b); auto.
Qed.

Lemma wp_attempt (c : M unit) b Q E X :
  wp c b (fun _ b' => Q true b') (fun b' => Q false b') X -> wp (attempt c) b Q E X.
Proof.
  unfold wp, attempt. destruct (c b); auto.
Qed.

Lemma wp_mono {A} (c : M A) b (Q Q' : A -> _) (E E' : _ -> Prop) (X X' : Prop) :
  wp c b Q E X ->
  (forall a b', Q a b' -> Q' a b') -> (forall b', E b' -> E' b') -> (X -> X') ->
  wp c b Q' E' X'.
Proof.
  unfold wp. destruct (c b); auto.
Qed.

Lemma wp_Done {A} (c : M A) b Q E X a b' :
  wp c b Q E X -> c b = Done a b' -> Q a b'.
Proof. unfold wp. intros H Hc. now rewrite Hc in H. Qed.

Lemma wp_Failed {A} (c : M A) b Q E X b' :
  wp c b Q E X -> c b = Failed b' -> E b'.
Proof. unfold wp. intros H Hc. now rewrite Hc in H. Qed.

Lemma wp_not_Panicked {A} (c : M A) b Q E :
  wp c b Q E False -> c b <> Panicked.
Proof. unfold wp. intros H Hc. now rewrite Hc in H. Qed.

(** A loop keeps an invariant that each turn of its body keeps. *)
Lemma wp_forM {A} (xs : list A) (body : A -> M unit) (I : LogicalBackup -> Prop) E X b :
  I b ->
  (forall x b, x ∈ xs -> I b -> wp (body x) b (fun _ => I) E X) ->
  wp (forM_ xs body) b (fun _ => I) E X.
Proof.
  revert b. induction xs as [|x xs IH]; intros b Hb Hbody.
  - exact Hb.
  - cbn [forM_]. apply wp_bind.
    eapply wp_mono; [apply Hbody; [left | exact Hb] | | auto | auto].
    intros ? b1 Hb1. apply IH; [exact Hb1 |].
    intros y b2 Hy. apply Hbody. now right.
Qed.

Lemma wp_fsCall W c b Q E X :
  Q (fs_ok W c) (set_fsLog (fsLog b ++ [c]) b) -> wp (fsCall W c) b Q E X.
Proof. exact (fun H => H). Qed.

(** Symbolic execution of a method's body, one construct at a time. *)
Ltac wp_step :=
  lazymatch goal with
  | |- wp (_ ≫= _) _ _ _ _ => apply wp_bind
  | |- wp (mret _) _ _ _ _ => apply wp_ret
  | |- wp skip _ _ _ _ => apply wp_skip
  | |- wp get _ _ _ _ => apply wp_get
  | |- wp (modify _) _ _ _ _ => apply wp_modify
  | |- wp fail _ _ _ _ => apply wp_fail
  | |- wp panic _ _ _ _ => apply wp_panic
  | |- wp (attempt _) _ _ _ _ => apply wp_attempt
  | |- wp (fsCall _ _) _ _ _ _ => apply wp_fsCall
  | |- wp (if ?c then _ else _) _ _ _ _ => destruct c eqn:?
  | |- wp (match ?c with _ => _ end) _ _ _ _ => destruct c eqn:?
  end.

Ltac wp_run := repeat (wp_step; cbn beta).

(* ------------------------------------------------------------------ *)
(** ** The configuration loader *)

Section ConfigLoader.

Import config.

(** Truncation to whole minutes: the result is a multiple of a minute, no
    farther from zero than the duration, less than a minute away from it,
    and reaches a minute exactly when the duration does. *)
Lemma Truncate_minute (d : Duration) :
  let r := Truncate d (1 * Minute) in
  r = d - Z.rem d Minute /\
  Z.rem r Minute = 0 /\
  Z.abs r <= Z.abs d /\
  Z.abs (d - r) < Minute /\
  (Minute <= r <-> Minute <= d).
Proof.
  cbv zeta. unfold Truncate.
  change (1 * Minute) with 60000000000.
  change Minute with 60000000000.
  cbn [Z.leb Z.compare].
  pose proof (Z.quot_rem' d 60000000000) as Hqr.
  assert (Hr : (0 <= d -> 0 <= Z.rem d 60000000000 < 60000000000) /\
               (d <= 0 -> -60000000000 < Z.rem d 60000000000 <= 0)).
  { split; intros Hd.
    - apply Z.rem_bound_pos; lia.
    - pose proof (Z.rem_bound_pos (- d) 60000000000 ltac:(lia) ltac:(lia)) as Hb.
      rewrite Z.rem_opp_l in Hb by lia. lia. }
  destruct Hr as [Hpos Hneg].
  assert (Hmul : d - Z.rem d 60000000000 = (d ÷ 60000000000) * 60000000000) by lia.
  split; [reflexivity |].
  split. { rewrite Hmul. apply Z.rem_mul. lia. }
  destruct (Z.le_ge_cases 0 d) as [Hd | Hd].
  - specialize (Hpos Hd). repeat split; lia.
  - specialize (Hneg Hd). repeat split; lia.
Qed.

(** A configuration that asks for a forced base backup after thirty
    seconds of inactivity, and one that asks for ninety. *)
Definition cfg_with_interval (d : Duration) : Config :=
  mkConfig "staging" "archive" true 100 d.

(** C9 (as stated, refuted).  The loader accepts a file whose interval is
    thirty seconds, and the resulting interval is zero: it is not at least
    one minute. *)
Lemma config_New_interval_below_minute :
  New true (Some (cfg_with_interval (30 * Second)))
    = Some (cfg_with_interval 0) /\
  ~ (Minute <= ForceBasebackupAfterInactivityInterval (cfg_with_interval 0)).
Proof.
  split; [reflexivity |].
  cbn. unfold Minute, Second, Nanosecond. lia.
Qed.

(** C9 (amended).  For every configuration file the loader accepts, the
    resulting [ForceBasebackupAfterInactivityInterval] is the configured
    duration truncated toward zero to whole minutes: a multiple of a minute,
    less than a minute away from the configured duration; it is at least one
    minute exactly when the configured duration is.  The loader changes no
    other field. *)
Theorem config_New_truncates_interval (opened : bool) (decoded : option Config)
    (cfg' : Config) :
  New opened decoded = Some cfg' ->
  exists cfg, opened = true /\ decoded = Some cfg /\
    let d := ForceBasebackupAfterInactivityInterval cfg in
    let r := ForceBasebackupAfterInactivityInterval cfg' in
    r = d - Z.rem d Minute /\
    Z.rem r Minute = 0 /\
    Z.abs r <= Z.abs d /\
    Z.abs (d - r) < Minute /\
    (Minute <= r <-> Minute <= d) /\
    cfg' = set_ForceBasebackupAfterInactivityInterval r cfg.
Proof.
  unfold New. intros H.
  destruct opened; [| discriminate].
  destruct decoded as [cfg |]; [| discriminate].
  injection H as <-. exists cfg.
  split; [reflexivity |]. split; [reflexivity |].
  cbn [ForceBasebackupAfterInactivityInterval
       set_ForceBasebackupAfterInactivityInterval].
  pose proof (Truncate_minute (ForceBasebackupAfterInactivityInterval cfg)) as Ht.
  cbv zeta in Ht. intuition.
Qed.

Lemma config_New_truncates_interval_witness :
  New true (Some (cfg_with_interval (90 * Second)))
    = Some (cfg_with_interval (60 * Second)) /\
  exists cfg, true = true /\ Some (cfg_with_interval (90 * Second)) = Some cfg /\
    let d := ForceBasebackupAfterInactivityInterval cfg in
    let r := ForceBasebackupAfterInactivityInterval (cfg_with_interval (60 * Second)) in
    r = d - Z.rem d Minute /\
    Z.rem r Minute = 0 /\
    Z.abs r <= Z.abs d /\
    Z.abs (d - r) < Minute /\
    (Minute <= r <-> Minute <= d) /\
    cfg_with_interval (60 * Second) = set_ForceBasebackupAfterInactivityInterval r cfg.
Proof.
  split; [reflexivity |].
  apply (config_New_truncates_interval true
           (Some (cfg_with_interval (90 * Second))) (cfg_with_interval (60 * Second))).
  reflexivity.
Defined.

End ConfigLoader.

(* ------------------------------------------------------------------ *)
(** ** What a method leaves alone

    [steps X R c]: whatever [c] does, the state it leaves is related by [R]
    to the state it started from; [X] is what is known when [c] panics, so
    [steps False R c] also says that [c] never panics. *)
Definition steps {A} (X : Prop) (R : relation LogicalBackup) (c : M A) : Prop :=
  forall b, wp c b (fun _ b' => R b b') (fun b' => R b b') X.

Section Steps.

Context (X : Prop) (R : relation LogicalBackup) `{!PreOrder R}.

Lemma steps_ret {A} (a : A) : steps X R (mret a).
Proof. intros b. apply wp_ret. reflexivity. Qed.

Lemma steps_skip : steps X R skip.
Proof. intros b. apply wp_skip. reflexivity. Qed.

Lemma steps_get : steps X R get.
Proof. intros b. apply wp_get. reflexivity. Qed.

Lemma steps_fail {A} : steps X R (@fail A).
Proof. intros b. apply wp_fail. reflexivity. Qed.

Lemma steps_panic {A} : X -> steps X R (@panic A).
Proof. intros HX b. exact HX. Qed.

Lemma steps_modify g : (forall b, R b (g b)) -> steps X R (modify g).
Proof. intros H b. apply H. Qed.

Lemma steps_bind {A B} (c : M A) (k : A -> M B) :
  steps X R c -> (forall a, steps X R (k a)) -> steps X R (c ≫= k).
Proof.
  intros Hc Hk b. apply wp_bind.
  eapply wp_mono; [apply Hc | | auto | auto].
  intros a b1 H1. cbn beta in H1.
  eapply wp_mono; [apply Hk | | | auto]; cbn beta; intros; etrans; eauto.
Qed.

Lemma steps_attempt (c : M unit) : steps X R c -> steps X R (attempt c).
Proof.
  intros Hc b. apply wp_attempt.
  eapply wp_mono; [apply Hc | | | ]; auto.
Qed.

Lemma steps_forM {A} (xs : list A) (body : A -> M unit) :
  (forall x, steps X R (body x)) -> steps X R (forM_ xs body).
Proof.
  intros Hbody. induction xs as [|x xs IH].
  - apply steps_skip.
  - cbn [forM_]. apply steps_bind; auto.
Qed.

Lemma steps_fsCall W c :
  (forall b, R b (set_fsLog (fsLog b ++ [c]) b)) -> steps X R (fsCall W c).
Proof. intros H b. apply H. Qed.

End Steps.

(** [frame X f c]: the part [f] of the state is after [c] what it was. *)
Definition kept {T} (f : LogicalBackup -> T) : relation LogicalBackup :=
  fun b b' => f b' = f b.

#[global] Instance kept_preorder {T} (f : LogicalBackup -> T) : PreOrder (kept f).
Proof. split; unfold kept; [intros b; reflexivity | intros b1 b2 b3; congruence]. Qed.

Definition frame {T A} (X : Prop) (f : LogicalBackup -> T) (c : M A) : Prop :=
  steps X (kept f) c.

(** The calls on the file system are only ever added to. *)
Definition log_grows : relation LogicalBackup :=
  fun b b' => fsLog b `prefix_of` fsLog b'.

#[global] Instance log_grows_preorder : PreOrder log_grows.
Proof.
  split; unfold log_grows; [intros b; reflexivity | intros b1 b2 b3; apply transitivity].
Qed.

(** Such facts are found by following the method's text, unfolding the
    methods met on the way. *)
Ltac steps_leaf :=
  intros; unfold kept, log_grows; cbn;
  first [reflexivity | apply prefix_app_r; reflexivity].

Ltac steps_step :=
  lazymatch goal with
  | |- steps _ _ (_ ≫= _) => apply steps_bind; [typeclasses eauto | | intros ?]
  | |- steps _ _ (mret _) => apply steps_ret; typeclasses eauto
  | |- steps _ _ skip => apply steps_skip; typeclasses eauto
  | |- steps _ _ get => apply steps_get; typeclasses eauto
  | |- steps _ _ fail => apply steps_fail; typeclasses eauto
  | |- steps _ _ panic => apply steps_panic; try exact I
  | |- steps _ _ (modify _) => apply steps_modify; steps_leaf
  | |- steps _ _ (attempt _) => apply steps_attempt
  | |- steps _ _ (forM_ _ _) => apply steps_forM; [typeclasses eauto | intros ?]
  | |- steps _ _ (fsCall _ _) => apply steps_fsCall; steps_leaf
  | |- steps _ _ (let _ := _ in _) => cbv zeta
  | |- steps _ _ (if ?c then _ else _) => destruct c
  | |- steps _ _ (match ?c with _ => _ end) => destruct c
  end.

Ltac steps_unfold :=
  lazymatch goal with
  | |- steps _ _ ?c =>
      let h := lazymatch c with
               | ?h _ _ _ _ _ => h | ?h _ _ _ _ => h | ?h _ _ _ => h
               | ?h _ _ => h | ?h _ => h | ?h => h
               end in
      progress unfold h
  end.

Ltac frame_auto := unfold frame; repeat (first [steps_step | steps_unfold]).

Lemma frame_attempt {T} X (f : LogicalBackup -> T) (c : M unit) :
  frame X f c -> frame X f (attempt c).
Proof. apply steps_attempt. Qed.

Lemma wp_frame {T A} (f : LogicalBackup -> T) (c : M A) b
    (Q : A -> LogicalBackup -> Prop) (E : LogicalBackup -> Prop) (X X' : Prop) :
  frame X f c ->
  (forall a b', f b' = f b -> Q a b') ->
  (forall b', f b' = f b -> E b') ->
  (X -> X') ->
  wp c b Q E X'.
Proof.
  intros Hf HQ HE HX. eapply wp_mono; [apply Hf | | | ]; auto.
Qed.

(** An attempt never returns an error. *)
Lemma wp_attempt_frame {T} (f : LogicalBackup -> T) (c : M unit) b
    (Q : bool -> LogicalBackup -> Prop) (E : LogicalBackup -> Prop) (X X' : Prop) :
  frame X f c ->
  (forall r b', f b' = f b -> Q r b') ->
  (X -> X') ->
  wp (attempt c) b Q E X'.
Proof.
  intros Hf HQ HX. apply wp_attempt. eapply wp_mono; [apply Hf | | | ]; auto.
Qed.

(* ------------------------------------------------------------------ *)
(** ** The flush LSN never moves back *)

Section FlushLSN.

Variable W : World.

Lemma frame_latest_sendStatus : frame False latestFlushLSN (sendStatus W).
Proof. frame_auto. Qed.

Lemma frame_latest_writeRestartLSN : frame False latestFlushLSN (writeRestartLSN W).
Proof. frame_auto. Qed.

Lemma frame_latest_flushOidNameMap : frame False latestFlushLSN (flushOidNameMap W).
Proof. frame_auto. Qed.

Lemma frame_latest_prepareTablesForPublication S :
  frame True latestFlushLSN (prepareTablesForPublication W S).
Proof. frame_auto. Qed.

(** The flush LSN after a method is at least what it was before. *)
Definition flush_not_before (b b' : LogicalBackup) : Prop :=
  latestFlushLSN b <= latestFlushLSN b'.

Lemma handler_flush_monotone m walStart b :
  wp (handler W m walStart) b
     (fun _ b' => flush_not_before b b') (fun b' => flush_not_before b b') True.
Proof.
  unfold flush_not_before.
  assert (Hframe : forall (c : M unit),
    frame True latestFlushLSN c ->
    wp (modify (set_currentLSN walStart);; c) b
       (fun _ b' => latestFlushLSN b <= latestFlushLSN b')
       (fun b' => latestFlushLSN b <= latestFlushLSN b') True).
  { intros c Hc. apply (wp_frame latestFlushLSN) with (X := True); auto.
    - frame_auto. exact Hc.
    - intros ? b' ->. lia.
    - intros b' ->. lia. }
  unfold handler. destruct m as [v | v | v | v | v | v | | | raw];
    try (apply Hframe; frame_auto; fail).
  (* Commit is the one case that writes the flush LSN. *)
  - do 2 (apply wp_bind, wp_modify). apply wp_bind, wp_get. apply wp_bind.
    eapply (wp_frame latestFlushLSN) with (X := True);
      [frame_auto | | intros b1 H1; cbn in H1; lia | auto].
    intros _ b1 H1. cbn in H1. apply wp_bind.
    eapply (wp_frame latestFlushLSN) with (X := False);
      [apply frame_attempt, frame_latest_flushOidNameMap | | intros b2 H2; lia | tauto].
    intros _ b2 H2. apply wp_bind, wp_get.
    assert (Htail : forall (sent : bool) b3, latestFlushLSN b <= latestFlushLSN b3 ->
      wp (updateMetricsOnCommit;; if sent then skip else fail) b3
         (fun _ b' => latestFlushLSN b <= latestFlushLSN b')
         (fun b' => latestFlushLSN b <= latestFlushLSN b') True).
    { intros sent b3 H3.
      eapply (wp_frame latestFlushLSN) with (X := True);
        [frame_auto | intros ? b' -> | intros b' -> | auto]; exact H3. }
    apply wp_bind.
    destruct (latestFlushLSN b2 <? getNextFlushLSN b2) eqn:Hadv.
    + apply Z.ltb_lt in Hadv.
      apply wp_bind, wp_modify. apply wp_bind.
      eapply (wp_frame latestFlushLSN) with (X := False);
        [apply frame_attempt, frame_latest_writeRestartLSN | | intros b3 H3; cbn in H3; lia | tauto].
      intros _ b3 H3. cbn in H3.
      eapply (wp_frame latestFlushLSN) with (X := False);
        [apply frame_attempt, frame_latest_sendStatus | | intros b4 H4; lia | tauto].
      intros sent b4 H4. apply Htail. lia.
    + apply wp_ret. apply (Htail true). lia.
Qed.

Lemma sendStatus_flush_monotone b :
  wp (sendStatus W) b
     (fun _ b' => flush_not_before b b') (fun b' => flush_not_before b b') False.
Proof.
  unfold flush_not_before.
  eapply (wp_frame latestFlushLSN); [apply frame_latest_sendStatus | | | tauto].
  - intros ? b' ->. lia.
  - intros b' ->. lia.
Qed.

Lemma logicalDecodingTurn_flush_monotone t b :
  wp (logicalDecodingTurn W t) b
     (fun _ b' => flush_not_before b b') (fun b' => flush_not_before b b') True.
Proof.
  assert (Hrefl : forall b0, flush_not_before b0 b0) by (intros; unfold flush_not_before; lia).
  assert (Hsend : forall b0, flush_not_before b b0 ->
    wp (sent ← attempt (sendStatus W);
        if (sent : bool) then mret Continue else mret (Return true)) b0
       (fun _ b' => flush_not_before b b') (fun b' => flush_not_before b b') True).
  { intros b0 H0. apply wp_bind, wp_attempt.
    eapply wp_mono; [apply sendStatus_flush_monotone | | | tauto];
      cbn beta; unfold flush_not_before in *.
    - intros _ b1 H1. apply wp_ret. lia.
    - intros b1 H1. apply wp_ret. lia. }
  assert (Hreply : forall repMsg b0, flush_not_before b b0 ->
    wp (heartbeatReply W repMsg) b0
       (fun _ b' => flush_not_before b b') (fun b' => flush_not_before b b') True).
  { intros repMsg b0 H0. unfold heartbeatReply.
    destruct (replyRequested repMsg); [apply Hsend, H0 | apply wp_ret, H0]. }
  destruct t as [| | [| | | [repMsg |]]]; cbn [logicalDecodingTurn];
    try (apply wp_ret, Hrefl).
  - apply Hsend, Hrefl.
  - apply wp_bind, wp_get.
    destruct (rm_WalMessage repMsg) as [wal |]; [| apply Hreply, Hrefl].
    cbn zeta.
    destruct (IsValid (WalStart wal) && (WalStart wal <=? latestFlushLSN b));
      [apply wp_ret, Hrefl |].
    destruct (Parse W (WalData wal)) as [logmsg |]; [| apply wp_ret, Hrefl].
    apply wp_bind, wp_attempt.
    eapply wp_mono; [apply handler_flush_monotone | | | auto]; cbn beta.
    + intros _ b1 H1. apply Hreply, H1.
    + intros b1 H1. apply wp_ret, H1.
Qed.

Lemma logicalDecodingLoop_flush_monotone turns b :
  wp (logicalDecodingLoop W turns) b
     (fun _ b' => flush_not_before b b') (fun b' => flush_not_before b b') True.
Proof.
  revert b. induction turns as [| t turns IH]; intros b.
  - apply wp_ret. unfold flush_not_before. lia.
  - cbn [logicalDecodingLoop]. apply wp_bind.
    eapply wp_mono; [apply logicalDecodingTurn_flush_monotone | | auto | auto].
    cbn beta. intros [| stop] b1 H1.
    + eapply wp_mono; [apply IH | | | auto]; cbn beta;
        unfold flush_not_before in *; intros; lia.
    + apply wp_ret, H1.
Qed.

(** C3.  After initialization the flush LSN is monotonic non-decreasing:
    every message handled by [handler], every status sent, every turn of the
    receive loop and every run of the loop leave [latestFlushLSN] greater
    than or equal to its value before, whether the step returns normally or
    with an error (a panic ends the process). *)
Theorem latestFlushLSN_monotone (b : LogicalBackup) :
  (forall m walStart,
     match handler W m walStart b with
     | Done _ b' | Failed b' => latestFlushLSN b <= latestFlushLSN b'
     | Panicked => True
     end) /\
  match sendStatus W b with
  | Done _ b' | Failed b' => latestFlushLSN b' = latestFlushLSN b
  | Panicked => False
  end /\
  (forall t,
     match logicalDecodingTurn W t b with
     | Done _ b' | Failed b' => latestFlushLSN b <= latestFlushLSN b'
     | Panicked => True
     end) /\
  (forall turns,
     match logicalDecodingLoop W turns b with
     | Done _ b' | Failed b' => latestFlushLSN b <= latestFlushLSN b'
     | Panicked => True
     end).
Proof.
  split; [| split; [| split]].
  - intros m walStart. pose proof (handler_flush_monotone m walStart b) as H.
    unfold wp, flush_not_before in H. destruct (handler W m walStart b); exact H.
  - pose proof (frame_latest_sendStatus b) as H.
    unfold wp in H. destruct (sendStatus W b); exact H.
  - intros t. pose proof (logicalDecodingTurn_flush_monotone t b) as H.
    unfold wp, flush_not_before in H. destruct (logicalDecodingTurn W t b); exact H.
  - intros turns. pose proof (logicalDecodingLoop_flush_monotone turns b) as H.
    unfold wp, flush_not_before in H. destruct (logicalDecodingLoop W turns b); exact H.
Qed.

End FlushLSN.

(* ------------------------------------------------------------------ *)
(** ** Concrete worlds, configurations and messages used in examples *)

(** A world in which every call succeeds and the decoder rejects every
    payload. *)
Definition world_ok : World :=
  mkWorld (fun _ => true) (fun _ => true) (fun _ _ _ => true) (fun _ => true)
          (fun _ => None).

(** Staging and archive directories, new tables tracked, a hundred records
    per segment. *)
Definition cfg_example : config.Config :=
  config.mkConfig "staging" "archive" true 100 0.

(** A database without a replication slot whose [CreateSlot] answers
    [consistentPoint], and with no table in the publication. *)
Definition startup_fresh (consistentPoint : LSN) : Startup :=
  mkStartup true true (Some InvalidLSN) (Some consistentPoint) None (Some [])
            (fun _ => true).

(* ------------------------------------------------------------------ *)
(** ** Slot creation *)

Section SlotCreation.

Variable W : World.

Lemma wrap64_pred (p : Z) :
  is_uint64 p ->
  wrap64 (p - 1) = if p =? 0 then uint64_modulus - 1 else p - 1.
Proof.
  unfold is_uint64, wrap64, uint64_modulus. intros Hp.
  destruct (Z.eqb_spec p 0) as [-> | Hne].
  - reflexivity.
  - apply Z.mod_small. lia.
Qed.

Lemma prepareDB_created_slot (S : Startup) (l p : LSN) b :
  slotFlushLSN S = Some l -> IsValid l = false -> createdSlot S = Some p ->
  wp (prepareDB W S) b
     (fun _ b' => latestFlushLSN b' = wrap64 (p - 1)) (fun _ => True) True.
Proof.
  intros Hslot Hinvalid Hcreated. unfold prepareDB.
  destruct (negb (connect_ok S)); [exact I |].
  destruct (negb (publication_ok S)); [exact I |].
  rewrite Hslot. apply wp_bind, wp_modify.
  rewrite Hinvalid, Hcreated. cbn [negb].
  apply wp_bind. apply wp_bind, wp_modify.
  eapply (wp_frame latestFlushLSN) with (X := False);
    [frame_auto | | auto | tauto].
  intros _ b1 H1. cbn in H1.
  eapply (wp_frame latestFlushLSN) with (X := True);
    [apply frame_latest_prepareTablesForPublication | | auto | auto].
  intros _ b2 H2. congruence.
Qed.

(** C4 (amended).  When the slot does not exist and is created, the
    engine sets [latestFlushLSN] to the consistent point minus one in 64-bit
    unsigned arithmetic: for every consistent point [p > 0] the result is
    [p - 1]; there is no guard for [p = 0], where the subtraction wraps
    around to [2^64 - 1]. *)
Theorem created_slot_flush_lsn (c : config.Config) (S : Startup) (l p : LSN)
    (b' : LogicalBackup) :
  slotFlushLSN S = Some l -> IsValid l = false ->
  createdSlot S = Some p -> is_uint64 p ->
  New W c S = Done tt b' ->
  (0 < p -> latestFlushLSN b' = p - 1) /\
  (p = 0 -> latestFlushLSN b' = uint64_modulus - 1).
Proof.
  intros Hslot Hinvalid Hcreated Hp Hnew.
  pose proof (prepareDB_created_slot S l p (initial c) Hslot Hinvalid Hcreated) as Hwp.
  apply (wp_Done _ _ _ _ _ _ _ Hwp) in Hnew. cbn beta in Hnew.
  rewrite (wrap64_pred p Hp) in Hnew.
  split; intros Hcase.
  - destruct (Z.eqb_spec p 0); [lia | exact Hnew].
  - subst p. exact Hnew.
Qed.

End SlotCreation.

(** C4 (as stated, refuted).  With the consistent point 0 the engine's
    flush LSN after slot creation is [2^64 - 1], not the 0 a saturating
    subtraction would give. *)
Lemma created_slot_flush_lsn_wraps :
  match New world_ok cfg_example (startup_fresh 0) with
  | Done _ b' =>
      latestFlushLSN b' = 18446744073709551615 /\ latestFlushLSN b' <> 0
  | _ => False
  end.
Proof. vm_compute. split; [reflexivity | discriminate]. Qed.

Lemma created_slot_flush_lsn_witness :
  exists b', New world_ok cfg_example (startup_fresh 1280) = Done tt b' /\
             latestFlushLSN b' = 1279.
Proof.
  eexists. split; [vm_compute; reflexivity |].
  refine (proj1 (created_slot_flush_lsn world_ok cfg_example (startup_fresh 1280)
                   InvalidLSN 1280 _ eq_refl eq_refl eq_refl _ _) _).
  - unfold is_uint64, uint64_modulus. lia.
  - vm_compute. reflexivity.
  - lia.
Defined.

(* ------------------------------------------------------------------ *)
(** ** Replayed frames *)

Section ReplayedFrames.

Variable W : World.

(** C5.  A WAL frame whose [WalStart] is valid (non-zero) and at most the
    current [latestFlushLSN] is dropped by the receive loop: the turn goes
    on to the next one with the engine's state exactly as it was, whatever
    the decoder and the world are, so the frame is neither decoded nor
    handed to [handler] (whose first act is to store [WalStart]).  A frame
    whose [WalStart] is invalid (zero) is not dropped by this check: it is
    decoded and, when that succeeds, handed to [handler]. *)
Theorem replayed_frame_dropped (b : LogicalBackup) (wal : WalMessage)
    (hb : option ServerHeartbeat) :
  let repMsg := mkReplicationMessage (Some wal) hb in
  (IsValid (WalStart wal) = true <-> WalStart wal <> 0) /\
  (IsValid (WalStart wal) = true /\ WalStart wal <= latestFlushLSN b ->
   logicalDecodingTurn W (Wait (Delivered (Some repMsg))) b = Done Continue b) /\
  (IsValid (WalStart wal) = false ->
   logicalDecodingTurn W (Wait (Delivered (Some repMsg))) b =
   match Parse W (WalData wal) with
   | None => Done (Return true) b
   | Some logmsg =>
       (handled ← attempt (handler W logmsg (WalStart wal));
        if (handled : bool) then heartbeatReply W repMsg
        else mret (Return true)) b
   end).
Proof.
  cbv zeta. split; [| split].
  - unfold IsValid, InvalidLSN. destruct (Z.eqb_spec (WalStart wal) 0); cbn; split;
      congruence.
  - intros [Hvalid Hle].
    cbn [logicalDecodingTurn]. unfold mbind, M_bind, get. cbn [rm_WalMessage].
    apply Z.leb_le in Hle. rewrite Hvalid, Hle. reflexivity.
  - intros Hinvalid.
    cbn [logicalDecodingTurn]. unfold mbind at 1, M_bind at 1, get.
    cbn [rm_WalMessage]. rewrite Hinvalid. cbn [andb].
    destruct (Parse W (WalData wal)); reflexivity.
Qed.

End ReplayedFrames.

(** A frame at LSN 0x500 arriving when the flush LSN is 0x500 leaves the
    engine as it was. *)
Example replayed_frame_dropped_0x500 :
  let b := set_latestFlushLSN 1280 (initial cfg_example) in
  logicalDecodingTurn world_ok
    (Wait (Delivered (Some (mkReplicationMessage
                              (Some (mkWalMessage 1280 [])) None)))) b
  = Done Continue b.
Proof. reflexivity. Qed.

(* ------------------------------------------------------------------ *)
(** ** Flushing the OID-to-name map *)

Section OidNameMap.

Variable W : World.

(** The file the map goes to, the document written and the three calls of
    a flush that gets past opening the file. *)
Definition oidNameMap_file (b : LogicalBackup) : string :=
  path_Join (baseDir b) OidNameMapFile.

Definition oidNameMap_doc (b : LogicalBackup) : YamlDoc :=
  OidNameDoc (nameChangeHistory (tableNameChanges b)).

Definition oidNameMap_calls (b : LogicalBackup) : list FsCall :=
  [OpenFile (oidNameMap_file b);
   Encode (oidNameMap_file b) (oidNameMap_doc b);
   SyncFileAndDirectory (oidNameMap_file b)].

(** The state a flush leaves when the file could be opened: the three
    calls are made, and the dirty bit is cleared when encoding succeeded. *)
Definition flushed (b : LogicalBackup) : LogicalBackup :=
  set_fsLog (fsLog b ++ oidNameMap_calls b)
    (if fs_ok W (Encode (oidNameMap_file b) (oidNameMap_doc b))
     then set_tableNameChanges
            (mkOidToName false (nameChangeHistory (tableNameChanges b))) b
     else b).

Lemma flushOidNameMap_clean b :
  isChanged (tableNameChanges b) = false -> flushOidNameMap W b = Done tt b.
Proof.
  intros Hclean. unfold flushOidNameMap, mbind, M_bind, get.
  rewrite Hclean. reflexivity.
Qed.

Lemma flushOidNameMap_dirty b :
  isChanged (tableNameChanges b) = true ->
  flushOidNameMap W b =
  if fs_ok W (OpenFile (oidNameMap_file b)) then
    if fs_ok W (Encode (oidNameMap_file b) (oidNameMap_doc b))
       && fs_ok W (SyncFileAndDirectory (oidNameMap_file b))
    then Done tt (flushed b)
    else Failed (flushed b)
  else Failed (set_fsLog (fsLog b ++ [OpenFile (oidNameMap_file b)]) b).
Proof.
  intros Hdirty.
  unfold flushOidNameMap, flushed, oidNameMap_calls, oidNameMap_doc, oidNameMap_file,
    mbind, M_bind, get, fsCall, modify, skip, fail, mret, M_ret.
  rewrite Hdirty. cbn [negb].
  destruct (fs_ok W (OpenFile _)); cbn [negb]; [| reflexivity].
  destruct (fs_ok W (Encode _ _)); cbn [negb andb];
    destruct (fs_ok W (SyncFileAndDirectory _)); cbn [negb];
    destruct b; cbn; rewrite <- ?app_assoc; reflexivity.
Qed.

(** What the commit records written to the tables leave alone. *)
Definition beside_tables (b : LogicalBackup) :=
  (cfg b, tableNameChanges b, transactionCommitLSN b, latestFlushLSN b,
   txBeginRelMsg b, fsLog b, standbyStatuses b).

End OidNameMap.

(* ------------------------------------------------------------------ *)
(** ** The commit case of [handler] *)

Section Commit.

Variable W : World.

(** [c] is the least of the commit LSN [top] and of the flush LSNs
    reported, with [needs_flush = true], by the writers of [tables]. *)
Definition is_candidate (top : LSN) (tables : gmap OID tablebackup.TableBackup)
    (c : LSN) : Prop :=
  c <= top /\
  (forall k w lsn, tables !! k = Some w -> tablebackup.GetFlushLSN w = (lsn, true) ->
                   c <= lsn) /\
  (c = top \/
   exists k w, tables !! k = Some w /\ tablebackup.GetFlushLSN w = (c, true)).

Definition least_flush (top : LSN) (tables : gmap OID tablebackup.TableBackup)
    (c : LSN) : Prop :=
  c <= top /\
  (forall k w, tables !! k = Some w -> tablebackup.flushRequired w = true ->
               c <= tablebackup.flushedLSN w) /\
  (c = top \/
   exists k w, tables !! k = Some w /\ tablebackup.flushRequired w = true /\
               tablebackup.flushedLSN w = c).

Lemma getNextFlushLSN_least b :
  least_flush (transactionCommitLSN b) (backupTables b) (getNextFlushLSN b).
Proof.
  unfold getNextFlushLSN.
  apply (map_fold_weak_ind (fun r m => least_flush (transactionCommitLSN b) m r)).
  - split; [lia |]. split; [| now left].
    intros k w Hk. rewrite lookup_empty in Hk. discriminate.
  - intros i x m r Hfresh (Hle & Hall & Hex).
    unfold nextFlushLSN_step, tablebackup.GetFlushLSN.
    destruct (tablebackup.flushRequired x) eqn:Hreq; cbn [andb].
    + destruct (Z.ltb_spec (tablebackup.flushedLSN x) r) as [Hlt | Hge].
      * split; [lia |]. split.
        -- intros k w Hk Hw. destruct (decide (i = k)) as [-> | Hne].
           ++ rewrite lookup_insert_eq in Hk. injection Hk as <-. lia.
           ++ rewrite lookup_insert_ne in Hk by exact Hne.
              specialize (Hall k w Hk Hw). lia.
        -- right. exists i, x. rewrite lookup_insert_eq. auto.
      * split; [lia |]. split.
        -- intros k w Hk Hw. destruct (decide (i = k)) as [-> | Hne].
           ++ rewrite lookup_insert_eq in Hk. injection Hk as <-. lia.
           ++ rewrite lookup_insert_ne in Hk by exact Hne. eauto.
        -- destruct Hex as [-> | (k & w & Hk & Hw & Heq)]; [now left |].
           right. exists k, w. split; [| auto].
           rewrite lookup_insert_ne; [exact Hk |]. intros ->. congruence.
    + split; [lia |]. split.
      * intros k w Hk Hw. destruct (decide (i = k)) as [-> | Hne].
        -- rewrite lookup_insert_eq in Hk. injection Hk as <-. congruence.
        -- rewrite lookup_insert_ne in Hk by exact Hne. eauto.
      * destruct Hex as [-> | (k & w & Hk & Hw & Heq)]; [now left |].
        right. exists k, w. split; [| auto].
        rewrite lookup_insert_ne; [exact Hk |]. intros ->. congruence.
Qed.

Lemma getNextFlushLSN_is_candidate b :
  is_candidate (transactionCommitLSN b) (backupTables b) (getNextFlushLSN b).
Proof.
  destruct (getNextFlushLSN_least b) as (Hle & Hall & Hex).
  split; [exact Hle |]. split.
  - intros k w lsn Hk [= <- Hreq]. now apply (Hall k w).
  - destruct Hex as [Heq | (k & w & Hk & Hreq & Heq)]; [now left |].
    right. exists k, w. split; [exact Hk |].
    unfold tablebackup.GetFlushLSN. now rewrite Heq, Hreq.
Qed.

(** The parts of the commit case: the commit record written to every
    participating table, and the recomputation of the flush LSN. *)
Definition commitRecords (v : message.Commit) : M unit :=
  b ← get;
  forM_ (participating b) (fun relOID =>
    b ← get;
    WriteCommandDataForTable W (BackupTables_GetIfExists relOID b)
      (message.Commit_Raw v) cCommit).

Definition advanceFlushLSN : M bool :=
  b ← get;
  let candidateFlushLSN := getNextFlushLSN b in
  if latestFlushLSN b <? candidateFlushLSN then
    modify (set_latestFlushLSN candidateFlushLSN);;
    attempt (writeRestartLSN W);;
    attempt (sendStatus W)
  else mret true.

Lemma handler_commit_parts v walStart b :
  handler W (message.MCommit v) walStart b =
  (commitRecords v;;
   attempt (flushOidNameMap W);;
   sent ← advanceFlushLSN;
   updateMetricsOnCommit;;
   if (sent : bool) then skip else fail)
    (set_currentLSN (message.Commit_LSN v) (set_currentLSN walStart b)).
Proof. reflexivity. Qed.

Lemma bind_get_eq {A} (k : LogicalBackup -> M A) b : (get ≫= k) b = k b b.
Proof. reflexivity. Qed.

(** Inversion of a normal return. *)
Lemma bind_Done {A B} (c : M A) (k : A -> M B) b r b' :
  (c ≫= k) b = Done r b' ->
  exists a b1, c b = Done a b1 /\ k a b1 = Done r b'.
Proof.
  unfold mbind, M_bind. destruct (c b) as [a b1 | |]; [| discriminate..].
  intros H. now exists a, b1.
Qed.

Lemma attempt_Done (c : M unit) b r b' :
  attempt c b = Done r b' ->
  (r = true /\ c b = Done tt b') \/ (r = false /\ c b = Failed b').
Proof.
  unfold attempt. destruct (c b) as [[] b1 | b1 |]; [| | discriminate].
  - intros [= <- <-]. now left.
  - intros [= <- <-]. now right.
Qed.

Lemma updateMetricsOnCommit_Done b r b' :
  updateMetricsOnCommit b = Done r b' -> b' = b.
Proof.
  unfold updateMetricsOnCommit, mbind at 1, M_bind at 1, get.
  generalize (participating b). intros l. revert b.
  induction l as [| k l IH]; intros b.
  - intros [= _ <-]. reflexivity.
  - cbn [forM_]. intros H. apply bind_Done in H as (a & b1 & H1 & H2).
    unfold mbind, M_bind, get in H1.
    destruct (BackupTables_GetIfExists k b); [| discriminate].
    injection H1 as _ <-. now apply IH.
Qed.

Lemma commitRecords_frame v : frame True beside_tables (commitRecords v).
Proof. frame_auto. Qed.

(** What neither the files nor the connection are part of. *)
Definition engine_core (b : LogicalBackup) :=
  (cfg b, backupTables b, transactionCommitLSN b, latestFlushLSN b,
   txBeginRelMsg b, nameChangeHistory (tableNameChanges b),
   relationMessages b, beginMsg b, typeMsg b).

Lemma frame_core_flushOidNameMap : frame False engine_core (flushOidNameMap W).
Proof. frame_auto. Qed.

Lemma frame_core_writeRestartLSN : frame False engine_core (writeRestartLSN W).
Proof. frame_auto. Qed.

Lemma frame_core_sendStatus : frame False engine_core (sendStatus W).
Proof. frame_auto. Qed.

Lemma frame_statuses_flushOidNameMap : frame False standbyStatuses (flushOidNameMap W).
Proof. frame_auto. Qed.

Lemma frame_statuses_writeRestartLSN : frame False standbyStatuses (writeRestartLSN W).
Proof. frame_auto. Qed.

Lemma sendStatus_sends b :
  wp (sendStatus W) b
     (fun _ b' => standbyStatuses b' = standbyStatuses b ++ [latestFlushLSN b])
     (fun b' => standbyStatuses b' = standbyStatuses b ++ [latestFlushLSN b]) False.
Proof.
  unfold sendStatus. wp_run; reflexivity.
Qed.

Lemma bind_Failed {A B} (c : M A) (k : A -> M B) b b' :
  (c ≫= k) b = Failed b' ->
  c b = Failed b' \/ exists a b1, c b = Done a b1 /\ k a b1 = Failed b'.
Proof.
  unfold mbind, M_bind. destruct (c b) as [a b1 | b1 |]; [| | discriminate].
  - intros H. right. now exists a, b1.
  - intros [= <-]. now left.
Qed.

Lemma attempt_not_Failed (c : M unit) b b' : attempt c b <> Failed b'.
Proof. unfold attempt. destruct (c b); discriminate. Qed.

Lemma advanceFlushLSN_not_Failed b b' : advanceFlushLSN b <> Failed b'.
Proof.
  unfold advanceFlushLSN. rewrite bind_get_eq. cbv zeta.
  destruct (latestFlushLSN b <? getNextFlushLSN b); [| discriminate].
  intros H. apply bind_Failed in H as [H | (? & b1 & _ & H)]; [discriminate |].
  apply bind_Failed in H as [H | (? & b2 & _ & H)];
    now apply attempt_not_Failed in H.
Qed.

Lemma updateMetricsOnCommit_not_Failed b b' : updateMetricsOnCommit b <> Failed b'.
Proof.
  unfold updateMetricsOnCommit. rewrite bind_get_eq.
  generalize (participating b). intros l. revert b.
  induction l as [| k l IH]; intros b; [discriminate |].
  cbn [forM_]. intros H. apply bind_Failed in H as [H | ([] & b1 & _ & H)].
  - rewrite bind_get_eq in H. destruct (BackupTables_GetIfExists k b); discriminate.
  - now apply IH in H.
Qed.

(** The calls [writeRestartLSN] makes to write the state file of [dir]
    with the flush LSN [l], and whether the write went through: the file is
    opened (created or truncated); when that fails nothing more is done;
    the document is encoded; when that fails the file is not synced; the
    file and its directory are synced, and a failure of that is only
    logged. *)
Definition stateFileWrite (dir : string) (l : LSN) : list FsCall * bool :=
  let name := path_Join dir stateFile in
  if fs_ok W (OpenFile name) then
    if fs_ok W (Encode name (StateInfoDoc l)) then
      ([OpenFile name; Encode name (StateInfoDoc l); SyncFileAndDirectory name], true)
    else ([OpenFile name; Encode name (StateInfoDoc l)], false)
  else ([OpenFile name], false).

(** The calls of a whole [writeRestartLSN] under the configuration [c]:
    the state file of the staging directory, when one is configured, and
    then, unless that write failed, the state file of the archive
    directory. *)
Definition restartLSNWrite (c : config.Config) (l : LSN) : list FsCall * bool :=
  if decide (config.StagingDir c = "") then stateFileWrite (config.ArchiveDir c) l
  else
    let staging := stateFileWrite (config.StagingDir c) l in
    if staging.2 then
      let archive := stateFileWrite (config.ArchiveDir c) l in
      (staging.1 ++ archive.1, archive.2)
    else staging.

Lemma writeStateFile_eq dir b :
  writeStateFile W dir b =
  let write := stateFileWrite dir (latestFlushLSN b) in
  if write.2 then Done tt (set_fsLog (fsLog b ++ write.1) b)
  else Failed (set_fsLog (fsLog b ++ write.1) b).
Proof.
  unfold writeStateFile, stateFileWrite, mbind, M_bind, get, fsCall, fail, skip, mret, M_ret.
  cbn. destruct (fs_ok W (OpenFile _)); cbn; [| reflexivity].
  destruct (fs_ok W (Encode _ _)); cbn; rewrite <- !app_assoc; reflexivity.
Qed.

Lemma writeRestartLSN_eq b :
  writeRestartLSN W b =
  let write := restartLSNWrite (cfg b) (latestFlushLSN b) in
  if write.2 then Done tt (set_fsLog (fsLog b ++ write.1) b)
  else Failed (set_fsLog (fsLog b ++ write.1) b).
Proof.
  unfold writeRestartLSN, restartLSNWrite. rewrite bind_get_eq.
  destruct (decide (config.StagingDir (cfg b) = "")) as [Hnone | Hstaging].
  - unfold mbind, M_bind, skip, mret, M_ret. apply writeStateFile_eq.
  - unfold mbind, M_bind. rewrite writeStateFile_eq. cbv zeta.
    destruct (stateFileWrite (config.StagingDir (cfg b)) (latestFlushLSN b)) as [calls ok].
    cbn [fst snd]. destruct ok; [| reflexivity].
    rewrite writeStateFile_eq. cbv zeta. cbn [latestFlushLSN set_fsLog fsLog].
    destruct (stateFileWrite (config.ArchiveDir (cfg b)) (latestFlushLSN b)) as [calls' ok'].
    cbn [fst snd]. destruct b; cbn. rewrite <- app_assoc. reflexivity.
Qed.

Lemma frame_fsLog_sendStatus : frame False fsLog (sendStatus W).
Proof. frame_auto. Qed.

(** What handling a commit comes to, from [b] to [b'], after the commit
    records were written.  [b1] is the state in which the candidate is
    computed: the commit records are written and the name map is flushed.
    When the candidate is above the flush LSN it becomes the flush LSN, the
    state file is written with it by [writeRestartLSN] (the calls of
    [restartLSNWrite], which are all that is added to the log of calls; an
    error of the write is only logged) and [sendStatus] sends it, [sent]
    telling whether that succeeded; otherwise nothing more is done, and no
    file is written. *)
Definition commit_outcome (v : message.Commit) (walStart : LSN)
    (b b' : LogicalBackup) (sent : bool) : Prop :=
  exists b1,
    (exists flushed, (commitRecords v;; attempt (flushOidNameMap W))
                       (set_currentLSN (message.Commit_LSN v) (set_currentLSN walStart b))
                     = Done flushed b1) /\
    latestFlushLSN b1 = latestFlushLSN b /\
    standbyStatuses b1 = standbyStatuses b /\
    backupTables b' = backupTables b1 /\
    let candidate := getNextFlushLSN b1 in
    is_candidate (transactionCommitLSN b) (backupTables b1) candidate /\
    if latestFlushLSN b <? candidate then
      let write := restartLSNWrite (cfg b) candidate in
      latestFlushLSN b' = candidate /\
      standbyStatuses b' = standbyStatuses b ++ [candidate] /\
      fsLog b' = fsLog b1 ++ write.1 /\
      exists b2,
        b2 = set_fsLog (fsLog b1 ++ write.1) (set_latestFlushLSN candidate b1) /\
        writeRestartLSN W (set_latestFlushLSN candidate b1)
          = (if write.2 then Done tt b2 else Failed b2) /\
        sendStatus W b2 = (if sent then Done tt b' else Failed b')
    else b' = b1 /\ sent = true.

Lemma commit_tail_outcome v walStart b b1 fl b2 sent b3 :
  commitRecords v (set_currentLSN (message.Commit_LSN v) (set_currentLSN walStart b))
    = Done tt b1 ->
  attempt (flushOidNameMap W) b1 = Done fl b2 ->
  advanceFlushLSN b2 = Done sent b3 ->
  commit_outcome v walStart b b3 sent.
Proof.
  unfold commit_outcome. set (b0 := set_currentLSN _ _). intros H1 H2 H3.
  pose proof (wp_Done _ _ _ _ _ _ _ (commitRecords_frame v b0) H1) as F1.
  cbn beta in F1. unfold kept, beside_tables in F1.
  injection F1 as Fcfg Fnames Ftx Flatest Fbegin Flog Fst. cbn in Ftx, Flatest, Fst.
  pose proof (wp_Done _ _ _ _ _ _ _
                (frame_attempt _ _ _ frame_core_flushOidNameMap b1) H2) as F2.
  cbn beta in F2. unfold kept, engine_core in F2.
  injection F2 as Gcfg Gtables Gtx Glatest _ _ _ _ _.
  pose proof (wp_Done _ _ _ _ _ _ _
                (frame_attempt _ _ _ frame_statuses_flushOidNameMap b1) H2) as Gst.
  cbn beta in Gst. unfold kept in Gst.
  exists b2. split.
  { exists fl. unfold mbind at 1, M_bind at 1. rewrite H1. exact H2. }
  split; [congruence |]. split; [congruence |].
  assert (Hcand : is_candidate (transactionCommitLSN b) (backupTables b2)
                    (getNextFlushLSN b2)).
  { replace (transactionCommitLSN b) with (transactionCommitLSN b2) by congruence.
    apply getNextFlushLSN_is_candidate. }
  unfold advanceFlushLSN in H3. rewrite bind_get_eq in H3. cbv zeta in H3.
  replace (latestFlushLSN b) with (latestFlushLSN b2) by congruence.
  cbv zeta. destruct (latestFlushLSN b2 <? getNextFlushLSN b2) eqn:Hadv.
  - apply bind_Done in H3 as ([] & b5 & H5 & H3). injection H5 as <-.
    apply bind_Done in H3 as (wrote & b6 & H6 & H3).
    assert (Hcfg : cfg b2 = cfg b) by (rewrite Gcfg, Fcfg; reflexivity).
    pose proof (writeRestartLSN_eq (set_latestFlushLSN (getNextFlushLSN b2) b2)) as Hwrite.
    cbv zeta in Hwrite. cbn [cfg latestFlushLSN fsLog set_latestFlushLSN] in Hwrite.
    rewrite Hcfg in Hwrite.
    set (write := restartLSNWrite (cfg b) (getNextFlushLSN b2)) in *.
    set (b5 := set_fsLog (fsLog b2 ++ write.1)
                 (set_latestFlushLSN (getNextFlushLSN b2) b2)) in *.
    assert (Hb6 : b6 = b5).
    { unfold attempt in H6. rewrite Hwrite in H6. destruct write.2; now injection H6. }
    subst b6.
    pose proof (wp_Done _ _ _ _ _ _ _
                  (frame_attempt _ _ _ frame_core_sendStatus b5) H3) as F7.
    cbn beta in F7. unfold kept, engine_core in F7.
    injection F7 as _ Ltables _ Llatest _ _ _ _ _.
    pose proof (wp_Done _ _ _ _ _ _ _
                  (frame_attempt _ _ _ frame_fsLog_sendStatus b5) H3) as Llog.
    cbn beta in Llog. unfold kept in Llog.
    assert (Lst : standbyStatuses b3 = standbyStatuses b5 ++ [latestFlushLSN b5]).
    { pose proof (sendStatus_sends b5) as Hs. unfold wp in Hs.
      apply attempt_Done in H3 as [[_ H7] | [_ H7]]; rewrite H7 in Hs; exact Hs. }
    subst b5. cbn in Ltables, Llatest, Llog, Lst.
    split; [exact Ltables |]. split; [exact Hcand |].
    split; [exact Llatest |]. split; [rewrite Lst; congruence |].
    split; [exact Llog |].
    eexists. split; [reflexivity |]. split; [exact Hwrite |].
    apply attempt_Done in H3 as [[-> H7] | [-> H7]]; exact H7.
  - injection H3 as <- <-. split; [reflexivity |]. split; [exact Hcand |]. split; reflexivity.
Qed.

(** C2.  On every Commit message, once the commit records are written
    (a failure to write one ends the handling with that error), the engine
    computes a candidate flush LSN equal to the minimum of the current
    transaction's commit LSN and, over every writer of the registry whose
    [GetFlushLSN] reports [needs_flush = true], that writer's reported flush
    LSN; writers reporting [needs_flush = false] do not count.
    [latestFlushLSN] is set to the candidate if and only if the candidate is
    strictly greater than the current [latestFlushLSN], and only in that
    case is the state file persisted and a standby status sent: the calls
    added to the log of file-system calls are exactly those of
    [restartLSNWrite] for the candidate ([state.yaml] opened with truncation,
    the document holding the candidate encoded, file and directory synced,
    in the staging directory when one is configured and then in the archive
    directory; a failed open or encode ends the write, which is only
    logged), and the status sent carries the candidate; [handler] returns
    an error when sending it failed.  When the candidate is not greater,
    the state is the one in which it was computed: nothing is written and
    nothing is sent. *)
Theorem commit_recomputes_flush_lsn (v : message.Commit) (walStart : LSN)
    (b : LogicalBackup) :
  match handler W (message.MCommit v) walStart b with
  | Done _ b' => commit_outcome v walStart b b' true
  | Failed b' =>
      commitRecords v (set_currentLSN (message.Commit_LSN v) (set_currentLSN walStart b))
        = Failed b' \/
      commit_outcome v walStart b b' false
  | Panicked => True
  end.
Proof.
  destruct (handler W (message.MCommit v) walStart b) as [[] b' | b' |] eqn:H;
    [| | exact I]; rewrite handler_commit_parts in H.
  - apply bind_Done in H as ([] & b1 & H1 & H).
    apply bind_Done in H as (fl & b2 & H2 & H).
    apply bind_Done in H as (sent & b3 & H3 & H).
    apply bind_Done in H as ([] & b4 & H4 & H).
    apply updateMetricsOnCommit_Done in H4. subst b4.
    destruct sent; [| discriminate]. injection H as <-.
    exact (commit_tail_outcome v walStart b b1 fl b2 true b3 H1 H2 H3).
  - apply bind_Failed in H as [H | ([] & b1 & H1 & H)]; [now left | right].
    apply bind_Failed in H as [H | (fl & b2 & H2 & H)];
      [now apply attempt_not_Failed in H |].
    apply bind_Failed in H as [H | (sent & b3 & H3 & H)];
      [now apply advanceFlushLSN_not_Failed in H |].
    apply bind_Failed in H as [H | ([] & b4 & H4 & H)];
      [now apply updateMetricsOnCommit_not_Failed in H |].
    apply updateMetricsOnCommit_Done in H4. subst b4.
    destruct sent; [discriminate |]. injection H as <-.
    exact (commit_tail_outcome v walStart b b1 fl b2 false b3 H1 H2 H3).
Qed.

End Commit.

(* ------------------------------------------------------------------ *)
(** ** Transactions without changes to tracked tables *)

(** The state a method leaves, [d] when it panicked. *)
Definition result_state {A} (r : result A) (d : LogicalBackup) : LogicalBackup :=
  match r with
  | Done _ b | Failed b => b
  | Panicked => d
  end.

(** A transaction that inserts one row into the new table 16384, and the
    states of the engine after it and inside the next, empty, one. *)
Definition example_tx1 : list (message.Message * LSN) :=
  [(message.MBegin (message.mkBegin 7 256 [Byte.x42]), 200);
   (message.MRelation
      (message.mkRelation 16384%N (message.mkNamespacedName "public" "t") [Byte.x52]), 201);
   (message.MInsert (message.mkDML 16384%N [Byte.x49]), 202);
   (message.MCommit (message.mkCommit 256 0 [Byte.x43]), 300)].

Definition after_tx1 : LogicalBackup :=
  result_state (run world_ok example_tx1 (initial cfg_example)) (initial cfg_example).

Definition in_tx2 : LogicalBackup :=
  result_state
    (handler world_ok (message.MBegin (message.mkBegin 8 512 [Byte.x42])) 400 after_tx1)
    after_tx1.

Definition commit_tx2 : message.Commit := message.mkCommit 512 0 [Byte.x43].

(** The engine inside a first, empty transaction, and after its commit. *)
Definition in_tx0 : LogicalBackup :=
  result_state
    (handler world_ok (message.MBegin (message.mkBegin 7 256 [Byte.x42])) 200
       (initial cfg_example))
    (initial cfg_example).

Definition after_tx0 : LogicalBackup :=
  result_state (handler world_ok (message.MCommit (message.mkCommit 256 0 [Byte.x43])) 300 in_tx0)
    in_tx0.

Lemma commit_recomputes_flush_lsn_witness :
  handler world_ok (message.MCommit (message.mkCommit 256 0 [Byte.x43])) 300 in_tx0
    = Done tt after_tx0 /\
  latestFlushLSN in_tx0 = 0 /\
  latestFlushLSN after_tx0 = 256 /\
  standbyStatuses after_tx0 = [256] /\
  fsLog after_tx0 =
    [OpenFile "staging/state.yaml";
     Encode "staging/state.yaml" (StateInfoDoc 256);
     SyncFileAndDirectory "staging/state.yaml";
     OpenFile "archive/state.yaml";
     Encode "archive/state.yaml" (StateInfoDoc 256);
     SyncFileAndDirectory "archive/state.yaml"] /\
  commit_outcome world_ok (message.mkCommit 256 0 [Byte.x43]) 300 in_tx0 after_tx0 true.
Proof.
  assert (H : handler world_ok (message.MCommit (message.mkCommit 256 0 [Byte.x43])) 300
                in_tx0 = Done tt after_tx0) by (vm_compute; reflexivity).
  split; [exact H |].
  split; [vm_compute; reflexivity |]. split; [vm_compute; reflexivity |].
  split; [vm_compute; reflexivity |]. split; [vm_compute; reflexivity |].
  pose proof (commit_recomputes_flush_lsn world_ok
                (message.mkCommit 256 0 [Byte.x43]) 300 in_tx0) as Hc.
  rewrite H in Hc. exact Hc.
Defined.

(** C6 (as stated, refuted).  The second transaction has no DML at all, so
    no table participates in it, and its commit LSN is 0x200; yet handling
    its Commit leaves [latestFlushLSN] at 0: the writer of table 16384 still
    holds the unflushed records of the first transaction and caps the
    candidate. *)
Lemma empty_transaction_capped :
  match handler world_ok (message.MCommit commit_tx2) 600 in_tx2 with
  | Done _ b' =>
      participating in_tx2 = [] /\
      transactionCommitLSN in_tx2 = 512 /\
      latestFlushLSN in_tx2 = 0 /\
      latestFlushLSN b' = 0 /\
      latestFlushLSN b' <> transactionCommitLSN in_tx2
  | _ => False
  end.
Proof. vm_compute. repeat split; discriminate. Qed.

Section EmptyTransaction.

Variable W : World.

(** C6 (amended).  For every transaction without a DML for a tracked table
    (no table participates at commit), handling its Commit sets
    [latestFlushLSN] to the transaction's commit LSN provided that LSN is
    above the current flush LSN and no writer of the registry that needs a
    flush reports a flush LSN below it; whether the status could be sent or
    not, and without a panic. *)
Theorem empty_transaction_advances (v : message.Commit) (walStart : LSN)
    (b : LogicalBackup) :
  participating b = [] ->
  latestFlushLSN b < transactionCommitLSN b ->
  (forall k w lsn, backupTables b !! k = Some w ->
                   tablebackup.GetFlushLSN w = (lsn, true) ->
                   transactionCommitLSN b <= lsn) ->
  match handler W (message.MCommit v) walStart b with
  | Done _ b' | Failed b' => latestFlushLSN b' = transactionCommitLSN b
  | Panicked => False
  end.
Proof.
  intros Hnone Hlt Hcap.
  enough (Hwp : wp (handler W (message.MCommit v) walStart) b
                   (fun _ b' => latestFlushLSN b' = transactionCommitLSN b)
                   (fun b' => latestFlushLSN b' = transactionCommitLSN b) False).
  { unfold wp in Hwp. destruct (handler W (message.MCommit v) walStart b); exact Hwp. }
  unfold wp. rewrite handler_commit_parts. fold (wp
    (commitRecords W v;; attempt (flushOidNameMap W);;
     sent ← advanceFlushLSN W; updateMetricsOnCommit;;
     if (sent : bool) then skip else fail)
    (set_currentLSN (message.Commit_LSN v) (set_currentLSN walStart b))
    (fun _ b' => latestFlushLSN b' = transactionCommitLSN b)
    (fun b' => latestFlushLSN b' = transactionCommitLSN b) False).
  set (b0 := set_currentLSN _ _).
  assert (Hmetrics : forall b3, txBeginRelMsg b3 = txBeginRelMsg b ->
            updateMetricsOnCommit b3 = Done tt b3).
  { intros b3 H3. unfold updateMetricsOnCommit, mbind, M_bind, get, participating.
    rewrite H3. unfold participating in Hnone. rewrite Hnone. reflexivity. }
  apply wp_bind. unfold commitRecords. apply wp_bind, wp_get.
  replace (participating b0) with (@nil OID) by (symmetry; exact Hnone).
  cbn [forM_]. apply wp_skip.
  apply wp_bind.
  eapply (wp_attempt_frame engine_core) with (X := False);
    [apply frame_core_flushOidNameMap | | tauto].
  intros fl b1 F1. unfold engine_core in F1.
  injection F1 as _ Ftables Ftx Flatest Fbegin _ _ _ _.
  cbn in Ftables, Ftx, Flatest, Fbegin.
  assert (Hcand : getNextFlushLSN b1 = transactionCommitLSN b).
  { destruct (getNextFlushLSN_is_candidate b1) as (Hle & _ & [Heq | (k & w & Hk & Hw)]).
    - congruence.
    - rewrite Ftables in Hk. specialize (Hcap k w _ Hk Hw). lia. }
  apply wp_bind. unfold advanceFlushLSN. apply wp_bind, wp_get. cbv zeta.
  rewrite Hcand, Flatest. apply Z.ltb_lt in Hlt. rewrite Hlt.
  apply wp_bind, wp_modify. apply wp_bind.
  eapply (wp_attempt_frame engine_core) with (X := False);
    [apply frame_core_writeRestartLSN | | tauto].
  intros wrote b2 F2. unfold engine_core in F2.
  injection F2 as _ _ _ Glatest Gbegin _ _ _ _. cbn in Glatest, Gbegin.
  eapply (wp_attempt_frame engine_core) with (X := False);
    [apply frame_core_sendStatus | | tauto].
  intros sent b3 F3. unfold engine_core in F3.
  injection F3 as _ _ _ Hlatest Hbegin _ _ _ _.
  apply wp_bind. unfold wp at 1. rewrite Hmetrics by congruence.
  destruct sent; [apply wp_skip | apply wp_fail]; congruence.
Qed.

End EmptyTransaction.

Lemma empty_transaction_advances_witness :
  match handler world_ok (message.MCommit (message.mkCommit 256 0 [Byte.x43])) 300 in_tx0 with
  | Done _ b' | Failed b' => latestFlushLSN b' = transactionCommitLSN in_tx0
  | Panicked => False
  end.
Proof.
  apply (empty_transaction_advances world_ok).
  - vm_compute. reflexivity.
  - vm_compute. reflexivity.
  - intros k w lsn Hk. vm_compute in Hk. discriminate.
Defined.

(* ------------------------------------------------------------------ *)
(** ** The name map at commit *)

(** The engine inside the first transaction of [example_tx1], after the
    relation message registered the new table's name: the name map is
    dirty. *)
Definition in_tx1_dirty : LogicalBackup :=
  result_state (run world_ok (take 2 example_tx1) (initial cfg_example))
    (initial cfg_example).

(** C7 (as stated, refuted).  With a staging directory configured, a flush
    of the dirty map makes exactly three calls, all on
    [staging/oid2name.yaml]: the file is opened (and truncated) in place,
    encoded and synced.  No call is made on a file of the archive
    directory, and there is no temporary file to rename. *)
Lemma flushOidNameMap_not_in_archive :
  match flushOidNameMap world_ok in_tx1_dirty with
  | Done _ b' =>
      isChanged (tableNameChanges in_tx1_dirty) = true /\
      fsLog b' =
        fsLog in_tx1_dirty ++
        [OpenFile "staging/oid2name.yaml";
         Encode "staging/oid2name.yaml"
           (OidNameDoc (nameChangeHistory (tableNameChanges in_tx1_dirty)));
         SyncFileAndDirectory "staging/oid2name.yaml"] /\
      Forall (fun c => FsCall_name c <>
                       path_Join (config.ArchiveDir (cfg in_tx1_dirty)) OidNameMapFile)
             (fsLog b')
  | _ => False
  end.
Proof.
  vm_compute. split; [reflexivity |]. split; [reflexivity |].
  repeat constructor; discriminate.
Qed.

Section NameMapAtCommit.

Variable W : World.

Lemma advanceFlushLSN_log_grows : steps False log_grows (advanceFlushLSN W).
Proof. frame_auto. Qed.

(** C7 (amended).  A flush of the OID-to-name history that is not dirty
    leaves everything untouched and returns success.  A flush of a dirty
    history writes it in place, by opening with truncation, encoding and
    syncing file and directory, to [oid2name.yaml] in the staging directory
    when one is configured and in the archive directory otherwise; the dirty
    bit is cleared when the encoding succeeded, and the flush fails when one
    of the three calls does.  Every commit that is handled without error and
    finds the history dirty makes these calls, on the history as it is. *)
Theorem oid_name_map_flush (b : LogicalBackup) :
  (isChanged (tableNameChanges b) = false -> flushOidNameMap W b = Done tt b) /\
  (isChanged (tableNameChanges b) = true ->
   oidNameMap_file b =
     path_Join (if decide (config.StagingDir (cfg b) = "")
                then config.ArchiveDir (cfg b) else config.StagingDir (cfg b))
               "oid2name.yaml" /\
   flushOidNameMap W b =
     if fs_ok W (OpenFile (oidNameMap_file b)) then
       if fs_ok W (Encode (oidNameMap_file b) (oidNameMap_doc b))
          && fs_ok W (SyncFileAndDirectory (oidNameMap_file b))
       then Done tt (flushed W b)
       else Failed (flushed W b)
     else Failed (set_fsLog (fsLog b ++ [OpenFile (oidNameMap_file b)]) b)) /\
  (forall v walStart b',
     isChanged (tableNameChanges b) = true ->
     handler W (message.MCommit v) walStart b = Done tt b' ->
     exists rest,
       fsLog b' =
       fsLog b ++
       (if fs_ok W (OpenFile (oidNameMap_file b)) then oidNameMap_calls b
        else [OpenFile (oidNameMap_file b)]) ++ rest).
Proof.
  split; [apply flushOidNameMap_clean |].
  split; [intros Hdirty; split; [reflexivity | now apply flushOidNameMap_dirty] |].
  intros v walStart b' Hdirty H. rewrite handler_commit_parts in H.
  set (b0 := set_currentLSN _ _) in *.
  apply bind_Done in H as ([] & b1 & H1 & H).
  apply bind_Done in H as (fl & b2 & H2 & H).
  apply bind_Done in H as (sent & b3 & H3 & H).
  apply bind_Done in H as ([] & b4 & H4 & H).
  apply updateMetricsOnCommit_Done in H4. subst b4.
  destruct sent; [| discriminate]. injection H as <-.
  pose proof (wp_Done _ _ _ _ _ _ _ (commitRecords_frame W v b0) H1) as F1.
  cbn beta in F1. unfold kept, beside_tables in F1.
  injection F1 as Fcfg Fnames _ _ _ Flog _. cbn in Fcfg, Fnames, Flog.
  assert (Hfile : oidNameMap_file b1 = oidNameMap_file b).
  { unfold oidNameMap_file, baseDir. now rewrite Fcfg. }
  assert (Hdoc : oidNameMap_doc b1 = oidNameMap_doc b).
  { unfold oidNameMap_doc. now rewrite Fnames. }
  assert (Hcalls : oidNameMap_calls b1 = oidNameMap_calls b).
  { unfold oidNameMap_calls. now rewrite Hfile, Hdoc. }
  pose proof (wp_Done _ _ _ _ _ _ _ (advanceFlushLSN_log_grows b2) H3) as [rest Hrest].
  exists rest. rewrite Hrest, <- Flog, <- Hfile, <- Hcalls, app_assoc. f_equal.
  unfold attempt in H2. rewrite flushOidNameMap_dirty in H2 by congruence.
  destruct (fs_ok W (OpenFile (oidNameMap_file b1))).
  - destruct (fs_ok W (Encode _ _) && fs_ok W (SyncFileAndDirectory _));
      injection H2 as _ <-; reflexivity.
  - injection H2 as _ <-. reflexivity.
Qed.

End NameMapAtCommit.

(** The commit of [example_tx1] finds the map dirty and flushes it. *)
Example oid_name_map_flush_at_commit :
  exists rest,
    fsLog after_tx1 =
    [OpenFile "staging/oid2name.yaml";
     Encode "staging/oid2name.yaml"
       (OidNameDoc (nameChangeHistory (tableNameChanges after_tx1)));
     SyncFileAndDirectory "staging/oid2name.yaml"] ++ rest.
Proof. exists []. vm_compute. reflexivity. Qed.

(* ------------------------------------------------------------------ *)
(** ** Writing to a table *)

Section Writes.

Variable W : World.

Lemma WriteDelta_ID n raw c l t :
  tablebackup.ID (tablebackup.WriteDelta n raw c l t).2 = tablebackup.ID t.
Proof. unfold tablebackup.WriteDelta. destruct (n <=? _); reflexivity. Qed.

Lemma WriteDelta_deltas n raw c l t :
  tablebackup.deltas (tablebackup.WriteDelta n raw c l t).2
  = tablebackup.deltas t ++ [tablebackup.mkDelta l raw].
Proof. unfold tablebackup.WriteDelta. destruct (n <=? _); reflexivity. Qed.

(** The state after a successful [WriteCommandDataForTable] on the writer
    [w] stored under [p]. *)
Definition wrote (p : OID) (w : tablebackup.TableBackup) (msg : bytes) (cmd : cmdType)
    (b : LogicalBackup) : LogicalBackup :=
  set_msgCnt (<[cmd := default 0 (msgCnt b !! cmd) + 1]> (msgCnt b))
    (set_bytesWritten (wrap64 (bytesWritten b + tablebackup.frame_size msg))
       (set_backupTables
          (<[p := (tablebackup.WriteDelta (config.DeltasPerFile (cfg b)) msg
                     (transactionCommitLSN b) (currentLSN b) w).2]> (backupTables b))
          b)).

Lemma wp_WriteCommand t msg cmd b (Q : unit -> LogicalBackup -> Prop) E (X : Prop) :
  match t with
  | Some p =>
      match backupTables b !! p with
      | Some w =>
          if write_ok W (tablebackup.ID w) msg (currentLSN b)
          then Q tt (wrote p w msg cmd b) else E b
      | None => X
      end
  | None => X
  end ->
  wp (WriteCommandDataForTable W t msg cmd) b Q E X.
Proof.
  unfold wp, WriteCommandDataForTable, mbind, M_bind, get, panic, fail, modify, wrote.
  destruct t as [p |]; [| auto].
  destruct (backupTables b !! p) as [w |]; [| auto].
  destruct (write_ok W _ _ _); [| auto].
  unfold tablebackup.WriteDelta.
  destruct (config.DeltasPerFile (cfg b) <=? _); auto.
Qed.

End Writes.

(* ------------------------------------------------------------------ *)
(** ** Well-formed states *)

(** All adjacent elements of a list are related. *)
Fixpoint adjacent {A} (R : A -> A -> Prop) (l : list A) : Prop :=
  match l with
  | x :: (y :: _) as l' => R x y /\ adjacent R l'
  | _ => True
  end.

Lemma adjacent_snoc {A} (R : A -> A -> Prop) (l : list A) (e : A) :
  adjacent R (l ++ [e]) <-> adjacent R l /\ (forall x, last l = Some x -> R x e).
Proof.
  induction l as [| a l IH].
  - cbn. split; [intros _; split; [exact I | discriminate] | auto].
  - destruct l as [| a' l].
    + cbn. split.
      * intros [H _]. split; [exact I |]. now intros x [= <-].
      * intros [_ H]. split; [| exact I]. now apply H.
    + change (adjacent R ((a :: a' :: l) ++ [e]))
        with (R a a' /\ adjacent R ((a' :: l) ++ [e])).
      change (adjacent R (a :: a' :: l)) with (R a a' /\ adjacent R (a' :: l)).
      change (last (a :: a' :: l)) with (last (a' :: l)).
      rewrite IH. tauto.
Qed.

(** No two adjacent entries of a history carry the same name. *)
Definition names_alternate (h : list NameAtLSN) : Prop :=
  adjacent (fun x y => Name x <> Name y) h.

(** The states the engine is in: a writer is registered under its own
    OID, every table participating in the current transaction is
    registered, no type message is held back, and every history that
    exists has an entry and no adjacent entries of the same name. *)
Record wf (b : LogicalBackup) : Prop := mkWf {
  wf_ids : forall k w, backupTables b !! k = Some w -> tablebackup.ID w = k;
  wf_participating : forall k, k ∈ participating b -> is_Some (backupTables b !! k);
  wf_typeMsg : typeMsg b = None;
  wf_names : forall k h, nameChangeHistory (tableNameChanges b) !! k = Some h ->
                         h <> [] /\ names_alternate h
}.

Definition keeps_wf : relation LogicalBackup := fun b b' => wf b -> wf b'.

#[global] Instance keeps_wf_preorder : PreOrder keeps_wf.
Proof. split; unfold keeps_wf; [intros b; auto | intros b1 b2 b3; auto]. Qed.

Lemma wf_initial c : wf (initial c).
Proof.
  split; cbn.
  - intros k w Hk. rewrite lookup_empty in Hk. discriminate.
  - intros k Hk. apply elem_of_nil in Hk. contradiction.
  - reflexivity.
  - intros k h Hk. rewrite lookup_empty in Hk. discriminate.
Qed.

(** Well-formedness looks at four fields only. *)
Definition wf_fields (b : LogicalBackup) :=
  (backupTables b, txBeginRelMsg b, typeMsg b, nameChangeHistory (tableNameChanges b)).

Lemma wf_same_fields b b' : wf_fields b' = wf_fields b -> wf b -> wf b'.
Proof.
  unfold wf_fields. intros [= Htables Hbegin Htype Hnames] [H1 H2 H3 H4].
  split.
  - rewrite Htables. exact H1.
  - unfold participating. rewrite Hbegin, Htables. exact H2.
  - congruence.
  - rewrite Hnames. exact H4.
Qed.

Lemma elem_of_participating k b :
  k ∈ participating b <-> exists s, txBeginRelMsg b = Some s /\ k ∈ s.
Proof.
  unfold participating. destruct (txBeginRelMsg b) as [s |].
  - rewrite elem_of_elements. split; [eauto | now intros (s' & [= <-] & H)].
  - split; [intros H; now apply elem_of_nil in H | now intros (s' & [=] & _)].
Qed.

Section WellFormed.

Variable W : World.

Lemma wf_wrote p w msg cmd b :
  backupTables b !! p = Some w -> wf b -> wf (wrote p w msg cmd b).
Proof.
  intros Hp [H1 H2 H3 H4]. split; cbn.
  - intros k w' Hk. destruct (decide (p = k)) as [<- | Hne].
    + rewrite lookup_insert_eq in Hk. injection Hk as <-.
      rewrite WriteDelta_ID. now apply H1.
    + rewrite lookup_insert_ne in Hk by exact Hne. now apply H1.
  - intros k Hk. apply lookup_insert_is_Some'. right. now apply H2.
  - exact H3.
  - exact H4.
Qed.

Lemma WriteCommand_keeps_wf t msg cmd :
  steps True keeps_wf (WriteCommandDataForTable W t msg cmd).
Proof.
  intros b. apply wp_WriteCommand.
  destruct t as [p |]; [| exact I].
  destruct (backupTables b !! p) as [w |] eqn:Hp; [| exact I].
  destruct (write_ok W _ _ _); unfold keeps_wf; [| auto].
  now apply wf_wrote.
Qed.

Lemma txBegin_add_keeps_wf bt : steps True keeps_wf (txBegin_add bt).
Proof.
  intros b. unfold txBegin_add. apply wp_bind, wp_get.
  destruct (backupTables b !! bt) as [w |] eqn:Hbt; [| exact I].
  destruct (txBeginRelMsg b) as [s |] eqn:Hs; [| exact I].
  apply wp_modify. intros [H1 H2 H3 H4]. split; cbn; auto.
  intros k Hk. apply elem_of_elements, elem_of_union in Hk as [Hk | Hk].
  - apply elem_of_singleton in Hk. subst k. rewrite (H1 bt w Hbt), Hbt. eauto.
  - apply H2, elem_of_participating. eauto.
Qed.

Lemma maybeRegisterNewName_keeps_wf oid name :
  steps True keeps_wf (maybeRegisterNewName oid name).
Proof.
  intros b. unfold maybeRegisterNewName. apply wp_bind, wp_get. cbv zeta.
  destruct (nameChangeHistory (tableNameChanges b) !! oid) as [h |] eqn:Hh.
  - destruct (last h) as [e |] eqn:He; [| exact I].
    apply wp_bind, wp_ret. cbn [is_Some_bool negb orb].
    destruct (bool_decide (Name e = name)) eqn:Hname; cbn [negb];
      [apply wp_skip; unfold keeps_wf; auto |].
    apply bool_decide_eq_false in Hname.
    apply wp_bind, wp_modify, wp_bind, wp_get.
    unfold BackupTables_GetIfExists. cbn [backupTables set_tableNameChanges].
    destruct (backupTables b !! oid) as [w |] eqn:Hw; [| exact I].
    rewrite Hw. apply wp_modify.
    intros [H1 H2 H3 H4]. split; cbn.
    + intros k w' Hk. destruct (decide (oid = k)) as [<- | Hne].
      * rewrite lookup_insert_eq in Hk. injection Hk as <-. cbn. now apply H1.
      * rewrite lookup_insert_ne in Hk by exact Hne. now apply H1.
    + intros k Hk. apply lookup_insert_is_Some'. right. now apply H2.
    + exact H3.
    + intros k h' Hk. destruct (decide (oid = k)) as [<- | Hne].
      * rewrite lookup_insert_eq in Hk. injection Hk as <-. cbn [default].
        split; [intros Hnil; destruct h; discriminate Hnil |].
        apply adjacent_snoc. split; [now apply (H4 oid h) |].
        intros x Hx. rewrite He in Hx. injection Hx as <-. exact Hname.
      * rewrite lookup_insert_ne in Hk by exact Hne. now apply (H4 k).
  - apply wp_bind, wp_ret. cbn [is_Some_bool negb orb].
    apply wp_bind, wp_modify, wp_bind, wp_get.
    unfold BackupTables_GetIfExists. cbn [backupTables set_tableNameChanges].
    destruct (backupTables b !! oid) as [w |] eqn:Hw; [| exact I].
    rewrite Hw. apply wp_modify.
    intros [H1 H2 H3 H4]. split; cbn.
    + intros k w' Hk. destruct (decide (oid = k)) as [<- | Hne].
      * rewrite lookup_insert_eq in Hk. injection Hk as <-. cbn. now apply H1.
      * rewrite lookup_insert_ne in Hk by exact Hne. now apply H1.
    + intros k Hk. apply lookup_insert_is_Some'. right. now apply H2.
    + exact H3.
    + intros k h' Hk. destruct (decide (oid = k)) as [<- | Hne].
      * rewrite lookup_insert_eq in Hk. injection Hk as <-. cbn.
        split; [discriminate | exact I].
      * rewrite lookup_insert_ne in Hk by exact Hne. now apply (H4 k).
Qed.

Lemma wf_registered oid name b :
  wf b -> wf (set_backupTables (<[oid := tablebackup.New name oid]> (backupTables b)) b).
Proof.
  intros [H1 H2 H3 H4]. split; cbn; auto.
  - intros k w Hk. destruct (decide (oid = k)) as [<- | Hne].
    + rewrite lookup_insert_eq in Hk. now injection Hk as <-.
    + rewrite lookup_insert_ne in Hk by exact Hne. now apply H1.
  - intros k Hk. apply lookup_insert_is_Some'. right. now apply H2.
Qed.

Lemma wf_begin v b :
  wf b ->
  wf (set_beginMsg (message.Begin_Raw v)
        (set_txBeginRelMsg (Some ∅)
           (set_transactionCommitLSN (message.FinalLSN v)
              (set_lastTxId (message.XID v) b)))).
Proof.
  intros [H1 H2 H3 H4]. split; cbn; auto.
  intros k Hk. rewrite elements_empty in Hk. now apply elem_of_nil in Hk.
Qed.

Lemma wf_no_type b : wf b -> wf (set_typeMsg None b).
Proof. intros [H1 H2 H3 H4]. split; cbn; auto. Qed.

End WellFormed.

Create HintDb wf.
#[global] Hint Resolve wf_registered wf_begin wf_no_type : wf.
#[global] Hint Extern 1 (wf _) =>
  match goal with
  | H : wf ?b |- wf _ => apply (wf_same_fields b); [reflexivity | exact H]
  end : wf.

(** Keeping well-formedness is found by following the method's text, down
    to the three methods above. *)
Ltac wf_step :=
  lazymatch goal with
  | |- steps _ keeps_wf (modify _) =>
      apply steps_modify; unfold keeps_wf; intros; solve [eauto with wf]
  | |- steps _ keeps_wf (BackupTables_Set _ _) =>
      apply steps_modify; unfold keeps_wf; intros; solve [eauto with wf]
  | |- steps _ keeps_wf (fsCall _ _) =>
      apply steps_fsCall; unfold keeps_wf; intros; solve [eauto with wf]
  | |- steps True keeps_wf (WriteCommandDataForTable _ _ _ _) =>
      apply WriteCommand_keeps_wf
  | |- steps True keeps_wf (txBegin_add _) => apply txBegin_add_keeps_wf
  | |- steps True keeps_wf (maybeRegisterNewName _ _) =>
      apply maybeRegisterNewName_keeps_wf
  end.

Ltac wf_auto := repeat (first [wf_step | steps_step | steps_unfold]).

Section WellFormedSteps.

Variable W : World.

Lemma handler_keeps_wf m walStart : steps True keeps_wf (handler W m walStart).
Proof. destruct m; wf_auto. Qed.

Lemma prepareDB_keeps_wf S : steps True keeps_wf (prepareDB W S).
Proof. wf_auto. Qed.

Lemma run_keeps_wf msgs : steps True keeps_wf (run W msgs).
Proof.
  unfold run. apply steps_forM; [typeclasses eauto |].
  intros [m walStart]. apply handler_keeps_wf.
Qed.

(** Every state the engine reaches is well formed. *)
Lemma New_wf c S b : New W c S = Done tt b -> wf b.
Proof.
  intros H. exact (wp_Done _ _ _ _ _ _ _ (prepareDB_keeps_wf S (initial c)) H
                     (wf_initial c)).
Qed.

Lemma run_wf msgs b b' : wf b -> run W msgs b = Done tt b' -> wf b'.
Proof.
  intros Hwf H. exact (wp_Done _ _ _ _ _ _ _ (run_keeps_wf msgs b) H Hwf).
Qed.

End WellFormedSteps.

(* ------------------------------------------------------------------ *)
(** ** Participating tables are registered *)

Section Participating.

Variable W : World.

Lemma GetIfExists_participating k b :
  wf b -> k ∈ participating b -> BackupTables_GetIfExists k b = Some k.
Proof.
  intros Hwf Hk. unfold BackupTables_GetIfExists.
  destruct (wf_participating b Hwf k Hk) as [w ->]. reflexivity.
Qed.

Lemma frame_fields_advanceFlushLSN : frame False wf_fields (advanceFlushLSN W).
Proof. frame_auto. Qed.

Lemma frame_fields_flushOidNameMap : frame False wf_fields (flushOidNameMap W).
Proof. frame_auto. Qed.

Lemma commitRecords_safe v b :
  wf b ->
  wp (commitRecords W v) b (fun _ b' => wf b') (fun _ => True) False.
Proof.
  intros Hwf. unfold commitRecords. apply wp_bind, wp_get.
  apply wp_mono with (Q := fun _ b' => wf b' /\ participating b' = participating b)
                     (E := fun _ => True) (X := False); [| tauto | auto | auto].
  apply wp_forM; [now split |].
  intros k b1 Hk [Hwf1 Hpart]. apply wp_bind, wp_get.
  rewrite GetIfExists_participating by (rewrite ?Hpart; assumption).
  apply wp_WriteCommand.
  destruct (wf_participating b1 Hwf1 k) as [w Hw]; [now rewrite Hpart |].
  rewrite Hw. destruct (write_ok W _ _ _); [| exact I].
  split; [now apply wf_wrote | exact Hpart].
Qed.

Lemma updateMetricsOnCommit_safe b :
  wf b -> wp updateMetricsOnCommit b (fun _ b' => b' = b) (fun _ => True) False.
Proof.
  intros Hwf. unfold updateMetricsOnCommit. apply wp_bind, wp_get.
  apply (wp_forM _ _ (fun b' => b' = b)); [reflexivity |].
  intros k b1 Hk ->. apply wp_bind, wp_get.
  rewrite GetIfExists_participating by assumption. apply wp_skip. reflexivity.
Qed.

Lemma handler_commit_safe v walStart b :
  wf b ->
  wp (handler W (message.MCommit v) walStart) b (fun _ _ => True) (fun _ => True) False.
Proof.
  intros Hwf. unfold wp. rewrite handler_commit_parts.
  fold (wp
    (commitRecords W v;; attempt (flushOidNameMap W);;
     sent ← advanceFlushLSN W; updateMetricsOnCommit;;
     if (sent : bool) then skip else fail)
    (set_currentLSN (message.Commit_LSN v) (set_currentLSN walStart b))
    (fun _ _ => True) (fun _ => True) False).
  set (b0 := set_currentLSN _ _).
  assert (Hwf0 : wf b0) by (apply (wf_same_fields b); [reflexivity | exact Hwf]).
  apply wp_bind.
  eapply wp_mono; [apply commitRecords_safe, Hwf0 | | auto | auto]. cbn beta.
  intros _ b1 Hwf1. apply wp_bind.
  eapply (wp_attempt_frame wf_fields) with (X := False);
    [apply frame_fields_flushOidNameMap | | tauto].
  intros fl b2 F2. apply wp_bind.
  eapply (wp_frame wf_fields) with (X := False);
    [apply frame_fields_advanceFlushLSN | | auto | tauto].
  intros sent b3 F3. apply wp_bind.
  assert (Hwf3 : wf b3).
  { apply (wf_same_fields b1); [congruence | exact Hwf1]. }
  eapply wp_mono; [apply updateMetricsOnCommit_safe, Hwf3 | | auto | auto]. cbn beta.
  intros _ b4 _. destruct sent; exact I.
Qed.

(** C10.  In the sequential model of the engine, that is in every state
    reached from a successful [New] by handling messages one after the
    other, every OID of the participating set is registered: it maps to a
    writer of the registry, and to the one of that OID.  Hence handling a
    Commit there never operates on a missing writer: neither the
    lookup-and-write of the commit case nor the metrics update after it
    panics. *)
Theorem participating_tables_registered (c : config.Config) (S : Startup)
    (msgs : list (message.Message * LSN)) (b0 b : LogicalBackup) :
  New W c S = Done tt b0 ->
  run W msgs b0 = Done tt b ->
  (forall k, k ∈ participating b ->
     exists w, backupTables b !! k = Some w /\ tablebackup.ID w = k) /\
  (forall v walStart, handler W (message.MCommit v) walStart b <> Panicked).
Proof.
  intros Hnew Hrun.
  assert (Hwf : wf b) by (eapply run_wf; [eapply New_wf |]; eassumption).
  split.
  - intros k Hk. destruct (wf_participating b Hwf k Hk) as [w Hw].
    exists w. split; [exact Hw | exact (wf_ids b Hwf k w Hw)].
  - intros v walStart. eapply wp_not_Panicked. apply handler_commit_safe, Hwf.
Qed.

End Participating.

Lemma participating_tables_registered_witness :
  New world_ok cfg_example (startup_fresh 1280)
    = Done tt (result_state (New world_ok cfg_example (startup_fresh 1280))
                 (initial cfg_example)) /\
  participating
    (result_state
       (run world_ok (take 3 example_tx1)
          (result_state (New world_ok cfg_example (startup_fresh 1280))
             (initial cfg_example)))
       (initial cfg_example)) = [16384%N] /\
  (forall k,
     k ∈ participating
           (result_state
              (run world_ok (take 3 example_tx1)
                 (result_state (New world_ok cfg_example (startup_fresh 1280))
                    (initial cfg_example)))
              (initial cfg_example)) ->
     exists w,
       backupTables
         (result_state
            (run world_ok (take 3 example_tx1)
               (result_state (New world_ok cfg_example (startup_fresh 1280))
                  (initial cfg_example)))
            (initial cfg_example)) !! k = Some w /\
       tablebackup.ID w = k).
Proof.
  split; [vm_compute; reflexivity |].
  split; [vm_compute; reflexivity |].
  refine (proj1 (participating_tables_registered world_ok cfg_example
                   (startup_fresh 1280) (take 3 example_tx1) _ _ _ _)).
  - vm_compute. reflexivity.
  - vm_compute. reflexivity.
Defined.

(* ------------------------------------------------------------------ *)
(** ** The OID-to-name history *)

(** The history of [oid] is empty, or its last entry has another name
    than [name]. *)
Definition registers (oid : OID) (name : message.NamespacedName) (b : LogicalBackup)
    : Prop :=
  nameChangeHistory (tableNameChanges b) !! oid = None \/
  exists h e, nameChangeHistory (tableNameChanges b) !! oid = Some h /\
              last h = Some e /\ Name e <> name.

(** The state after the entry was appended: the history of [oid] has the
    new entry, with the current transaction's commit LSN, at its end, the
    history is dirty, and the writer [w] of [oid] has the new name. *)
Definition registered (oid : OID) (name : message.NamespacedName)
    (w : tablebackup.TableBackup) (b : LogicalBackup) : LogicalBackup :=
  set_backupTables (<[oid := tablebackup.SetTextID name w]> (backupTables b))
    (set_tableNameChanges
       (mkOidToName true
          (<[oid := default [] (nameChangeHistory (tableNameChanges b) !! oid)
                    ++ [mkNameAtLSN name (transactionCommitLSN b)]]>
             (nameChangeHistory (tableNameChanges b))))
       b).

(** The entries of a history are in the order of their LSNs. *)
Definition lsn_ordered (h : list NameAtLSN) : Prop :=
  adjacent (fun x y => Lsn x <= Lsn y) h.

(** The commit LSNs announced by the Begin messages of [msgs] do not
    decrease, starting from [l]. *)
Fixpoint commit_lsns_ascend (l : LSN) (msgs : list (message.Message * LSN)) : Prop :=
  match msgs with
  | [] => True
  | (message.MBegin v, _) :: msgs' =>
      l <= message.FinalLSN v /\ commit_lsns_ascend (message.FinalLSN v) msgs'
  | _ :: msgs' => commit_lsns_ascend l msgs'
  end.

(** Every history is ordered and ends at or before the current
    transaction's commit LSN. *)
Definition lsn_inv (b : LogicalBackup) : Prop :=
  forall k h, nameChangeHistory (tableNameChanges b) !! k = Some h ->
    lsn_ordered h /\ Forall (fun e => Lsn e <= transactionCommitLSN b) h.

Definition keeps_lsn : relation LogicalBackup := fun b b' =>
  transactionCommitLSN b' = transactionCommitLSN b /\ (lsn_inv b -> lsn_inv b').

#[global] Instance keeps_lsn_preorder : PreOrder keeps_lsn.
Proof.
  split; unfold keeps_lsn.
  - intros b. auto.
  - intros b1 b2 b3 [H1 H1'] [H2 H2']. split; [congruence | auto].
Qed.

Definition lsn_fields (b : LogicalBackup) :=
  (nameChangeHistory (tableNameChanges b), transactionCommitLSN b).

Lemma keeps_lsn_fields b b' : lsn_fields b' = lsn_fields b -> keeps_lsn b b'.
Proof.
  unfold lsn_fields, keeps_lsn, lsn_inv. intros [= Hh Ht].
  split; [exact Ht |]. rewrite Hh, Ht. auto.
Qed.

Lemma last_Forall {A} (P : A -> Prop) (l : list A) x :
  Forall P l -> last l = Some x -> P x.
Proof.
  intros Hall Hlast. rewrite Forall_forall in Hall. apply Hall.
  apply last_Some in Hlast as [l' ->]. apply elem_of_app. right. now left.
Qed.

Section NameHistory.

Variable W : World.

Lemma maybeRegisterNewName_registers oid name w b :
  backupTables b !! oid = Some w ->
  (forall h, nameChangeHistory (tableNameChanges b) !! oid = Some h -> h <> []) ->
  (registers oid name b ->
   maybeRegisterNewName oid name b = Done tt (registered oid name w b)) /\
  (~ registers oid name b -> maybeRegisterNewName oid name b = Done tt b).
Proof.
  intros Hw Hne. unfold registers, registered, maybeRegisterNewName,
    mbind, M_bind, get, mret, M_ret, modify, skip, panic, BackupTables_Set,
    BackupTables_GetIfExists.
  destruct (nameChangeHistory (tableNameChanges b) !! oid) as [h |] eqn:Hh.
  - destruct (last h) as [e |] eqn:He.
    2:{ apply last_None in He. now destruct (Hne h eq_refl). }
    cbn [is_Some_bool negb orb default].
    destruct (bool_decide_reflect (Name e = name)) as [Heq | Hneq]; cbn [negb].
    + split; [| reflexivity].
      intros [[=] | (h' & e' & [= <-] & He' & Hn)]. congruence.
    + split; [| intros Hn; exfalso; apply Hn; right; eauto].
      intros _. cbn. rewrite Hw. cbn. rewrite ?Hw. reflexivity.
  - cbn [is_Some_bool negb orb default]. split; [| intros Hn; exfalso; apply Hn; now left].
    intros _. cbn. rewrite Hw. cbn. rewrite ?Hw. reflexivity.
Qed.

Lemma maybeRegisterNewName_keeps_lsn oid name :
  steps True keeps_lsn (maybeRegisterNewName oid name).
Proof.
  intros b.
  assert (Hkeep : forall w,
    keeps_lsn b
      (set_backupTables (<[oid := w]> (backupTables b))
         (set_tableNameChanges
            (mkOidToName true
               (<[oid := default [] (nameChangeHistory (tableNameChanges b) !! oid)
                         ++ [mkNameAtLSN name (transactionCommitLSN b)]]>
                  (nameChangeHistory (tableNameChanges b)))) b))).
  { intros w. split; [reflexivity |]. intros Hinv k h Hk. cbn in Hk |- *.
    destruct (decide (oid = k)) as [<- | Hneq].
    - rewrite lookup_insert_eq in Hk. injection Hk as <-.
      destruct (nameChangeHistory (tableNameChanges b) !! oid) as [h0 |] eqn:Hh0; cbn [default].
      + destruct (Hinv oid h0 Hh0) as [Hord Hall]. split.
        * apply adjacent_snoc. split; [exact Hord |].
          intros x Hx. exact (last_Forall _ _ _ Hall Hx).
        * apply Forall_app. split; [exact Hall |]. constructor; [cbn; lia | constructor].
      + cbn. split; [exact I |]. constructor; [cbn; lia | constructor].
    - rewrite lookup_insert_ne in Hk by exact Hneq. exact (Hinv k h Hk). }
  unfold maybeRegisterNewName. apply wp_bind, wp_get. cbv zeta.
  apply wp_bind.
  apply wp_mono with (Q := fun _ b' => b' = b) (E := fun _ => False) (X := True);
    [destruct (nameChangeHistory (tableNameChanges b) !! oid) as [h |];
       [destruct (last h); [apply wp_ret; reflexivity | exact I] | apply wp_ret; reflexivity]
    | | tauto | auto].
  intros lastEntry ? ->.
  destruct (negb _ || negb _); [| apply wp_skip; reflexivity].
  apply wp_bind, wp_modify, wp_bind, wp_get.
  unfold BackupTables_GetIfExists. cbn [backupTables set_tableNameChanges].
  destruct (backupTables b !! oid) as [w |] eqn:Hw; [| exact I].
  rewrite Hw. apply wp_modify. apply Hkeep.
Qed.

End NameHistory.

Ltac lsn_step :=
  lazymatch goal with
  | |- steps _ keeps_lsn (modify _) =>
      apply steps_modify; intros; apply keeps_lsn_fields; reflexivity
  | |- steps _ keeps_lsn (fsCall _ _) =>
      apply steps_fsCall; intros; apply keeps_lsn_fields; reflexivity
  | |- steps True keeps_lsn (maybeRegisterNewName _ _) =>
      apply maybeRegisterNewName_keeps_lsn
  end.

Ltac lsn_auto := repeat (first [lsn_step | steps_step | steps_unfold]).

Section NameHistoryRuns.

Variable W : World.

Lemma handler_keeps_lsn m walStart :
  (forall v, m <> message.MBegin v) ->
  steps True keeps_lsn (handler W m walStart).
Proof.
  intros Hm. destruct m as [v | v | v | v | v | v | | | raw];
    try (now destruct (Hm v)); lsn_auto.
Qed.

Lemma prepareDB_keeps_lsn S : steps True keeps_lsn (prepareDB W S).
Proof. lsn_auto. Qed.

Lemma lsn_inv_begin v b :
  transactionCommitLSN b <= message.FinalLSN v ->
  lsn_inv b ->
  lsn_inv (set_beginMsg (message.Begin_Raw v)
             (set_txBeginRelMsg (Some ∅)
                (set_transactionCommitLSN (message.FinalLSN v)
                   (set_lastTxId (message.XID v) b)))).
Proof.
  intros Hle Hinv k h Hk. cbn in Hk |- *.
  destruct (Hinv k h Hk) as [Hord Hall]. split; [exact Hord |].
  eapply Forall_impl; [exact Hall |]. cbn. intros e He. lia.
Qed.

Lemma handler_begin v walStart b :
  handler W (message.MBegin v) walStart b =
  Done tt (set_beginMsg (message.Begin_Raw v)
             (set_txBeginRelMsg (Some ∅)
                (set_transactionCommitLSN (message.FinalLSN v)
                   (set_lastTxId (message.XID v) (set_currentLSN walStart b))))).
Proof. reflexivity. Qed.

Lemma run_lsn_inv msgs b b' :
  lsn_inv b ->
  commit_lsns_ascend (transactionCommitLSN b) msgs ->
  run W msgs b = Done tt b' ->
  lsn_inv b'.
Proof.
  revert b. induction msgs as [| [m walStart] msgs IH]; intros b Hinv Hasc Hrun.
  - injection Hrun as <-. exact Hinv.
  - unfold run in Hrun. cbn [forM_] in Hrun.
    apply bind_Done in Hrun as ([] & b1 & Hstep & Hrun).
    assert (Hnext : lsn_inv b1 /\ commit_lsns_ascend (transactionCommitLSN b1) msgs).
    { destruct m as [v | v | v | v | v0 | v | | | raw]; cbn in Hasc;
        try (match type of Hstep with
             | handler W ?m _ _ = _ =>
                 assert (Hm : forall v, m <> message.MBegin v) by (intros ?; discriminate);
                 destruct (wp_Done _ _ _ _ _ _ _
                             (handler_keeps_lsn m walStart Hm b) Hstep) as [Htx Hkeep]
             end;
             split; [now apply Hkeep | now rewrite Htx]).
      rename v0 into v. destruct Hasc as [Hle Hasc].
      rewrite handler_begin in Hstep. injection Hstep as <-. split; [| exact Hasc].
      apply lsn_inv_begin; [exact Hle |].
      apply (keeps_lsn_fields b); [reflexivity | exact Hinv]. }
    destruct Hnext as [Hinv1 Hasc1]. exact (IH b1 Hinv1 Hasc1 Hrun).
Qed.

Lemma New_lsn_inv c S b :
  New W c S = Done tt b -> lsn_inv b /\ transactionCommitLSN b = 0.
Proof.
  intros H.
  destruct (wp_Done _ _ _ _ _ _ _ (prepareDB_keeps_lsn S (initial c)) H) as [Htx Hkeep].
  split; [| exact Htx]. apply Hkeep.
  intros k h Hk. cbn in Hk. rewrite lookup_empty in Hk. discriminate.
Qed.

(** C8 (amended).  In every state the engine reaches, for every OID that
    has a writer and every name, [maybeRegisterNewName] appends the entry
    (name, current transaction commit LSN) to the OID's history if and only
    if the history is empty or its last entry has another name; when it
    appends it marks the history dirty and sets the writer's name, and
    otherwise it changes nothing.  Consequently no history has two adjacent
    entries of the same name.  Each entry carries the commit LSN of the
    transaction it was observed in, so a history is ordered by LSN, not
    strictly, as long as the commit LSNs announced by successive Begin
    messages do not decrease. *)
Theorem name_history_register (c : config.Config) (S : Startup)
    (msgs : list (message.Message * LSN)) (b0 b : LogicalBackup) :
  New W c S = Done tt b0 ->
  run W msgs b0 = Done tt b ->
  (forall oid name w,
     backupTables b !! oid = Some w ->
     (registers oid name b ->
      maybeRegisterNewName oid name b = Done tt (registered oid name w b)) /\
     (~ registers oid name b -> maybeRegisterNewName oid name b = Done tt b)) /\
  (forall oid h,
     nameChangeHistory (tableNameChanges b) !! oid = Some h -> names_alternate h) /\
  (commit_lsns_ascend 0 msgs ->
   forall oid h,
     nameChangeHistory (tableNameChanges b) !! oid = Some h -> lsn_ordered h).
Proof.
  intros Hnew Hrun.
  assert (Hwf : wf b) by (eapply run_wf; [eapply New_wf |]; eassumption).
  split; [| split].
  - intros oid name w Hw. apply maybeRegisterNewName_registers; [exact Hw |].
    intros h Hh. exact (proj1 (wf_names b Hwf oid h Hh)).
  - intros oid h Hh. exact (proj2 (wf_names b Hwf oid h Hh)).
  - intros Hasc oid h Hh.
    destruct (New_lsn_inv c S b0 Hnew) as [Hinv0 Htx0].
    assert (Hinv : lsn_inv b).
    { apply (run_lsn_inv msgs b0); [exact Hinv0 | now rewrite Htx0 | exact Hrun]. }
    exact (proj1 (Hinv oid h Hh)).
Qed.

End NameHistoryRuns.

(** The engine after a successful start on a database without slot and
    tables. *)
Definition started : LogicalBackup :=
  result_state (New world_ok cfg_example (startup_fresh 1280)) (initial cfg_example).

(** A transaction in which table 16384 is seen under two names. *)
Definition example_rename : list (message.Message * LSN) :=
  [(message.MBegin (message.mkBegin 7 256 [Byte.x42]), 200);
   (message.MRelation
      (message.mkRelation 16384%N (message.mkNamespacedName "public" "t") [Byte.x52]), 201);
   (message.MRelation
      (message.mkRelation 16384%N (message.mkNamespacedName "public" "u") [Byte.x52]), 203)].

(** C8 (as stated, refuted).  Both names are registered with the commit LSN
    of the one transaction: the history of table 16384 has two entries with
    the same LSN, so it is not strictly ordered by LSN. *)
Lemma name_history_not_strictly_ordered :
  match run world_ok example_rename started with
  | Done _ b =>
      nameChangeHistory (tableNameChanges b) !! 16384%N
      = Some [mkNameAtLSN (message.mkNamespacedName "public" "t") 256;
              mkNameAtLSN (message.mkNamespacedName "public" "u") 256] /\
      ~ (256 < 256)
  | _ => False
  end.
Proof. vm_compute. split; [reflexivity | discriminate]. Qed.

Lemma name_history_register_witness :
  New world_ok cfg_example (startup_fresh 1280) = Done tt started /\
  run world_ok example_rename started
    = Done tt (result_state (run world_ok example_rename started) started) /\
  (forall oid h,
     nameChangeHistory
       (tableNameChanges (result_state (run world_ok example_rename started) started))
       !! oid = Some h ->
     names_alternate h).
Proof.
  split; [vm_compute; reflexivity |].
  split; [vm_compute; reflexivity |].
  refine (proj1 (proj2 (name_history_register world_ok cfg_example
                          (startup_fresh 1280) example_rename started _ _ _))).
  - vm_compute. reflexivity.
  - vm_compute. reflexivity.
Defined.

(* ------------------------------------------------------------------ *)
(** ** The records of a transaction in a table's stream *)

(** What the engine holds for one table: whether it has a writer, whether
    it got the current transaction's begin record, the relation message
    held back for it, and everything written to its stream. *)
Record TableView := mkTableView {
  tv_tracked : bool;
  tv_begun : bool;
  tv_pending : option bytes;
  tv_stream : list tablebackup.Delta
}.

Definition stream (oid : OID) (b : LogicalBackup) : list tablebackup.Delta :=
  match backupTables b !! oid with
  | Some w => tablebackup.deltas w
  | None => []
  end.

Definition view (oid : OID) (b : LogicalBackup) : TableView :=
  mkTableView (is_Some_bool (backupTables b !! oid)) (txBegin_has oid b)
              (relationMessages b !! oid) (stream oid b).

(** The record written for the relation message held back, if any. *)
Definition pending_record (walStart : LSN) (pending : option bytes)
    : list tablebackup.Delta :=
  match pending with
  | Some raw => [tablebackup.mkDelta walStart raw]
  | None => []
  end.

(** One message of a transaction's body, seen from table [oid]: a relation
    message for the table is held back (and makes the table tracked when new
    tables are); a DML for the table, when it is tracked, writes the begin
    record unless the table has it, the relation message held back and the
    DML itself, all with the frame's LSN. *)
Definition table_step (trackNew : bool) (beginRaw : bytes) (oid : OID)
    (tv : TableView) (mw : message.Message * LSN) : TableView :=
  let dml (v : message.DML) :=
    if bool_decide (message.RelationOID v = oid) && tv_tracked tv then
      mkTableView true true None
        (tv_stream tv
         ++ (if tv_begun tv then [] else [tablebackup.mkDelta mw.2 beginRaw])
         ++ pending_record mw.2 (tv_pending tv)
         ++ [tablebackup.mkDelta mw.2 (message.DML_Raw v)])
    else tv in
  match mw.1 with
  | message.MRelation v =>
      if bool_decide (message.Relation_OID v = oid) && (tv_tracked tv || trackNew)
      then mkTableView true (tv_begun tv) (Some (message.Relation_Raw v)) (tv_stream tv)
      else tv
  | message.MInsert v => dml v
  | message.MUpdate v => dml v
  | message.MDelete v => dml v
  | _ => tv
  end.

(** The messages between a transaction's Begin and its Commit. *)
Definition in_transaction (m : message.Message) : bool :=
  match m with
  | message.MBegin _ | message.MCommit _ => false
  | _ => true
  end.

Section TableSteps.

Variable W : World.

Lemma WriteCommand_Done p msg cmd b r b' :
  WriteCommandDataForTable W (Some p) msg cmd b = Done r b' ->
  exists w, backupTables b !! p = Some w /\ b' = wrote p w msg cmd b.
Proof.
  intros H.
  refine (wp_Done _ _
            (fun _ b' => exists w, backupTables b !! p = Some w /\
                                   b' = wrote p w msg cmd b)
            (fun _ => True) True _ _ _ H).
  apply wp_WriteCommand.
  destruct (backupTables b !! p) as [w |]; [| exact I].
  destruct (write_ok W _ _ _); [eauto | exact I].
Qed.

Lemma txBegin_add_Done bt b r b' :
  txBegin_add bt b = Done r b' ->
  exists w s, backupTables b !! bt = Some w /\ txBeginRelMsg b = Some s /\
              b' = set_txBeginRelMsg (Some ({[tablebackup.ID w]} ∪ s)) b.
Proof.
  unfold txBegin_add, mbind, M_bind, get, panic, modify.
  destruct (backupTables b !! bt) as [w |]; [| discriminate].
  destruct (txBeginRelMsg b) as [s |]; [| discriminate].
  intros [= _ <-]. eauto.
Qed.

Lemma view_wrote oid p w msg cmd b :
  backupTables b !! p = Some w ->
  view oid (wrote p w msg cmd b) =
  if bool_decide (p = oid) then
    mkTableView true (txBegin_has oid b) (relationMessages b !! oid)
      (stream oid b ++ [tablebackup.mkDelta (currentLSN b) msg])
  else view oid b.
Proof.
  intros Hp. unfold view, stream, wrote. cbn.
  destruct (bool_decide_reflect (p = oid)) as [<- | Hne].
  - rewrite lookup_insert_eq, Hp, WriteDelta_deltas. reflexivity.
  - rewrite lookup_insert_ne by exact Hne. reflexivity.
Qed.

Lemma bind_get {A} (k : LogicalBackup -> M A) b : (get ≫= k) b = k b b.
Proof. reflexivity. Qed.

Lemma bind_modify {A} f (k : unit -> M A) b : (modify f ≫= k) b = k tt (f b).
Proof. reflexivity. Qed.

Lemma bind_skip {A} (k : unit -> M A) b : (skip ≫= k) b = k tt b.
Proof. reflexivity. Qed.

Definition dml_view (oid tableOID : OID) (msg : bytes) (b : LogicalBackup) : TableView :=
  if bool_decide (tableOID = oid) && is_Some_bool (backupTables b !! oid) then
    mkTableView true true None
      (stream oid b
       ++ (if txBegin_has oid b then [] else [tablebackup.mkDelta (currentLSN b) (beginMsg b)])
       ++ pending_record (currentLSN b) (relationMessages b !! oid)
       ++ [tablebackup.mkDelta (currentLSN b) msg])
  else view oid b.

Lemma processDMLMessage_view oid tableOID cmd msg b b' :
  wf b ->
  processDMLMessage W tableOID cmd msg b = Done tt b' ->
  view oid b' = dml_view oid tableOID msg b /\
  beginMsg b' = beginMsg b /\ cfg b' = cfg b.
Proof.
  intros Hwf H. unfold processDMLMessage in H. rewrite bind_get in H.
  unfold BackupTables_Get, BackupTables_GetIfExists in H. unfold dml_view.
  destruct (backupTables b !! tableOID) as [w |] eqn:Hw.
  2:{ injection H as <-. split; [| auto].
      destruct (bool_decide_reflect (tableOID = oid)) as [<- | _]; [| reflexivity].
      rewrite Hw. reflexivity. }
  pose proof (wf_ids b Hwf tableOID w Hw) as Hid.
  apply bind_Done in H as ([] & b1 & H1 & H).
  (* the begin record *)
  assert (Hb1 : exists w1, backupTables b1 !! tableOID = Some w1 /\
      tablebackup.ID w1 = tableOID /\
      view oid b1 =
        (if bool_decide (tableOID = oid) then
           mkTableView true true (relationMessages b !! oid)
             (stream oid b ++ (if txBegin_has oid b then []
                               else [tablebackup.mkDelta (currentLSN b) (beginMsg b)]))
         else view oid b) /\
      (cfg b1, currentLSN b1, beginMsg b1, typeMsg b1, relationMessages b1)
      = (cfg b, currentLSN b, beginMsg b, typeMsg b, relationMessages b)).
  { destruct (txBegin_has tableOID b) eqn:Hbegun.
    - injection H1 as <-. exists w. split; [exact Hw |]. split; [exact Hid |].
      split; [| reflexivity].
      destruct (bool_decide_reflect (tableOID = oid)) as [<- | _]; [| reflexivity].
      unfold view, stream. rewrite Hw, Hbegun, app_nil_r. reflexivity.
    - apply bind_Done in H1 as ([] & b0 & H0 & H1).
      apply WriteCommand_Done in H0 as (w0 & Hw0 & Hb0). subst b0.
      apply txBegin_add_Done in H1 as (w1 & s & Hw1 & Hs & ->).
      rewrite Hw in Hw0. injection Hw0 as <-.
      cbn in Hw1. rewrite lookup_insert_eq in Hw1. injection Hw1 as <-.
      eexists. split; [cbn; apply lookup_insert_eq |].
      split; [rewrite WriteDelta_ID; exact Hid |].
      split; [| reflexivity].
      rewrite WriteDelta_ID, Hid. cbn in Hs.
      unfold view, stream, txBegin_has. cbn. rewrite Hs.
      destruct (bool_decide_reflect (tableOID = oid)) as [<- | Hne].
      + rewrite lookup_insert_eq, WriteDelta_deltas.
        unfold txBegin_has in Hbegun. rewrite Hs in Hbegun. rewrite Hbegun.
        rewrite Hw. f_equal. apply bool_decide_eq_true.
        apply elem_of_union. left. now apply elem_of_singleton.
      + rewrite lookup_insert_ne by exact Hne. f_equal.
        apply bool_decide_ext. rewrite elem_of_union, elem_of_singleton.
        split; [intros [Heq | Hin]; [congruence | exact Hin] | auto]. }
  destruct Hb1 as (w1 & Hw1 & Hid1 & Hv1 & Henv1).
  injection Henv1 as Hcfg1 Hlsn1 Hbm1 Htm1 Hrm1. clear H1.
  (* no type message is held back *)
  rewrite bind_get, Htm1, (wf_typeMsg b Hwf), bind_skip, bind_get, Hrm1 in H.
  (* the relation message held back *)
  apply bind_Done in H as ([] & b2 & H2 & H).
  assert (Hb2 : exists w2, backupTables b2 !! tableOID = Some w2 /\
      view oid b2 =
        (if bool_decide (tableOID = oid) then
           mkTableView true true None
             (tv_stream (view oid b1)
              ++ pending_record (currentLSN b) (relationMessages b !! oid))
         else view oid b1) /\
      (cfg b2, currentLSN b2, beginMsg b2) = (cfg b, currentLSN b, beginMsg b)).
  { destruct (relationMessages b !! tableOID) as [relationMsg |] eqn:Hrel.
    - apply bind_Done in H2 as ([] & b0 & H0 & H2).
      apply WriteCommand_Done in H0 as (w0 & Hw0 & Hb0). subst b0.
      injection H2 as <-.
      rewrite Hw1 in Hw0. injection Hw0 as <-.
      eexists. split; [cbn; apply lookup_insert_eq |].
      split; [| cbn; congruence].
      unfold view at 1, stream, txBegin_has. cbn.
      destruct (bool_decide_reflect (tableOID = oid)) as [<- | Hne].
      + rewrite lookup_insert_eq, lookup_delete_eq, WriteDelta_deltas, Hrel, Hlsn1.
        cbn. unfold view, stream. rewrite Hw1.
        assert (Hbegun : txBegin_has tableOID b1 = true).
        { change (tv_begun (view tableOID b1) = true). rewrite Hv1.
          rewrite ?bool_decide_eq_true_2 by reflexivity. reflexivity. }
        unfold txBegin_has in Hbegun. rewrite Hbegun. reflexivity.
      + rewrite lookup_insert_ne, lookup_delete_ne by exact Hne. reflexivity.
    - injection H2 as <-. exists w1. split; [exact Hw1 |].
      split; [| congruence].
      destruct (bool_decide_reflect (tableOID = oid)) as [<- | Hne]; [| reflexivity].
      rewrite Hrel. cbn [pending_record]. rewrite app_nil_r, Hv1. cbn. rewrite Hrel. reflexivity. }
  destruct Hb2 as (w2 & Hw2 & Hv2 & Henv2).
  injection Henv2 as Hcfg2 Hlsn2 Hbm2. clear H2.
  (* the DML itself *)
  apply WriteCommand_Done in H as (w3 & Hw3 & ->).
  split; [| cbn; auto].
  rewrite view_wrote by exact Hw3. rewrite Hlsn2.
  destruct (bool_decide_reflect (tableOID = oid)) as [<- | Hne].
  - rewrite Hw. cbn [andb is_Some_bool].
    assert (Hs2 : stream tableOID b2 = tv_stream (view tableOID b2)) by reflexivity.
    assert (Ht2 : txBegin_has tableOID b2 = tv_begun (view tableOID b2)) by reflexivity.
    assert (Hp2 : relationMessages b2 !! tableOID = tv_pending (view tableOID b2)) by reflexivity.
    rewrite Hs2, Ht2, Hp2, Hv2. cbn [tv_stream tv_begun tv_pending]. rewrite Hv1. cbn.
    rewrite <- !app_assoc. reflexivity.
  - cbn [andb]. rewrite Hv2, Hv1. reflexivity.
Qed.

(** Registering a name leaves the view of every table alone. *)
Lemma maybeRegisterNewName_view oid oid' name :
  frame True (view oid) (maybeRegisterNewName oid' name).
Proof.
  intros b. unfold maybeRegisterNewName. apply wp_bind, wp_get. cbv zeta.
  apply wp_bind.
  apply wp_mono with (Q := fun _ b' => b' = b) (E := fun _ => False) (X := True);
    [destruct (nameChangeHistory (tableNameChanges b) !! oid') as [h |];
       [destruct (last h); [apply wp_ret; reflexivity | exact I] | apply wp_ret; reflexivity]
    | | tauto | auto].
  intros lastEntry ? ->.
  destruct (negb _ || negb _); [| apply wp_skip; reflexivity].
  apply wp_bind, wp_modify, wp_bind, wp_get.
  unfold BackupTables_GetIfExists. cbn [backupTables set_tableNameChanges].
  destruct (backupTables b !! oid') as [w |] eqn:Hw; [| exact I].
  rewrite Hw. apply wp_modify.
  unfold kept, view, stream. cbn.
  destruct (decide (oid' = oid)) as [<- | Hne].
  - rewrite lookup_insert_eq, Hw. reflexivity.
  - rewrite lookup_insert_ne by exact Hne. reflexivity.
Qed.

Definition held_fields (b : LogicalBackup) :=
  (beginMsg b, cfg b, relationMessages b).

Lemma maybeRegisterNewName_held oid' name :
  frame True held_fields (maybeRegisterNewName oid' name).
Proof. frame_auto. Qed.

Lemma view_set_relationMessages oid m b :
  view oid (set_relationMessages m b) =
  mkTableView (tv_tracked (view oid b)) (tv_begun (view oid b)) (m !! oid)
              (tv_stream (view oid b)).
Proof. reflexivity. Qed.

Definition relation_view (oid : OID) (v : message.Relation) (b : LogicalBackup)
    : TableView :=
  if bool_decide (message.Relation_OID v = oid)
     && (is_Some_bool (backupTables b !! oid) || config.TrackNewTables (cfg b))
  then mkTableView true (txBegin_has oid b) (Some (message.Relation_Raw v)) (stream oid b)
  else view oid b.

Lemma processRelationMessage_view oid v b b' :
  processRelationMessage W v b = Done tt b' ->
  view oid b' = relation_view oid v b /\
  beginMsg b' = beginMsg b /\ cfg b' = cfg b.
Proof.
  intros H. unfold processRelationMessage in H. rewrite bind_get in H.
  unfold BackupTables_Get, BackupTables_GetIfExists in H.
  apply bind_Done in H as (track & b1 & H1 & H).
  assert (Hb1 : if track then
                  view oid b1 = mkTableView
                    (bool_decide (message.Relation_OID v = oid)
                     || is_Some_bool (backupTables b !! oid))
                    (txBegin_has oid b) (relationMessages b !! oid) (stream oid b) /\
                  (is_Some_bool (backupTables b !! message.Relation_OID v)
                   || config.TrackNewTables (cfg b)) = true /\
                  held_fields b1 = held_fields b
                else b1 = b /\
                     is_Some_bool (backupTables b !! message.Relation_OID v) = false /\
                     config.TrackNewTables (cfg b) = false).
  { destruct (backupTables b !! message.Relation_OID v) as [w |] eqn:Hw.
    - injection H1 as <- <-. split; [| split; reflexivity].
      unfold view. destruct (bool_decide_reflect (message.Relation_OID v = oid)) as [<- | _];
        [rewrite Hw |]; reflexivity.
    - unfold registerNewTable in H1. rewrite bind_get in H1.
      destruct (config.TrackNewTables (cfg b)); cbn [negb] in H1.
      + destruct (new_ok W _); [| discriminate].
        injection H1 as <- <-. split; [| split; reflexivity].
        unfold view, stream. cbn.
        destruct (bool_decide_reflect (message.Relation_OID v = oid)) as [<- | Hne].
        * rewrite lookup_insert_eq, Hw. reflexivity.
        * rewrite lookup_insert_ne by exact Hne. reflexivity.
      + injection H1 as <- <-. auto. }
  destruct track; cbn [negb] in H.
  - destruct Hb1 as (Hv1 & Htrack & Henv1).
    apply bind_Done in H as ([] & b2 & H2 & H). injection H as <-.
    pose proof (wp_Done _ _ _ _ _ _ _
                  (maybeRegisterNewName_view oid _ _ b1) H2) as Hv2.
    pose proof (wp_Done _ _ _ _ _ _ _
                  (maybeRegisterNewName_held _ _ b1) H2) as Henv2.
    cbn beta in Hv2, Henv2. unfold kept in Hv2, Henv2.
    rewrite Henv1 in Henv2. unfold held_fields in Henv2.
    injection Henv2 as Hbm2 Hcfg2 Hrm2.
    split; [| cbn; split; congruence].
    rewrite view_set_relationMessages, Hv2, Hv1, Hrm2.
    cbn [tv_tracked tv_begun tv_stream]. unfold relation_view.
    destruct (bool_decide_reflect (message.Relation_OID v = oid)) as [<- | Hne].
    + rewrite Htrack, lookup_insert_eq. reflexivity.
    + rewrite lookup_insert_ne by exact Hne. reflexivity.
  - destruct Hb1 as (-> & Hnone & Hno). injection H as <-.
    split; [| auto]. unfold relation_view. rewrite Hno, orb_false_r.
    destruct (bool_decide_reflect (message.Relation_OID v = oid)) as [<- | _];
      [rewrite Hnone |]; reflexivity.
Qed.

(** One message of a transaction's body moves the view of every table as
    [table_step] says. *)
Lemma handler_view oid m walStart b b' :
  wf b -> in_transaction m = true ->
  handler W m walStart b = Done tt b' ->
  view oid b' =
    table_step (config.TrackNewTables (cfg b)) (beginMsg b) oid (view oid b) (m, walStart) /\
  beginMsg b' = beginMsg b /\ cfg b' = cfg b.
Proof.
  intros Hwf Hm H. unfold handler in H. rewrite bind_modify in H.
  set (b0 := set_currentLSN walStart b) in *.
  assert (Hwf0 : wf b0) by (apply (wf_same_fields b); [reflexivity | exact Hwf]).
  assert (Hdml : forall v cmd,
    processDMLMessage W (message.RelationOID v) cmd (message.DML_Raw v) b0 = Done tt b' ->
    view oid b' =
      (if bool_decide (message.RelationOID v = oid) && tv_tracked (view oid b) then
         mkTableView true true None
           (tv_stream (view oid b)
            ++ (if tv_begun (view oid b) then []
                else [tablebackup.mkDelta walStart (beginMsg b)])
            ++ pending_record walStart (tv_pending (view oid b))
            ++ [tablebackup.mkDelta walStart (message.DML_Raw v)])
       else view oid b) /\
    beginMsg b' = beginMsg b /\ cfg b' = cfg b).
  { intros v cmd Hv. exact (processDMLMessage_view oid _ cmd _ b0 b' Hwf0 Hv). }
  destruct m as [v | v | v | v | v | v | | | raw]; try discriminate Hm;
    unfold table_step; cbn [fst snd].
  - exact (processRelationMessage_view oid v b0 b' H).
  - exact (Hdml v cInsert H).
  - exact (Hdml v cUpdate H).
  - exact (Hdml v cDelete H).
  - injection H as <-. auto.
  - injection H as <-. auto.
  - injection H as <-. auto.
Qed.

End TableSteps.

(** The relation and DML records that the messages of a transaction's body
    write to the stream of table [oid], in order: for every DML of the table
    received while it is tracked, the relation message held back for it, if
    any, and the DML. *)
Fixpoint table_records (trackNew : bool) (oid : OID) (tracked : bool)
    (pending : option bytes) (body : list (message.Message * LSN))
    : list tablebackup.Delta :=
  match body with
  | [] => []
  | (m, walStart) :: rest =>
      let dml (v : message.DML) :=
        if bool_decide (message.RelationOID v = oid) && tracked
        then pending_record walStart pending
             ++ tablebackup.mkDelta walStart (message.DML_Raw v)
                :: table_records trackNew oid true None rest
        else table_records trackNew oid tracked pending rest in
      match m with
      | message.MRelation v =>
          if bool_decide (message.Relation_OID v = oid) && (tracked || trackNew)
          then table_records trackNew oid true (Some (message.Relation_Raw v)) rest
          else table_records trackNew oid tracked pending rest
      | message.MInsert v => dml v
      | message.MUpdate v => dml v
      | message.MDelete v => dml v
      | _ => table_records trackNew oid tracked pending rest
      end
  end.

(** The begin record goes before the first of them, with its LSN. *)
Definition with_begin (beginRaw : bytes) (records : list tablebackup.Delta)
    : list tablebackup.Delta :=
  match records with
  | [] => []
  | d :: _ => tablebackup.mkDelta (tablebackup.d_lsn d) beginRaw :: records
  end.

(** What a whole transaction adds to the stream of table [oid]: nothing
    when the body writes nothing to it, and otherwise the begin record, the
    records of the body and the commit record. *)
Definition transaction_segment (trackNew : bool) (oid : OID) (tracked : bool)
    (pending : option bytes) (bg : message.Begin)
    (body : list (message.Message * LSN)) (cm : message.Commit)
    : list tablebackup.Delta :=
  match table_records trackNew oid tracked pending body with
  | [] => []
  | records =>
      with_begin (message.Begin_Raw bg) records
      ++ [tablebackup.mkDelta (message.Commit_LSN cm) (message.Commit_Raw cm)]
  end.

Definition nonempty {A} (l : list A) : bool :=
  match l with
  | [] => false
  | _ => true
  end.

Lemma with_begin_cons beginRaw walStart pending d records :
  tablebackup.d_lsn d = walStart ->
  with_begin beginRaw (pending_record walStart pending ++ d :: records)
  = tablebackup.mkDelta walStart beginRaw
    :: pending_record walStart pending ++ d :: records.
Proof. intros <-. destruct pending; reflexivity. Qed.

Lemma table_steps_records trackNew beginRaw oid body tv :
  let tv' := foldl (table_step trackNew beginRaw oid) tv body in
  let records := table_records trackNew oid (tv_tracked tv) (tv_pending tv) body in
  tv_stream tv' = tv_stream tv ++ (if tv_begun tv then records
                                   else with_begin beginRaw records) /\
  tv_begun tv' = tv_begun tv || nonempty records.
Proof.
  cbv zeta. revert tv. induction body as [| [m walStart] rest IH]; intros tv.
  - cbn. rewrite orb_false_r. destruct (tv_begun tv); now rewrite app_nil_r.
  - cbn [foldl table_records].
    assert (Hsame : forall tv1, tv1 = tv ->
      tv_stream (foldl (table_step trackNew beginRaw oid) tv1 rest)
      = tv_stream tv ++
        (if tv_begun tv
         then table_records trackNew oid (tv_tracked tv) (tv_pending tv) rest
         else with_begin beginRaw
                (table_records trackNew oid (tv_tracked tv) (tv_pending tv) rest)) /\
      tv_begun (foldl (table_step trackNew beginRaw oid) tv1 rest)
      = tv_begun tv
        || nonempty (table_records trackNew oid (tv_tracked tv) (tv_pending tv) rest)).
    { intros tv1 ->. apply IH. }
    assert (Hdml : forall v,
      let tv1 :=
        if bool_decide (message.RelationOID v = oid) && tv_tracked tv then
          mkTableView true true None
            (tv_stream tv
             ++ (if tv_begun tv then [] else [tablebackup.mkDelta walStart beginRaw])
             ++ pending_record walStart (tv_pending tv)
             ++ [tablebackup.mkDelta walStart (message.DML_Raw v)])
        else tv in
      let records :=
        if bool_decide (message.RelationOID v = oid) && tv_tracked tv
        then pending_record walStart (tv_pending tv)
             ++ tablebackup.mkDelta walStart (message.DML_Raw v)
                :: table_records trackNew oid true None rest
        else table_records trackNew oid (tv_tracked tv) (tv_pending tv) rest in
      tv_stream (foldl (table_step trackNew beginRaw oid) tv1 rest)
      = tv_stream tv ++ (if tv_begun tv then records else with_begin beginRaw records) /\
      tv_begun (foldl (table_step trackNew beginRaw oid) tv1 rest)
      = tv_begun tv || nonempty records).
    { intros v. cbv zeta.
      destruct (bool_decide (message.RelationOID v = oid) && tv_tracked tv);
        [| now apply Hsame].
      destruct (IH (mkTableView true true None
                      (tv_stream tv
                       ++ (if tv_begun tv then []
                           else [tablebackup.mkDelta walStart beginRaw])
                       ++ pending_record walStart (tv_pending tv)
                       ++ [tablebackup.mkDelta walStart (message.DML_Raw v)])))
        as [Hs Hb].
      cbn [tv_stream tv_begun tv_tracked tv_pending orb] in Hs, Hb.
      rewrite Hs, Hb. split.
      - rewrite with_begin_cons by reflexivity.
        destruct (tv_begun tv); rewrite <- ?app_assoc; cbn [app];
          rewrite <- ?app_assoc; reflexivity.
      - destruct (tv_begun tv); [reflexivity |].
        destruct (tv_pending tv); reflexivity. }
    destruct m as [v | v | v | v | v | v | | | raw];
      unfold table_step at 2 4; cbn [fst snd];
      try (now apply Hsame); try (now apply Hdml).
    destruct (bool_decide (message.Relation_OID v = oid) && (tv_tracked tv || trackNew));
      [| now apply Hsame].
    apply (IH (mkTableView true (tv_begun tv) (Some (message.Relation_Raw v))
                 (tv_stream tv))).
Qed.

Section Transactions.

Variable W : World.

Lemma run_cons m walStart msgs b :
  run W ((m, walStart) :: msgs) b = (handler W m walStart;; run W msgs) b.
Proof. reflexivity. Qed.

Lemma run_app msgs1 msgs2 b b' :
  run W (msgs1 ++ msgs2) b = Done tt b' ->
  exists b1, run W msgs1 b = Done tt b1 /\ run W msgs2 b1 = Done tt b'.
Proof.
  revert b. induction msgs1 as [| [m walStart] msgs1 IH]; intros b H.
  - exists b. split; [reflexivity | exact H].
  - cbn [app] in H. rewrite run_cons in H. apply bind_Done in H as ([] & b0 & H0 & H).
    destruct (IH b0 H) as (b1 & H1 & H2). exists b1. split; [| exact H2].
    rewrite run_cons. unfold mbind, M_bind. rewrite H0. exact H1.
Qed.

(** The body of a transaction moves the view of every table as the steps of
    its messages say. *)
Lemma run_body_view oid body b b' :
  wf b ->
  Forall (fun mw => in_transaction mw.1 = true) body ->
  run W body b = Done tt b' ->
  view oid b' =
    foldl (table_step (config.TrackNewTables (cfg b)) (beginMsg b) oid) (view oid b) body /\
  wf b'.
Proof.
  revert b. induction body as [| [m walStart] body IH]; intros b Hwf Hbody H.
  - injection H as <-. auto.
  - rewrite run_cons in H. apply bind_Done in H as ([] & b1 & H1 & H).
    apply Forall_cons in Hbody as [Hm Hbody]. cbn [fst] in Hm.
    destruct (handler_view W oid m walStart b b1 Hwf Hm H1) as (Hv1 & Hbm1 & Hcfg1).
    assert (Hwf1 : wf b1).
    { exact (wp_Done _ _ _ _ _ _ _ (handler_keeps_wf W m walStart b) H1 Hwf). }
    destruct (IH b1 Hwf1 Hbody H) as [Hv Hwf'].
    split; [| exact Hwf']. cbn [foldl]. rewrite Hv, Hv1, Hbm1, Hcfg1. reflexivity.
Qed.

Lemma commit_loop_view oid raw l b b' :
  NoDup l ->
  forM_ l (fun relOID =>
    b ← get;
    WriteCommandDataForTable W (BackupTables_GetIfExists relOID b) raw cCommit) b
  = Done tt b' ->
  view oid b' =
    (if bool_decide (oid ∈ l) then
       mkTableView true (txBegin_has oid b) (relationMessages b !! oid)
         (stream oid b ++ [tablebackup.mkDelta (currentLSN b) raw])
     else view oid b) /\
  currentLSN b' = currentLSN b.
Proof.
  revert b. induction l as [| k l IH]; intros b Hnodup H.
  - injection H as <-. split; reflexivity.
  - apply NoDup_cons in Hnodup as [Hk Hnodup].
    cbn [forM_] in H. apply bind_Done in H as ([] & b1 & H1 & H).
    rewrite bind_get in H1. unfold BackupTables_GetIfExists in H1.
    destruct (backupTables b !! k) as [w |] eqn:Hw; [| discriminate H1].
    apply WriteCommand_Done in H1 as (w' & Hw' & Hb1).
    rewrite Hw in Hw'. injection Hw' as <-.
    destruct (IH b1 Hnodup H) as [Hv Hlsn].
    assert (Hv1 := view_wrote oid k w raw cCommit b Hw). rewrite <- Hb1 in Hv1.
    assert (Hlsn1 : currentLSN b1 = currentLSN b) by (subst b1; reflexivity).
    split; [| congruence].
    assert (Hs1 : stream oid b1 = tv_stream (view oid b1)) by reflexivity.
    assert (Ht1 : txBegin_has oid b1 = tv_begun (view oid b1)) by reflexivity.
    assert (Hp1 : relationMessages b1 !! oid = tv_pending (view oid b1)) by reflexivity.
    rewrite Hv, Hs1, Ht1, Hp1, Hv1, Hlsn1.
    destruct (bool_decide_reflect (k = oid)) as [-> | Hne].
    + rewrite (bool_decide_eq_false_2 (oid ∈ l)) by exact Hk.
      rewrite (bool_decide_eq_true_2 (oid ∈ oid :: l)) by left.
      reflexivity.
    + assert (Hin : bool_decide (oid ∈ k :: l) = bool_decide (oid ∈ l)).
      { apply bool_decide_ext. rewrite elem_of_cons.
        split; [intros [-> | Hin]; [contradiction | exact Hin] | auto]. }
      rewrite Hin. reflexivity.
Qed.

Definition view_deps (b : LogicalBackup) :=
  (backupTables b, txBeginRelMsg b, relationMessages b).

Lemma view_deps_eq oid b b' : view_deps b' = view_deps b -> view oid b' = view oid b.
Proof.
  unfold view_deps. intros Hd. injection Hd as Ht Hb Hr.
  unfold view, stream, txBegin_has. now rewrite Ht, Hb, Hr.
Qed.

Lemma frame_deps_flushOidNameMap : frame False view_deps (flushOidNameMap W).
Proof. frame_auto. Qed.

Lemma frame_deps_advanceFlushLSN : frame False view_deps (advanceFlushLSN W).
Proof. frame_auto. Qed.

Lemma txBegin_has_participating oid b :
  bool_decide (oid ∈ participating b) = txBegin_has oid b.
Proof.
  unfold participating, txBegin_has. destruct (txBeginRelMsg b) as [s |].
  - apply bool_decide_ext, elem_of_elements.
  - apply bool_decide_eq_false_2, not_elem_of_nil.
Qed.

(** The commit record goes to the tables that participate, and to no
    other. *)
Lemma commit_view oid v walStart b b' :
  handler W (message.MCommit v) walStart b = Done tt b' ->
  view oid b' =
    (if txBegin_has oid b then
       mkTableView true true (relationMessages b !! oid)
         (stream oid b
          ++ [tablebackup.mkDelta (message.Commit_LSN v) (message.Commit_Raw v)])
     else view oid b) /\
  txBeginRelMsg b' = txBeginRelMsg b.
Proof.
  intros H. rewrite handler_commit_parts in H.
  set (b0 := set_currentLSN _ _) in *.
  apply bind_Done in H as ([] & b1 & H1 & H).
  apply bind_Done in H as (fl & b2 & H2 & H).
  apply bind_Done in H as (sent & b3 & H3 & H).
  apply bind_Done in H as ([] & b4 & H4 & H).
  apply updateMetricsOnCommit_Done in H4. subst b4.
  destruct sent; [| discriminate]. injection H as <-.
  pose proof (wp_Done _ _ _ _ _ _ _ (commitRecords_frame W v b0) H1) as F1.
  cbn beta in F1. unfold kept, beside_tables in F1.
  injection F1 as _ _ _ _ Fbegin _ _.
  unfold commitRecords in H1. rewrite bind_get in H1.
  assert (Hnodup : NoDup (participating b0)).
  { unfold participating. destruct (txBeginRelMsg b0); [apply NoDup_elements | constructor]. }
  destruct (commit_loop_view oid _ _ b0 b1 Hnodup H1) as [Hv1 _].
  rewrite txBegin_has_participating in Hv1.
  pose proof (wp_Done _ _ _ _ _ _ _
                (frame_attempt _ _ _ frame_deps_flushOidNameMap b1) H2) as F2.
  pose proof (wp_Done _ _ _ _ _ _ _ (frame_deps_advanceFlushLSN b2) H3) as F3.
  cbn beta in F2, F3. unfold kept in F2, F3.
  assert (Hdeps : view_deps b3 = view_deps b1) by congruence.
  split.
  - rewrite (view_deps_eq oid b1 b3 Hdeps), Hv1.
    change (txBegin_has oid b0) with (txBegin_has oid b).
    destruct (txBegin_has oid b); reflexivity.
  - unfold view_deps in Hdeps. injection Hdeps as _ Hb _. cbn in Fbegin. congruence.
Qed.

End Transactions.

Section TransactionSegment.

Variable W : World.

(** C1 (amended).  In every state the engine reaches, a transaction (a
    Begin message, a body without Begin or Commit, and the Commit message)
    that is handled without error adds to the stream of every table that
    participates in it (that received a DML while tracked), in this order:
    the begin record, written with the LSN of the first record that follows
    it; for every DML of the table received while it is tracked, the
    relation message held back for the table, if any, and the DML itself;
    and finally the commit record, with the commit's LSN.  A table
    participates exactly when the body wrote a record to it, and the stream
    of a table that does not participate is left as it was.  Type messages
    are accepted and ignored: no type record is written. *)
Theorem transaction_segment_written (c : config.Config) (S : Startup)
    (prefix : list (message.Message * LSN)) (b0 b : LogicalBackup)
    (bg : message.Begin) (walBegin : LSN) (body : list (message.Message * LSN))
    (cm : message.Commit) (walCommit : LSN) (b' : LogicalBackup) :
  New W c S = Done tt b0 ->
  run W prefix b0 = Done tt b ->
  Forall (fun mw => in_transaction mw.1 = true) body ->
  run W ((message.MBegin bg, walBegin) :: body ++ [(message.MCommit cm, walCommit)]) b
    = Done tt b' ->
  forall oid,
    (oid ∈ participating b' <->
     table_records (config.TrackNewTables (cfg b)) oid
       (is_Some_bool (backupTables b !! oid)) (relationMessages b !! oid) body <> []) /\
    stream oid b' =
      stream oid b ++
      transaction_segment (config.TrackNewTables (cfg b)) oid
        (is_Some_bool (backupTables b !! oid)) (relationMessages b !! oid) bg body cm.
Proof.
  intros Hnew Hprefix Hbody Hrun oid.
  assert (Hwf : wf b) by (eapply run_wf; [eapply New_wf |]; eassumption).
  rewrite run_cons in Hrun. apply bind_Done in Hrun as ([] & b1 & Hbegin & Hrun).
  rewrite handler_begin in Hbegin. injection Hbegin as Hb1.
  assert (Hwf1 : wf b1).
  { subst b1. apply wf_begin. apply (wf_same_fields b); [reflexivity | exact Hwf]. }
  apply run_app in Hrun as (b2 & Hrun & Hcommit).
  destruct (run_body_view W oid body b1 b2 Hwf1 Hbody Hrun) as [Hv2 Hwf2].
  rewrite run_cons in Hcommit. apply bind_Done in Hcommit as ([] & b3 & Hcommit & Hend).
  injection Hend as <-.
  destruct (commit_view W oid cm walCommit b2 b3 Hcommit) as [Hv3 Hpart].
  assert (Hv1 : view oid b1 =
                mkTableView (is_Some_bool (backupTables b !! oid)) false
                            (relationMessages b !! oid) (stream oid b)).
  { subst b1. unfold view, txBegin_has. cbn.
    rewrite bool_decide_eq_false_2 by apply not_elem_of_empty. reflexivity. }
  assert (Hcfg1 : cfg b1 = cfg b) by (subst b1; reflexivity).
  assert (Hbm1 : beginMsg b1 = message.Begin_Raw bg) by (subst b1; reflexivity).
  rewrite Hcfg1, Hbm1, Hv1 in Hv2.
  destruct (table_steps_records (config.TrackNewTables (cfg b)) (message.Begin_Raw bg)
              oid body
              (mkTableView (is_Some_bool (backupTables b !! oid)) false
                           (relationMessages b !! oid) (stream oid b)))
    as [Hstream Hbegun].
  cbv zeta in Hstream, Hbegun. cbn [tv_stream tv_begun tv_tracked tv_pending orb] in Hstream, Hbegun.
  rewrite <- Hv2 in Hstream, Hbegun.
  change (tv_stream (view oid b2)) with (stream oid b2) in Hstream.
  change (tv_begun (view oid b2)) with (txBegin_has oid b2) in Hbegun.
  set (records := table_records _ _ _ _ _) in *.
  split.
  - etrans; [symmetry; apply bool_decide_eq_true |].
    rewrite txBegin_has_participating.
    unfold txBegin_has. rewrite Hpart. fold (txBegin_has oid b2). rewrite Hbegun.
    destruct records; cbn; split; congruence.
  - change (stream oid b3) with (tv_stream (view oid b3)). rewrite Hv3, Hbegun.
    unfold transaction_segment. fold records.
    destruct records as [| d records]; cbn [nonempty tv_stream].
    + change (stream oid b2 = stream oid b ++ []). rewrite Hstream. reflexivity.
    + rewrite Hstream, <- app_assoc. reflexivity.
Qed.

End TransactionSegment.

(** A transaction with a type message between the relation message and the
    insert. *)
Definition example_tx_type : list (message.Message * LSN) :=
  [(message.MBegin (message.mkBegin 7 256 [Byte.x42]), 200);
   (message.MRelation
      (message.mkRelation 16384%N (message.mkNamespacedName "public" "t") [Byte.x52]), 201);
   (message.MType [Byte.x59], 201);
   (message.MInsert (message.mkDML 16384%N [Byte.x49]), 202);
   (message.MCommit (message.mkCommit 256 0 [Byte.x43]), 300)].

(** C1 (as stated, refuted).  Table 16384 participates in the transaction
    and a type message was received in it, yet the table's stream holds
    the begin, relation, insert and commit records only: the type message is
    in none of them. *)
Lemma type_message_not_written :
  match run world_ok example_tx_type started with
  | Done _ b' =>
      participating b' = [16384%N] /\
      stream 16384%N b' =
        [tablebackup.mkDelta 202 [Byte.x42]; tablebackup.mkDelta 202 [Byte.x52];
         tablebackup.mkDelta 202 [Byte.x49]; tablebackup.mkDelta 256 [Byte.x43]] /\
      ~ In [Byte.x59] (map tablebackup.d_raw (stream 16384%N b'))
  | _ => False
  end.
Proof.
  vm_compute. split; [reflexivity |]. split; [reflexivity |].
  intros [H | [H | [H | [H | []]]]]; discriminate H.
Qed.

(** The engine after [example_tx1], handled right after the start. *)
Definition started_after_tx1 : LogicalBackup :=
  result_state (run world_ok example_tx1 started) started.

Lemma transaction_segment_written_witness :
  New world_ok cfg_example (startup_fresh 1280) = Done tt started /\
  run world_ok example_tx1 started = Done tt started_after_tx1 /\
  stream 16384%N started_after_tx1 =
    [tablebackup.mkDelta 202 [Byte.x42]; tablebackup.mkDelta 202 [Byte.x52];
     tablebackup.mkDelta 202 [Byte.x49]; tablebackup.mkDelta 256 [Byte.x43]].
Proof.
  split; [vm_compute; reflexivity |].
  split; [vm_compute; reflexivity |].
  rewrite (proj2 (transaction_segment_written world_ok cfg_example (startup_fresh 1280)
                    [] started started
                    (message.mkBegin 7 256 [Byte.x42]) 200
                    (firstn 2 (skipn 1 example_tx1))
                    (message.mkCommit 256 0 [Byte.x43]) 300 started_after_tx1
                    ltac:(vm_compute; reflexivity) ltac:(vm_compute; reflexivity)
                    ltac:(repeat constructor) ltac:(vm_compute; reflexivity)
                    16384%N)).
  vm_compute. reflexivity.
Defined.

(* ------------------------------------------------------------------ *)
(** * Further properties of the engine *)

(** A normal return is all a postcondition has to cover when errors and
    panics are of no interest. *)
Lemma wp_of_Done {A} (c : M A) b (Q : A -> LogicalBackup -> Prop) :
  (forall a b', c b = Done a b' -> Q a b') -> wp c b Q (fun _ => True) True.
Proof. unfold wp. destruct (c b); auto. Qed.

(** What [handler] and [sendStatus] keep, every turn of the receive loop
    keeps, and so does the loop. *)
Section LoopSteps.

Variable W : World.
Context (R : relation LogicalBackup) `{!PreOrder R}.
Hypothesis handler_steps : forall m walStart, steps True R (handler W m walStart).
Hypothesis sendStatus_steps : steps True R (sendStatus W).

Lemma logicalDecodingTurn_steps t : steps True R (logicalDecodingTurn W t).
Proof.
  unfold logicalDecodingTurn.
  repeat first [apply handler_steps | apply sendStatus_steps | steps_step | steps_unfold].
Qed.

Lemma logicalDecodingLoop_steps turns : steps True R (logicalDecodingLoop W turns).
Proof.
  induction turns as [| t turns IH]; cbn [logicalDecodingLoop].
  - apply steps_ret. typeclasses eauto.
  - apply steps_bind; [typeclasses eauto | apply logicalDecodingTurn_steps |].
    intros [| stop]; [exact IH | apply steps_ret; typeclasses eauto].
Qed.

End LoopSteps.

(** ** Fixtures *)

(** A database whose slot exists with flush LSN 0x500, whose state file
    holds 0x600, and whose publication has the table [public.t], with a
    primary key. *)
Definition startup_existing : Startup :=
  mkStartup true true (Some 1280) None (Some 1536)
            (Some [mkTableInfo 16384%N (message.mkNamespacedName "public" "t") true
                     ReplicaIdentityDefault])
            (fun _ => true).

(** The engine after a successful start on that database: table 16384 has
    a writer and no transaction has begun. *)
Definition started_with_table : LogicalBackup :=
  result_state (New world_ok cfg_example startup_existing) (initial cfg_example).

(** The engine inside a transaction that has inserted into table 16384. *)
Definition inside_tx1 : LogicalBackup :=
  result_state (run world_ok (take 3 example_tx1) started) started.

(** A transaction that inserts into the new tables 16384 and 16385, up to
    its commit, and the engine inside it. *)
Definition example_tx_two : list (message.Message * LSN) :=
  [(message.MBegin (message.mkBegin 7 256 [Byte.x42]), 200);
   (message.MRelation
      (message.mkRelation 16384%N (message.mkNamespacedName "public" "t") [Byte.x52]), 201);
   (message.MInsert (message.mkDML 16384%N [Byte.x49]), 202);
   (message.MRelation
      (message.mkRelation 16385%N (message.mkNamespacedName "public" "u") [Byte.x52]), 203);
   (message.MInsert (message.mkDML 16385%N [Byte.x49]), 204)].

Definition inside_tx_two : LogicalBackup :=
  result_state (run world_ok example_tx_two started) started.

(** A configuration that does not track new tables. *)
Definition cfg_no_new_tables : config.Config :=
  config.mkConfig "staging" "archive" false 100 0.

(* ------------------------------------------------------------------ *)
(** ** Messages for tables without a writer, and outside a transaction *)

(** The change carried by an Insert, Update or Delete message and the
    command it is written as. *)
Definition dml_of (m : message.Message) : option (message.DML * cmdType) :=
  match m with
  | message.MInsert v => Some (v, cInsert)
  | message.MUpdate v => Some (v, cUpdate)
  | message.MDelete v => Some (v, cDelete)
  | _ => None
  end.

Section EdgeCases.

Variable W : World.

Lemma handler_dml m v cmd walStart b :
  dml_of m = Some (v, cmd) ->
  handler W m walStart b =
  processDMLMessage W (message.RelationOID v) cmd (message.DML_Raw v)
    (set_currentLSN walStart b).
Proof. destruct m; intros [= <- <-]; reflexivity. Qed.

(** X1.  An Insert, Update or Delete for a table that has no writer in
    the registry is dropped: [handler] returns nil and the only thing it
    changes is [currentLSN]; nothing is written and the table does not join
    the transaction. *)
Theorem untracked_dml_dropped (m : message.Message) (v : message.DML) (cmd : cmdType)
    (walStart : LSN) (b : LogicalBackup) :
  dml_of m = Some (v, cmd) ->
  backupTables b !! message.RelationOID v = None ->
  handler W m walStart b = Done tt (set_currentLSN walStart b).
Proof.
  intros Hm Hnone. rewrite (handler_dml m v cmd walStart b Hm).
  unfold processDMLMessage, mbind, M_bind, get, BackupTables_Get, BackupTables_GetIfExists.
  cbn [backupTables set_currentLSN]. rewrite Hnone. reflexivity.
Qed.

(** X2.  An Insert, Update or Delete for a table that has a writer,
    arriving before any Begin message (the map [txBeginRelMsg] is still
    nil), never returns nil: the begin record, with the empty [beginMsg], is
    written first, and when that write succeeds the assignment to the nil
    map panics; when it fails, its error is returned. *)
Theorem dml_outside_transaction (m : message.Message) (v : message.DML) (cmd : cmdType)
    (walStart : LSN) (b : LogicalBackup) (w : tablebackup.TableBackup) :
  dml_of m = Some (v, cmd) ->
  backupTables b !! message.RelationOID v = Some w ->
  txBeginRelMsg b = None ->
  handler W m walStart b =
    if write_ok W (tablebackup.ID w) (beginMsg b) walStart then Panicked
    else Failed (set_currentLSN walStart b).
Proof.
  intros Hm Hw Hnil. rewrite (handler_dml m v cmd walStart b Hm).
  unfold processDMLMessage, mbind at 1, M_bind at 1, get at 1.
  unfold BackupTables_Get, BackupTables_GetIfExists, txBegin_has.
  cbn [backupTables set_currentLSN txBeginRelMsg]. rewrite Hw, Hnil.
  unfold WriteCommandDataForTable, txBegin_add, mbind, M_bind, get, fail, panic, modify.
  cbn [backupTables set_currentLSN txBeginRelMsg currentLSN beginMsg]. rewrite Hw.
  destruct (write_ok W _ _ _); [| reflexivity].
  destruct (tablebackup.WriteDelta _ _ _ _ _) as [ln w']. cbn.
  rewrite lookup_insert_eq. rewrite Hnil. reflexivity.
Qed.

(** X3.  A Relation message for a table that has no writer, when new
    tables are not tracked, is ignored: [handler] returns nil and changes
    only [currentLSN]; no writer is created, no name is registered and the
    message is not held back. *)
Theorem relation_not_tracked (v : message.Relation) (walStart : LSN) (b : LogicalBackup) :
  backupTables b !! message.Relation_OID v = None ->
  config.TrackNewTables (cfg b) = false ->
  handler W (message.MRelation v) walStart b = Done tt (set_currentLSN walStart b).
Proof.
  intros Hnone Hno.
  unfold handler, processRelationMessage, registerNewTable, mbind, M_bind, modify, get,
    BackupTables_Get, BackupTables_GetIfExists.
  cbn [backupTables set_currentLSN cfg]. rewrite Hnone. cbn [cfg set_currentLSN].
  rewrite Hno. reflexivity.
Qed.

(** X4.  A Relation message for a table never seen before, when new
    tables are tracked: if the writer can be created, [handler] returns nil
    with the new writer registered under the table's OID, the table's name
    history started with the one entry (name, commit LSN of the current
    transaction), the history marked dirty and the message held back for
    the table; if the writer cannot be created, [handler] returns the error
    and has changed only [currentLSN].  It never panics. *)
Theorem relation_new_table (v : message.Relation) (walStart : LSN) (b : LogicalBackup) :
  let oid := message.Relation_OID v in
  let name := message.Relation_NamespacedName v in
  backupTables b !! oid = None ->
  nameChangeHistory (tableNameChanges b) !! oid = None ->
  config.TrackNewTables (cfg b) = true ->
  match handler W (message.MRelation v) walStart b with
  | Done _ b' =>
      new_ok W oid = true /\
      backupTables b' = <[oid := tablebackup.New name oid]> (backupTables b) /\
      nameChangeHistory (tableNameChanges b') =
        <[oid := [mkNameAtLSN name (transactionCommitLSN b)]]>
          (nameChangeHistory (tableNameChanges b)) /\
      isChanged (tableNameChanges b') = true /\
      relationMessages b' = <[oid := message.Relation_Raw v]> (relationMessages b)
  | Failed b' => new_ok W oid = false /\ b' = set_currentLSN walStart b
  | Panicked => False
  end.
Proof.
  intros oid name Hnone Hhist Htrack. subst oid name.
  unfold handler, processRelationMessage, registerNewTable, maybeRegisterNewName,
    BackupTables_Set, mbind, M_bind, modify, get, fail, mret, M_ret,
    BackupTables_Get, BackupTables_GetIfExists.
  cbn [backupTables set_currentLSN cfg]. rewrite Hnone. cbn [cfg set_currentLSN].
  rewrite Htrack. cbn [negb].
  destruct (new_ok W _) eqn:Hok; [| split; reflexivity].
  cbn. rewrite Hhist. cbn. rewrite !lookup_insert_eq. cbn.
  rewrite insert_insert_eq.
  repeat split; reflexivity.
Qed.

(** A loop of commit records over tables of which one is missing never
    comes to its end. *)
Lemma commit_loop_missing raw oid lsn l b :
  oid ∈ l ->
  backupTables b !! oid = None ->
  currentLSN b = lsn ->
  wp (forM_ l (fun relOID =>
        b ← get;
        WriteCommandDataForTable W (BackupTables_GetIfExists relOID b) raw cCommit))
     b (fun _ _ => False)
     (fun _ => exists k, write_ok W k raw lsn = false)
     True.
Proof.
  revert b. induction l as [|k l IH]; intros b Hin Hnone Hlsn.
  - now apply elem_of_nil in Hin.
  - cbn [forM_]. apply wp_bind, wp_bind, wp_get, wp_WriteCommand.
    unfold BackupTables_GetIfExists.
    destruct (backupTables b !! k) as [w |] eqn:Hk; [| exact I].
    rewrite Hk, Hlsn. destruct (write_ok W _ _ _) eqn:Hok; [| eauto].
    apply elem_of_cons in Hin as [-> | Hin]; [congruence |].
    apply IH; [exact Hin | | exact Hlsn].
    unfold wrote. cbn. rewrite lookup_insert_ne; [exact Hnone |]. intros ->. congruence.
Qed.

(** X5.  [BackupTables.Delete] (which [BackgroundBasebackuper] calls when
    a table is gone from the database) followed by the Commit of a
    transaction in which the deleted table participates: [handler] never
    returns nil.  The lookup of the table yields nil and the write through
    it panics, unless the write of an earlier table's commit record failed
    and its error was returned. *)
Theorem commit_after_delete (v : message.Commit) (walStart : LSN) (oid : OID)
    (b : LogicalBackup) :
  oid ∈ participating b ->
  match (BackupTables_Delete oid;; handler W (message.MCommit v) walStart) b with
  | Done _ _ => False
  | Failed _ => exists k, write_ok W k (message.Commit_Raw v) (message.Commit_LSN v) = false
  | Panicked => True
  end.
Proof.
  intros Hin.
  change ((BackupTables_Delete oid;; handler W (message.MCommit v) walStart) b)
    with (handler W (message.MCommit v) walStart
            (set_backupTables (delete oid (backupTables b)) b)).
  set (b1 := set_backupTables _ b).
  rewrite handler_commit_parts.
  set (b2 := set_currentLSN _ _).
  pose proof (commit_loop_missing (message.Commit_Raw v) oid (message.Commit_LSN v)
                (participating b2) b2) as Hloop.
  unfold wp in Hloop.
  unfold mbind at 1, M_bind at 1, commitRecords, mbind at 1, M_bind at 1, get at 1.
  destruct (forM_ _ _ b2) as [[] b3 | b3 |].
  - exfalso. apply Hloop; [exact Hin | apply lookup_delete_eq | reflexivity].
  - apply Hloop; [exact Hin | apply lookup_delete_eq | reflexivity].
  - exact I.
Qed.

End EdgeCases.

Lemma untracked_dml_dropped_witness :
  handler world_ok (message.MInsert (message.mkDML 16384%N [Byte.x49])) 202 started
  = Done tt (set_currentLSN 202 started).
Proof.
  apply (untracked_dml_dropped world_ok
           (message.MInsert (message.mkDML 16384%N [Byte.x49]))
           (message.mkDML 16384%N [Byte.x49]) cInsert);
    [reflexivity | vm_compute; reflexivity].
Defined.

Lemma dml_outside_transaction_witness :
  backupTables started_with_table !! 16384%N
    = Some (tablebackup.New (message.mkNamespacedName "public" "t") 16384%N) /\
  txBeginRelMsg started_with_table = None /\
  handler world_ok (message.MInsert (message.mkDML 16384%N [Byte.x49])) 202
    started_with_table = Panicked.
Proof.
  assert (H1 : backupTables started_with_table !! 16384%N
               = Some (tablebackup.New (message.mkNamespacedName "public" "t") 16384%N))
    by (vm_compute; reflexivity).
  assert (H2 : txBeginRelMsg started_with_table = None) by (vm_compute; reflexivity).
  split; [exact H1 |]. split; [exact H2 |].
  exact (dml_outside_transaction world_ok
           (message.MInsert (message.mkDML 16384%N [Byte.x49]))
           (message.mkDML 16384%N [Byte.x49]) cInsert 202
           started_with_table _ eq_refl H1 H2).
Defined.

Lemma relation_not_tracked_witness :
  handler world_ok
    (message.MRelation
       (message.mkRelation 16384%N (message.mkNamespacedName "public" "t") [Byte.x52]))
    201 (initial cfg_no_new_tables)
  = Done tt (set_currentLSN 201 (initial cfg_no_new_tables)).
Proof.
  apply (relation_not_tracked world_ok); [vm_compute; reflexivity | reflexivity].
Defined.

Lemma relation_new_table_witness :
  match handler world_ok
          (message.MRelation
             (message.mkRelation 16384%N (message.mkNamespacedName "public" "t") [Byte.x52]))
          201 in_tx0 with
  | Done _ b' =>
      backupTables b' !! 16384%N
        = Some (tablebackup.New (message.mkNamespacedName "public" "t") 16384%N) /\
      nameChangeHistory (tableNameChanges b') !! 16384%N
        = Some [mkNameAtLSN (message.mkNamespacedName "public" "t") 256]
  | _ => False
  end.
Proof.
  pose proof (relation_new_table world_ok
                (message.mkRelation 16384%N (message.mkNamespacedName "public" "t") [Byte.x52])
                201 in_tx0 ltac:(vm_compute; reflexivity) ltac:(vm_compute; reflexivity)
                eq_refl) as H.
  destruct (handler world_ok _ 201 in_tx0) as [[] b' | b' |].
  - destruct H as (_ & Htab & Hnames & _). rewrite Htab, Hnames, !lookup_insert_eq.
    split; reflexivity.
  - destruct H as [H _]. discriminate H.
  - exact H.
Defined.

Lemma commit_after_delete_witness :
  participating inside_tx1 = [16384%N] /\
  match (BackupTables_Delete 16384%N;;
         handler world_ok (message.MCommit (message.mkCommit 256 0 [Byte.x43])) 300)
          inside_tx1 with
  | Done _ _ => False
  | Failed _ =>
      exists k, write_ok world_ok k [Byte.x43] 256 = false
  | Panicked => True
  end.
Proof.
  assert (H : participating inside_tx1 = [16384%N]) by (vm_compute; reflexivity).
  split; [exact H |].
  apply (commit_after_delete world_ok (message.mkCommit 256 0 [Byte.x43]) 300 16384%N).
  rewrite H. left.
Defined.

(* ------------------------------------------------------------------ *)
(** ** Orders the language leaves open

    Go ranges over a map in an unspecified order.  The model fixes one;
    what the engine computes does not depend on it. *)

Lemma nextFlushLSN_step_comm t1 t2 r :
  nextFlushLSN_step t1 (nextFlushLSN_step t2 r)
  = nextFlushLSN_step t2 (nextFlushLSN_step t1 r).
Proof.
  unfold nextFlushLSN_step, tablebackup.GetFlushLSN, LSN in *.
  destruct (tablebackup.flushRequired t1), (tablebackup.flushRequired t2);
    cbn [andb]; try reflexivity.
  destruct (Z.ltb_spec (tablebackup.flushedLSN t2) r),
           (Z.ltb_spec (tablebackup.flushedLSN t1) r);
    repeat match goal with |- context [?a <? ?b] => destruct (Z.ltb_spec a b) end; lia.
Qed.

(** The writers of the registry in an order in which [BackupTables.Map]
    may visit them. *)
Definition visits (tables : list tablebackup.TableBackup) (b : LogicalBackup) : Prop :=
  tables ≡ₚ (map_to_list (backupTables b)).*2.

Lemma foldl_foldr_rev {A B} (f : A -> B -> A) a l :
  foldl f a l = foldr (fun x r => f r x) a (rev l).
Proof.
  revert a. induction l as [|x l IH]; intros a; [reflexivity |].
  cbn [foldl rev]. rewrite foldr_app. cbn. apply IH.
Qed.

(** X6.  The candidate flush LSN does not depend on the order in which
    [BackupTables.Map] visits the writers: running the callback of
    [getNextFlushLSN] over the writers in any order, starting from the
    current transaction's commit LSN, gives the value of
    [getNextFlushLSN]. *)
Theorem getNextFlushLSN_any_order (b : LogicalBackup)
    (tables : list tablebackup.TableBackup) :
  visits tables b ->
  foldl (fun result table => nextFlushLSN_step table result) (transactionCommitLSN b) tables
  = getNextFlushLSN b.
Proof.
  unfold visits, getNextFlushLSN. intros Hperm.
  rewrite map_fold_foldr, foldl_foldr_rev.
  assert (Hsnd : forall (l : list (OID * tablebackup.TableBackup)) r,
            foldr (uncurry (fun _ table result => nextFlushLSN_step table result)) r l
            = foldr nextFlushLSN_step r l.*2).
  { induction l as [|[k t] l IH]; intros r; cbn; [| rewrite IH]; reflexivity. }
  rewrite Hsnd.
  apply (foldr_permutation eq).
  - intros t r1 r2 ->. reflexivity.
  - intros. apply nextFlushLSN_step_comm.
  - rewrite <- Hperm. symmetry. apply Permutation_rev.
Qed.

Lemma getNextFlushLSN_any_order_witness :
  foldl (fun result table => nextFlushLSN_step table result)
        (transactionCommitLSN inside_tx_two)
        (rev (map_to_list (backupTables inside_tx_two)).*2)
  = getNextFlushLSN inside_tx_two.
Proof.
  apply getNextFlushLSN_any_order. unfold visits. symmetry. apply Permutation_rev.
Defined.

Section CommitOrder.

Variable W : World.

(** The body of the commit case's loop, and the loop over the tables in
    the order [l]. *)
Definition commitRecord (raw : bytes) (relOID : OID) : M unit :=
  b ← get;
  WriteCommandDataForTable W (BackupTables_GetIfExists relOID b) raw cCommit.

Definition commitRecordsIn (raw : bytes) (l : list OID) : M unit :=
  forM_ l (commitRecord raw).

Lemma commitRecord_eq raw k b :
  commitRecord raw k b =
  match backupTables b !! k with
  | Some w =>
      if write_ok W (tablebackup.ID w) raw (currentLSN b)
      then Done tt (wrote k w raw cCommit b) else Failed b
  | None => Panicked
  end.
Proof.
  unfold commitRecord, WriteCommandDataForTable, BackupTables_GetIfExists,
    mbind, M_bind, get, panic, fail, modify, wrote.
  destruct (backupTables b !! k) as [w |] eqn:Hk; [| reflexivity].
  rewrite Hk. destruct (write_ok W _ _ _); [| reflexivity].
  destruct (tablebackup.WriteDelta _ _ _ _ _) as [ln w'] eqn:Hw.
  assert (Hln : ln = tablebackup.frame_size raw).
  { unfold tablebackup.WriteDelta in Hw. destruct (_ <=? _) in Hw; now injection Hw. }
  subst ln. reflexivity.
Qed.

Lemma commitRecord_Done raw k b b' :
  commitRecord raw k b = Done tt b' <->
  exists w, backupTables b !! k = Some w /\
            write_ok W (tablebackup.ID w) raw (currentLSN b) = true /\
            b' = wrote k w raw cCommit b.
Proof.
  rewrite commitRecord_eq.
  destruct (backupTables b !! k) as [w |] eqn:Hk;
    [| split; [discriminate | now intros (w & [=] & _)]].
  destruct (write_ok W _ _ _) eqn:Hok.
  - split; [intros [= <-]; eauto | intros (w' & [= <-] & _ & ->); reflexivity].
  - split; [discriminate | intros (w' & [= <-] & Hw & _); congruence].
Qed.

(** Writes of one message to two different tables commute. *)
Lemma wrote_comm k1 k2 w1 w2 raw cmd b :
  k1 <> k2 ->
  wrote k2 w2 raw cmd (wrote k1 w1 raw cmd b) = wrote k1 w1 raw cmd (wrote k2 w2 raw cmd b).
Proof.
  intros Hne. destruct b.
  cbv [wrote set_msgCnt set_bytesWritten set_backupTables cfg backupTables
       tableNameChanges currentLSN transactionCommitLSN latestFlushLSN lastTxId msgCnt
       bytesWritten txBeginRelMsg relationMessages beginMsg typeMsg fsLog
       standbyStatuses].
  f_equal. apply insert_insert_ne. congruence.
Qed.

Lemma wrote_lookup_ne k1 k2 w1 raw cmd b :
  k1 <> k2 -> backupTables (wrote k1 w1 raw cmd b) !! k2 = backupTables b !! k2.
Proof. intros Hne. destruct b. unfold wrote. cbn. now apply lookup_insert_ne. Qed.

Lemma wrote_currentLSN k w raw cmd b : currentLSN (wrote k w raw cmd b) = currentLSN b.
Proof. destruct b. reflexivity. Qed.

Lemma commitRecord_swap raw k1 k2 b b' :
  k1 <> k2 ->
  (commitRecord raw k1;; commitRecord raw k2) b = Done tt b' ->
  (commitRecord raw k2;; commitRecord raw k1) b = Done tt b'.
Proof.
  intros Hne H. apply bind_Done in H as ([] & b1 & H1 & H2).
  apply commitRecord_Done in H1 as (w1 & Hk1 & Hok1 & ->).
  apply commitRecord_Done in H2 as (w2 & Hk2 & Hok2 & ->).
  rewrite wrote_lookup_ne in Hk2 by exact Hne. rewrite wrote_currentLSN in Hok2.
  unfold mbind, M_bind.
  rewrite (proj2 (commitRecord_Done raw k2 b _)) by eauto.
  apply commitRecord_Done. exists w1. split; [| split].
  - rewrite wrote_lookup_ne by congruence. exact Hk1.
  - rewrite wrote_currentLSN. exact Hok1.
  - now apply wrote_comm.
Qed.

Lemma commitRecordsIn_perm raw l l' :
  l ≡ₚ l' -> NoDup l ->
  forall b b', commitRecordsIn raw l b = Done tt b' -> commitRecordsIn raw l' b = Done tt b'.
Proof.
  unfold commitRecordsIn.
  induction 1 as [| x l l' Hperm IH | x y l | l1 l2 l3 H12 IH12 H23 IH23];
    intros Hnodup b b' H.
  - exact H.
  - cbn [forM_] in *. apply bind_Done in H as ([] & b1 & H1 & H2).
    unfold mbind, M_bind. rewrite H1. apply IH; [| exact H2].
    now apply NoDup_cons in Hnodup as [_ ?].
  - cbn [forM_] in *.
    apply NoDup_cons in Hnodup as [Hy _].
    assert (Hne : y <> x) by (intros ->; apply Hy; left).
    apply bind_Done in H as ([] & b1 & H1 & H).
    apply bind_Done in H as ([] & b2 & H2 & H3).
    assert (Hswap : (commitRecord raw x;; commitRecord raw y) b = Done tt b2).
    { apply commitRecord_swap; [exact Hne |]. unfold mbind, M_bind. rewrite H1. exact H2. }
    apply bind_Done in Hswap as ([] & b1' & H1' & H2').
    unfold mbind, M_bind. rewrite H1', H2'. exact H3.
  - apply IH23; [now rewrite <- H12 |]. now apply IH12.
Qed.

(** X7.  The commit records do not depend on the order in which the
    commit case of [handler] ranges over the participating tables: when the
    loop returns nil in the model's order, it returns nil in every order,
    and leaves the same state (the same record in every participating
    table's stream, the same counters). *)
Theorem commit_records_any_order (v : message.Commit) (l : list OID)
    (b b' : LogicalBackup) :
  l ≡ₚ participating b ->
  commitRecords W v b = Done tt b' ->
  commitRecordsIn (message.Commit_Raw v) l b = Done tt b'.
Proof.
  intros Hperm H.
  apply (commitRecordsIn_perm _ (participating b)); [now symmetry | | exact H].
  unfold participating. destruct (txBeginRelMsg b); [apply NoDup_elements | constructor].
Qed.

End CommitOrder.

Lemma commit_records_any_order_witness :
  length (participating inside_tx_two) = 2%nat /\
  commitRecords world_ok (message.mkCommit 256 0 [Byte.x43]) inside_tx_two
  = Done tt (result_state
               (commitRecords world_ok (message.mkCommit 256 0 [Byte.x43]) inside_tx_two)
               inside_tx_two) /\
  commitRecordsIn world_ok [Byte.x43] (rev (participating inside_tx_two)) inside_tx_two
  = Done tt (result_state
               (commitRecords world_ok (message.mkCommit 256 0 [Byte.x43]) inside_tx_two)
               inside_tx_two).
Proof.
  split; [vm_compute; reflexivity |].
  assert (H : commitRecords world_ok (message.mkCommit 256 0 [Byte.x43]) inside_tx_two
              = Done tt (result_state
                           (commitRecords world_ok (message.mkCommit 256 0 [Byte.x43])
                              inside_tx_two)
                           inside_tx_two))
    by (vm_compute; reflexivity).
  split; [exact H |].
  apply (commit_records_any_order world_ok (message.mkCommit 256 0 [Byte.x43])
           (rev (participating inside_tx_two)) inside_tx_two _
           (Permutation_sym (Permutation_rev _)) H).
Defined.

(* ------------------------------------------------------------------ *)
(** ** Nothing written is taken back *)

(** The name history of a table, empty for a table never seen. *)
Definition history (oid : OID) (b : LogicalBackup) : list NameAtLSN :=
  default [] (nameChangeHistory (tableNameChanges b) !! oid).

(** From [b] to [b'] every table kept its writer, and every stream and
    every name history was only added to. *)
Definition grows : relation LogicalBackup := fun b b' =>
  forall oid,
    (is_Some (backupTables b !! oid) -> is_Some (backupTables b' !! oid)) /\
    stream oid b `prefix_of` stream oid b' /\
    history oid b `prefix_of` history oid b'.

#[global] Instance grows_preorder : PreOrder grows.
Proof.
  split.
  - intros b oid. repeat split; [auto | reflexivity..].
  - intros b1 b2 b3 H12 H23 oid.
    destruct (H12 oid) as (Ha & Hb & Hc), (H23 oid) as (Ha' & Hb' & Hc').
    repeat split; [auto | etrans; eauto..].
Qed.

Ltac grows_leaf :=
  intros; unfold grows, stream, history; cbn; intros;
  repeat split; first [reflexivity | tauto].

Section AppendOnly.

Variable W : World.

Lemma WriteCommand_grows t msg cmd :
  steps True grows (WriteCommandDataForTable W t msg cmd).
Proof.
  intros b. apply wp_WriteCommand.
  destruct t as [p |]; [| exact I].
  destruct (backupTables b !! p) as [w |] eqn:Hp; [| exact I].
  destruct (write_ok W _ _ _); [| reflexivity].
  intros oid. unfold stream, history, wrote. cbn.
  destruct (decide (p = oid)) as [<- | Hne].
  - rewrite lookup_insert_eq, Hp, WriteDelta_deltas.
    repeat split; [eauto | now apply prefix_app_r | reflexivity].
  - rewrite lookup_insert_ne by exact Hne. repeat split; [auto | reflexivity..].
Qed.

Lemma maybeRegisterNewName_grows oid name :
  steps True grows (maybeRegisterNewName oid name).
Proof.
  intros b. unfold maybeRegisterNewName. apply wp_bind, wp_get. cbv zeta.
  apply wp_bind.
  assert (Happend : wp
    (modify (fun b0 => set_tableNameChanges
               (mkOidToName true
                  (<[oid := default [] (nameChangeHistory (tableNameChanges b) !! oid)
                            ++ [mkNameAtLSN name (transactionCommitLSN b0)]]>
                     (nameChangeHistory (tableNameChanges b0)))) b0);;
     b0 ← get;
     match BackupTables_GetIfExists oid b0 with
     | Some t =>
         match backupTables b0 !! t with
         | Some w => BackupTables_Set t (tablebackup.SetTextID name w)
         | None => panic
         end
     | None => panic
     end) b (fun _ b' => grows b b') (fun b' => grows b b') True).
  { apply wp_bind, wp_modify, wp_bind, wp_get.
    unfold BackupTables_GetIfExists. cbn [backupTables set_tableNameChanges].
    destruct (backupTables b !! oid) as [w |] eqn:Hw; [| exact I].
    rewrite Hw. apply wp_modify.
    intros k. unfold stream, history. cbn.
    destruct (decide (oid = k)) as [<- | Hne].
    - rewrite !lookup_insert_eq, Hw. cbn.
      repeat split; [eauto | reflexivity | now apply prefix_app_r].
    - rewrite !lookup_insert_ne by exact Hne. repeat split; [auto | reflexivity..]. }
  destruct (nameChangeHistory (tableNameChanges b) !! oid) as [h |] eqn:Hh.
  - destruct (last h) as [e |]; [| exact I].
    apply wp_ret. cbn [is_Some_bool negb orb].
    destruct (bool_decide (Name e = name)); cbn [negb];
      [apply wp_skip; reflexivity | exact Happend].
  - apply wp_ret. cbn [is_Some_bool negb orb]. exact Happend.
Qed.

End AppendOnly.

Ltac grows_step :=
  lazymatch goal with
  | |- steps _ grows (modify _) => apply steps_modify; grows_leaf
  | |- steps _ grows (fsCall _ _) => apply steps_fsCall; grows_leaf
  | |- steps True grows (WriteCommandDataForTable _ _ _ _) => apply WriteCommand_grows
  | |- steps True grows (maybeRegisterNewName _ _) => apply maybeRegisterNewName_grows
  end.

Ltac grows_auto := repeat (first [grows_step | steps_step | steps_unfold]).

Section AppendOnlyHandler.

Variable W : World.

Lemma processRelationMessage_grows v : steps True grows (processRelationMessage W v).
Proof.
  intros b. unfold processRelationMessage. apply wp_bind, wp_get.
  assert (Hrest : forall track, steps True grows
            (if negb track then skip
             else
               maybeRegisterNewName (message.Relation_OID v)
                 (message.Relation_NamespacedName v);;
               modify (fun b => set_relationMessages
                         (<[message.Relation_OID v := message.Relation_Raw v]>
                            (relationMessages b)) b))).
  { intros track. grows_auto. }
  apply wp_bind. unfold BackupTables_Get, BackupTables_GetIfExists.
  destruct (backupTables b !! message.Relation_OID v) as [w |] eqn:Hw.
  - apply wp_ret. apply Hrest.
  - unfold registerNewTable. apply wp_bind, wp_get.
    destruct (negb _); [apply wp_ret, Hrest |].
    destruct (new_ok W _); [| apply wp_fail; reflexivity].
    apply wp_bind, wp_modify, wp_ret.
    eapply wp_mono; [apply Hrest | | | auto]; cbn beta; intros; (etrans; [| eassumption]).
    all: intros k; unfold stream, history; cbn;
      (destruct (decide (message.Relation_OID v = k)) as [<- | Hne];
       [rewrite lookup_insert_eq, Hw; repeat split;
          [intros []; discriminate | apply prefix_nil | reflexivity]
       | rewrite lookup_insert_ne by exact Hne; repeat split; [auto | reflexivity..]]).
Qed.

Lemma handler_grows m walStart : steps True grows (handler W m walStart).
Proof.
  destruct m; unfold handler;
    try (apply steps_bind; [typeclasses eauto | grows_auto | intros ?]);
    try apply processRelationMessage_grows;
    grows_auto.
Qed.

Lemma sendStatus_grows : steps True grows (sendStatus W).
Proof. grows_auto. Qed.

(** X8.  The engine only adds: whatever message [handler] handles, and
    whatever the receive loop does over any number of turns, with a normal
    or an error return, every table that had a writer still has one, every
    table's stream has its former records as a prefix, and every table's
    name history has its former entries as a prefix. *)
Theorem streams_append_only (m : message.Message) (walStart : LSN) (turns : list Turn)
    (b : LogicalBackup) :
  match handler W m walStart b with
  | Done _ b' | Failed b' => grows b b'
  | Panicked => True
  end /\
  match logicalDecodingLoop W turns b with
  | Done _ b' | Failed b' => grows b b'
  | Panicked => True
  end.
Proof.
  split.
  - exact (handler_grows m walStart b).
  - exact (logicalDecodingLoop_steps W grows handler_grows sendStatus_grows turns b).
Qed.

End AppendOnlyHandler.


(* ------------------------------------------------------------------ *)
(** ** No panic inside the stream of transactions *)

(** The engine inside the stream of transactions: a Begin message has been
    handled. *)
Definition streaming (b : LogicalBackup) : Prop :=
  wf b /\ is_Some (txBeginRelMsg b).

Lemma streaming_same_fields b b' :
  wf_fields b' = wf_fields b -> streaming b -> streaming b'.
Proof.
  intros H [Hwf Hopen]. split; [now apply (wf_same_fields b) |].
  unfold wf_fields in H. injection H as _ -> _ _. exact Hopen.
Qed.

Section NoPanic.

Variable W : World.

Lemma streaming_wrote p w msg cmd b :
  backupTables b !! p = Some w -> streaming b -> streaming (wrote p w msg cmd b).
Proof. intros Hp [Hwf Hopen]. split; [now apply wf_wrote | exact Hopen]. Qed.

Lemma wrote_lookup p w msg cmd b :
  is_Some (backupTables (wrote p w msg cmd b) !! p).
Proof. unfold wrote. cbn. rewrite lookup_insert_eq. eauto. Qed.

(** A write to a registered table keeps the engine streaming and the table
    registered. *)
Lemma WriteCommand_streaming p msg cmd b :
  streaming b -> is_Some (backupTables b !! p) ->
  wp (WriteCommandDataForTable W (Some p) msg cmd) b
     (fun _ b' => streaming b' /\ is_Some (backupTables b' !! p) /\
                  relationMessages b' = relationMessages b)
     (fun _ => True) False.
Proof.
  intros Hs [w Hw]. apply wp_WriteCommand. rewrite Hw.
  destruct (write_ok W _ _ _); [| exact I].
  split; [now apply streaming_wrote |]. split; [apply wrote_lookup | reflexivity].
Qed.

Lemma txBegin_add_streaming bt b :
  streaming b -> is_Some (backupTables b !! bt) ->
  wp (txBegin_add bt) b
     (fun _ b' => streaming b' /\ is_Some (backupTables b' !! bt) /\
                  relationMessages b' = relationMessages b)
     (fun _ => True) False.
Proof.
  intros [Hwf [s Hs]] [w Hw].
  pose proof (txBegin_add_keeps_wf bt b) as Hkeeps. revert Hkeeps.
  unfold wp, txBegin_add, mbind, M_bind, get, modify. rewrite Hw, Hs.
  intros Hkeeps. split; [split; [now apply Hkeeps | cbn; eauto] |].
  split; [cbn; eauto | reflexivity].
Qed.

(** The engine is streaming and table [oid] has a writer. *)
Definition streaming_with (oid : OID) (b : LogicalBackup) : Prop :=
  streaming b /\ is_Some (backupTables b !! oid).

Lemma processDMLMessage_streaming tableOID cmd msg b :
  streaming b ->
  wp (processDMLMessage W tableOID cmd msg) b (fun _ b' => streaming b') (fun _ => True) False.
Proof.
  intros Hs. unfold processDMLMessage. apply wp_bind, wp_get.
  unfold BackupTables_Get, BackupTables_GetIfExists.
  destruct (backupTables b !! tableOID) as [w |] eqn:Hw; [| apply wp_skip, Hs].
  set (J := fun (_ : unit) b' => streaming_with tableOID b').
  assert (Hwrite : forall raw c b1, J tt b1 ->
            wp (WriteCommandDataForTable W (Some tableOID) raw c) b1 J (fun _ => True) False).
  { intros raw c0 b1 HJ. destruct HJ as [HJ1 HJ2].
    eapply wp_mono; [now apply WriteCommand_streaming | | auto | auto].
    cbn beta. intros ? b2 (? & ? & _). now split. }
  apply wp_bind.
  apply wp_mono with (Q := J) (E := fun _ => True) (X := False); [| | auto | auto].
  { destruct (txBegin_has tableOID b); [apply wp_skip; split; eauto |].
    apply wp_bind.
    eapply wp_mono; [apply Hwrite; split; eauto | | auto | auto]. cbn beta.
    intros ? b1 [H1 H2].
    eapply wp_mono; [now apply txBegin_add_streaming | | auto | auto].
    cbn beta. intros ? b2 (? & ? & _). now split. }
  intros ? b1 [H1 H2]. apply wp_bind, wp_get. apply wp_bind.
  apply wp_mono with (Q := J) (E := fun _ => True) (X := False); [| | auto | auto].
  { rewrite (wf_typeMsg b1 (proj1 H1)). apply wp_skip. now split. }
  intros ? b2 [H3 H4]. apply wp_bind, wp_get. apply wp_bind.
  apply wp_mono with (Q := J) (E := fun _ => True) (X := False); [| | auto | auto].
  { destruct (relationMessages b2 !! tableOID) as [relationMsg |]; [| apply wp_skip; now split].
    apply wp_bind.
    eapply wp_mono; [apply Hwrite; now split | | auto | auto]. cbn beta.
    intros ? b3 [H5 H6]. apply wp_modify. split; [| exact H6].
    now apply (streaming_same_fields b3). }
  intros ? b3 [H5 H6].
  eapply wp_mono; [apply Hwrite; now split | | auto | auto].
  cbn beta. now intros ? b4 [? _].
Qed.

Lemma frame_txBegin_maybeRegisterNewName oid name :
  frame True txBeginRelMsg (maybeRegisterNewName oid name).
Proof. frame_auto. Qed.

(** Registering a name for a table that has a writer always returns. *)
Lemma maybeRegisterNewName_wf oid name b :
  wf b -> is_Some (backupTables b !! oid) ->
  wp (maybeRegisterNewName oid name) b
     (fun _ b' => wf b' /\ txBeginRelMsg b' = txBeginRelMsg b) (fun _ => True) False.
Proof.
  intros Hwf [w Hw].
  assert (Hdone : exists b', maybeRegisterNewName oid name b = Done tt b').
  { destruct (maybeRegisterNewName_registers oid name w b Hw) as [Hyes Hno].
    { intros h Hh. exact (proj1 (wf_names b Hwf oid h Hh)). }
    assert (Hdec : registers oid name b \/ ~ registers oid name b).
    { unfold registers.
      destruct (nameChangeHistory (tableNameChanges b) !! oid) as [h |] eqn:Hh.
      2: { left. now left. }
      destruct (last h) as [e |] eqn:He.
      - destruct (decide (Name e = name)) as [Heq | Hne].
        + right. intros [[=] | (h' & e' & [= <-] & He' & Hn)]. congruence.
        + left. right. eauto.
      - right. intros [[=] | (h' & e' & [= <-] & He' & _)]. congruence. }
    destruct Hdec; eauto. }
  destruct Hdone as [b' Hb'].
  pose proof (maybeRegisterNewName_keeps_wf oid name b) as Hkeeps.
  pose proof (frame_txBegin_maybeRegisterNewName oid name b) as Hframe.
  unfold wp in *. rewrite Hb' in *. unfold kept in Hframe.
  split; [now apply Hkeeps | exact Hframe].
Qed.

Lemma maybeRegisterNewName_streaming oid name b :
  streaming b -> is_Some (backupTables b !! oid) ->
  wp (maybeRegisterNewName oid name) b (fun _ b' => streaming b') (fun _ => True) False.
Proof.
  intros [Hwf Hopen] Hw.
  eapply wp_mono; [now apply maybeRegisterNewName_wf | | auto | auto].
  cbn beta. intros ? b' [Hwf' Htx]. split; [exact Hwf' | now rewrite Htx].
Qed.

Lemma processRelationMessage_streaming v b :
  streaming b ->
  wp (processRelationMessage W v) b (fun _ b' => streaming b') (fun _ => True) False.
Proof.
  intros Hs. unfold processRelationMessage. apply wp_bind, wp_get.
  assert (Hrest : forall b1, streaming b1 ->
            is_Some (backupTables b1 !! message.Relation_OID v) ->
            wp (maybeRegisterNewName (message.Relation_OID v)
                  (message.Relation_NamespacedName v);;
                modify (fun b => set_relationMessages
                          (<[message.Relation_OID v := message.Relation_Raw v]>
                             (relationMessages b)) b))
               b1 (fun _ b' => streaming b') (fun _ => True) False).
  { intros b1 H1 H2. apply wp_bind.
    eapply wp_mono; [now apply maybeRegisterNewName_streaming | | auto | auto].
    cbn beta. intros ? b2 H3. apply wp_modify. now apply (streaming_same_fields b2). }
  apply wp_bind. unfold BackupTables_Get, BackupTables_GetIfExists.
  destruct (backupTables b !! message.Relation_OID v) as [w |] eqn:Hw.
  - apply wp_ret. cbn [negb]. apply Hrest; eauto.
  - unfold registerNewTable. apply wp_bind, wp_get.
    destruct (negb _); [apply wp_ret, wp_skip, Hs |].
    destruct (new_ok W _); [| exact I].
    apply wp_bind, wp_modify, wp_ret. cbn [negb].
    apply Hrest; [| cbn; rewrite lookup_insert_eq; eauto].
    destruct Hs as [Hwf Hopen]. split; [now apply wf_registered | exact Hopen].
Qed.

Lemma frame_txBegin_commit v walStart :
  frame True txBeginRelMsg (handler W (message.MCommit v) walStart).
Proof. frame_auto. Qed.

Lemma handler_streaming m walStart b :
  streaming b ->
  wp (handler W m walStart) b (fun _ b' => streaming b') (fun _ => True) False.
Proof.
  intros Hs.
  assert (Hs0 : streaming (set_currentLSN walStart b))
    by now apply (streaming_same_fields b).
  destruct m as [v | v | v | v | v | v | | | raw].
  6: { pose proof (handler_commit_safe W v walStart b (proj1 Hs)) as Hsafe.
       pose proof (handler_keeps_wf W (message.MCommit v) walStart b) as Hkeeps.
       pose proof (frame_txBegin_commit v walStart b) as Hframe.
       unfold wp, kept in *.
       destruct (handler W (message.MCommit v) walStart b); [| exact I | exact Hsafe].
       destruct Hs as [Hwf Hopen]. split; [now apply Hkeeps | now rewrite Hframe]. }
  all: unfold handler; apply wp_bind, wp_modify.
  - now apply processRelationMessage_streaming.
  - now apply processDMLMessage_streaming.
  - now apply processDMLMessage_streaming.
  - now apply processDMLMessage_streaming.
  - apply wp_modify. destruct Hs as [Hwf _]. split; [| cbn; eauto].
    apply wf_begin. now apply (wf_same_fields b).
  - apply wp_skip, Hs0.
  - apply wp_skip, Hs0.
  - apply wp_skip, Hs0.
Qed.

Lemma run_streaming msgs b :
  streaming b ->
  wp (run W msgs) b (fun _ b' => streaming b') (fun _ => True) False.
Proof.
  intros Hs. unfold run. apply wp_forM; [exact Hs |].
  intros [m walStart] b1 _ H1. now apply handler_streaming.
Qed.

(** X9.  In the sequential model, once the engine has started and the
    stream opens with a Begin message, handling messages one after the
    other never panics, whatever the messages and their order are and
    whichever writes and calls into the environment fail: no nil writer is
    written to, no nil map is assigned to and no empty history is
    indexed. *)
Theorem engine_never_panics (c : config.Config) (S : Startup) (b0 : LogicalBackup)
    (bg : message.Begin) (walStart : LSN) (msgs : list (message.Message * LSN)) :
  New W c S = Done tt b0 ->
  run W ((message.MBegin bg, walStart) :: msgs) b0 <> Panicked.
Proof.
  intros Hnew. apply wp_not_Panicked with (Q := fun _ _ => True) (E := fun _ => True).
  unfold wp. rewrite run_cons. unfold mbind, M_bind. rewrite handler_begin.
  assert (Hs : streaming
                 (set_beginMsg (message.Begin_Raw bg)
                    (set_txBeginRelMsg (Some ∅)
                       (set_transactionCommitLSN (message.FinalLSN bg)
                          (set_lastTxId (message.XID bg) (set_currentLSN walStart b0)))))).
  { split; [| cbn; eauto]. apply wf_begin. apply (wf_same_fields b0); [reflexivity |].
    now apply (New_wf W c S). }
  pose proof (run_streaming msgs _ Hs) as Hrun. unfold wp in Hrun.
  destruct (run W msgs _); [exact I | exact I | exact Hrun].
Qed.

Lemma prepareTablesForPublication_safe S b :
  wf b ->
  wp (prepareTablesForPublication W S) b (fun _ _ => True) (fun _ => True) False.
Proof.
  intros Hwf. unfold prepareTablesForPublication. apply wp_bind, wp_get.
  destruct (publicationTables S) as [tables |]; [| exact I].
  destruct (_ && _); [exact I |].
  apply wp_bind.
  apply wp_mono with (Q := fun _ b' => wf b') (E := fun _ => True) (X := False);
    [| | auto | auto].
  - apply wp_forM; [exact Hwf |].
    intros t b1 _ Hwf1. apply wp_bind.
    apply wp_mono with (Q := fun _ b' => b' = b1) (E := fun _ => True) (X := False);
      [| | auto | auto].
    { destruct (negb _); [| now apply wp_skip].
      destruct (alter_ok S (ti_oid t)); [now apply wp_skip | exact I]. }
    intros ? b2 ->. destruct (new_ok W (ti_oid t)); [| exact I]. cbv zeta.
    apply wp_bind, wp_modify.
    eapply wp_mono; [apply maybeRegisterNewName_wf | | auto | auto].
    + now apply wf_registered.
    + cbn. rewrite lookup_insert_eq. eauto.
    + cbn beta. now intros ? b3 [? _].
  - intros ? b1 _. apply wp_bind.
    eapply (wp_attempt_frame cfg) with (X := False); [frame_auto | | tauto].
    intros. now apply wp_skip.
Qed.

(** X10.  [New] never panics, whatever the database answers and
    whichever calls fail: it returns the engine or an error. *)
Theorem startup_never_panics (c : config.Config) (S : Startup) :
  match New W c S with
  | Panicked => False
  | _ => True
  end.
Proof.
  enough (H : wp (prepareDB W S) (initial c) (fun _ _ => True) (fun _ => True) False).
  { unfold wp in H. unfold New.
    destruct (prepareDB W S (initial c)); [exact I | exact I | exact H]. }
  assert (Htables : forall b, wf_fields b = wf_fields (initial c) ->
            wp (prepareTablesForPublication W S) b (fun _ _ => True) (fun _ => True) False).
  { intros b Hb. apply prepareTablesForPublication_safe.
    apply (wf_same_fields (initial c)); [exact Hb | apply wf_initial]. }
  unfold prepareDB.
  destruct (negb (connect_ok S)); [exact I |].
  destruct (negb (publication_ok S)); [exact I |].
  destruct (slotFlushLSN S) as [flushLSN |]; [| exact I].
  apply wp_bind, wp_modify, wp_bind.
  destruct (negb (IsValid flushLSN)).
  - destruct (createdSlot S) as [initialLSN |]; [| exact I].
    apply wp_bind, wp_modify, wp_bind.
    eapply (wp_attempt_frame wf_fields) with (X := False); [frame_auto | | tauto].
    intros r b1 H1. apply wp_skip, Htables. exact H1.
  - destruct (restartLSN S) as [restart |]; [| exact I].
    apply wp_bind.
    eapply (wp_frame wf_fields) with (X := False); [frame_auto | | auto | tauto].
    intros ? b1 H1. apply wp_bind.
    eapply (wp_attempt_frame wf_fields) with (X := False); [frame_auto | | tauto].
    intros r b2 H2. apply wp_skip, Htables. now rewrite H2, H1.
Qed.

End NoPanic.

Lemma engine_never_panics_witness :
  New world_ok cfg_example (startup_fresh 1280) = Done tt started /\
  run world_ok example_tx1 started <> Panicked.
Proof.
  assert (H : New world_ok cfg_example (startup_fresh 1280) = Done tt started)
    by (vm_compute; reflexivity).
  split; [exact H |].
  exact (engine_never_panics world_ok cfg_example (startup_fresh 1280) started
           (message.mkBegin 7 256 [Byte.x42]) 200 (tail example_tx1) H).
Defined.

(* ------------------------------------------------------------------ *)
(** ** The statuses sent to the server *)

(** What has been reported to the server: the statuses sent so far are in
    ascending order and none is above the flush LSN. *)
Definition reported (b : LogicalBackup) : Prop :=
  adjacent Z.le (standbyStatuses b) /\
  Forall (fun l => l <= latestFlushLSN b) (standbyStatuses b).

Definition keeps_reported : relation LogicalBackup := fun b b' =>
  latestFlushLSN b <= latestFlushLSN b' /\ (reported b -> reported b').

#[global] Instance keeps_reported_preorder : PreOrder keeps_reported.
Proof.
  split; unfold keeps_reported.
  - intros b. split; [lia | auto].
  - intros b1 b2 b3 [H1 H1'] [H2 H2']. split; [lia | auto].
Qed.

Definition reported_fields (b : LogicalBackup) := (latestFlushLSN b, standbyStatuses b).

Lemma keeps_reported_fields b b' :
  reported_fields b' = reported_fields b -> keeps_reported b b'.
Proof.
  unfold reported_fields, keeps_reported, reported. intros [= -> ->]. split; [lia | auto].
Qed.

Lemma reported_sent b :
  reported b ->
  reported (set_standbyStatuses (standbyStatuses b ++ [latestFlushLSN b]) b).
Proof.
  unfold reported. cbn. intros [Hasc Hle]. split.
  - apply adjacent_snoc. split; [exact Hasc |].
    intros x Hx. rewrite Forall_forall in Hle. apply Hle.
    apply last_Some in Hx as [l' ->]. apply elem_of_app. right. now left.
  - apply Forall_app. split; [exact Hle |]. constructor; [lia | constructor].
Qed.

Lemma reported_advanced l b :
  latestFlushLSN b <= l -> reported b -> reported (set_latestFlushLSN l b).
Proof.
  unfold reported. cbn. intros Hl [Hasc Hle]. split; [exact Hasc |].
  eapply Forall_impl; [exact Hle |]. cbn. intros. lia.
Qed.

Ltac reported_step :=
  lazymatch goal with
  | |- steps _ keeps_reported (modify _) =>
      apply steps_modify; intros; apply keeps_reported_fields; reflexivity
  | |- steps _ keeps_reported (fsCall _ _) =>
      apply steps_fsCall; intros; apply keeps_reported_fields; reflexivity
  end.

Ltac reported_auto := repeat (first [reported_step | steps_step | steps_unfold]).

Section Reported.

Variable W : World.

Lemma sendStatus_keeps_reported : steps True keeps_reported (sendStatus W).
Proof.
  intros b. unfold sendStatus. wp_run; unfold keeps_reported; cbn; (split; [lia |]).
  all: intros Hrep; apply reported_sent in Hrep; apply Hrep.
Qed.

Lemma advanceFlushLSN_keeps_reported : steps True keeps_reported (advanceFlushLSN W).
Proof.
  intros b. unfold advanceFlushLSN. apply wp_bind, wp_get. cbv zeta.
  destruct (latestFlushLSN b <? getNextFlushLSN b) eqn:Hadv; [| apply wp_ret; reflexivity].
  apply Z.ltb_lt in Hadv. apply wp_bind, wp_modify.
  assert (Hrest : steps True keeps_reported
                    (attempt (writeRestartLSN W);; attempt (sendStatus W))).
  { apply steps_bind; [typeclasses eauto | reported_auto | intros ?].
    apply steps_attempt, sendStatus_keeps_reported. }
  eapply wp_mono; [apply Hrest | | | auto]; cbn beta; intros; (etrans; [| eassumption]).
  all: split; [cbn; lia | apply reported_advanced; lia].
Qed.

Lemma handler_keeps_reported m walStart : steps True keeps_reported (handler W m walStart).
Proof.
  destruct m as [v | v | v | v | v | v | | | raw]; try (reported_auto; fail).
  intros b. unfold wp. rewrite handler_commit_parts.
  set (b0 := set_currentLSN _ _).
  assert (H0 : keeps_reported b b0) by (apply keeps_reported_fields; reflexivity).
  assert (Hsteps : steps True keeps_reported
            (commitRecords W v;; attempt (flushOidNameMap W);;
             sent ← advanceFlushLSN W; updateMetricsOnCommit;;
             if (sent : bool) then skip else fail)).
  { apply steps_bind; [typeclasses eauto | reported_auto | intros ?].
    apply steps_bind; [typeclasses eauto | reported_auto | intros ?].
    apply steps_bind; [typeclasses eauto | apply advanceFlushLSN_keeps_reported | intros ?].
    reported_auto. }
  specialize (Hsteps b0). unfold wp in Hsteps.
  match type of Hsteps with match ?c with _ => _ end =>
    destruct c;
      [etrans; [exact H0 | exact Hsteps] | etrans; [exact H0 | exact Hsteps] | exact I] end.
Qed.

Lemma reported_fields_eq b b' :
  reported_fields b' = reported_fields b -> reported b -> reported b'.
Proof. intros H. apply (keeps_reported_fields b b' H). Qed.

Lemma frame_reported_prepareTablesForPublication S :
  frame True reported_fields (prepareTablesForPublication W S).
Proof. frame_auto. Qed.

Lemma frame_reported_writeRestartLSN : frame False reported_fields (writeRestartLSN W).
Proof. frame_auto. Qed.

Lemma New_reported c S b : New W c S = Done tt b -> reported b.
Proof.
  intros H.
  refine (wp_Done _ _ (fun _ b' => reported b') (fun _ => True) True _ _ _ H).
  assert (Htables : forall b0, reported b0 ->
            wp (prepareTablesForPublication W S) b0
               (fun _ b' => reported b') (fun _ => True) True).
  { intros b0 H0.
    apply (wp_frame reported_fields) with (X := True);
      [apply frame_reported_prepareTablesForPublication | | auto | auto].
    intros _ b' Hb'. now apply (reported_fields_eq b0). }
  assert (Hnone : forall l, reported (set_latestFlushLSN l (initial c))).
  { intros l. split; cbn; constructor. }
  unfold prepareDB.
  destruct (connect_ok S); [| exact I]. destruct (publication_ok S); [| exact I]. cbn [negb].
  destruct (slotFlushLSN S) as [flushLSN |]; [| exact I].
  apply wp_bind, wp_modify, wp_bind.
  destruct (IsValid flushLSN); cbn [negb].
  - destruct (restartLSN S) as [restart |]; [| exact I].
    apply wp_bind.
    assert (Hrestart : exists l,
              (if IsValid restart then modify (set_latestFlushLSN restart) else skip)
                (set_latestFlushLSN flushLSN (initial c))
              = Done tt (set_latestFlushLSN l (initial c))).
    { destruct (IsValid restart); [exists restart | exists flushLSN]; reflexivity. }
    destruct Hrestart as [l Hl]. unfold wp at 1. rewrite Hl.
    apply wp_bind, wp_attempt.
    eapply wp_mono; [apply sendStatus_keeps_reported | | | auto]; cbn beta.
    + intros _ b1 [_ H1]. apply wp_skip, Htables, H1, Hnone.
    + intros b1 [_ H1]. apply wp_skip, Htables, H1, Hnone.
  - destruct (createdSlot S) as [initialLSN |]; [| exact I].
    apply wp_bind, wp_modify, wp_bind.
    eapply (wp_attempt_frame reported_fields) with (X := False);
      [apply frame_reported_writeRestartLSN | | tauto].
    intros r b1 H1. apply wp_skip, Htables.
    apply (reported_fields_eq _ _ H1). apply (Hnone (wrap64 (initialLSN - 1))).
Qed.

(** X11.  The flush positions reported to the server never go back: in
    every state the receive loop reaches after a successful start, the
    statuses sent so far (by the start-up, the commits, the ticker and the
    replies to heartbeats) are in ascending order, and none is above the
    engine's [latestFlushLSN]. *)
Theorem statuses_never_go_back (c : config.Config) (S : Startup) (turns : list Turn)
    (b0 : LogicalBackup) :
  New W c S = Done tt b0 ->
  match logicalDecodingLoop W turns b0 with
  | Done _ b | Failed b =>
      adjacent Z.le (standbyStatuses b) /\
      Forall (fun l => l <= latestFlushLSN b) (standbyStatuses b)
  | Panicked => True
  end.
Proof.
  intros Hnew. apply New_reported in Hnew.
  pose proof (logicalDecodingLoop_steps W keeps_reported
                handler_keeps_reported sendStatus_keeps_reported turns b0) as H.
  unfold wp in H.
  destruct (logicalDecodingLoop W turns b0) as [r b | b |]; [| | exact I];
    destruct H as [_ H]; exact (H Hnew).
Qed.

End Reported.

Lemma statuses_never_go_back_witness :
  New world_ok cfg_example startup_existing = Done tt started_with_table /\
  match logicalDecodingLoop world_ok [Tick; Tick] started_with_table with
  | Done _ b | Failed b =>
      adjacent Z.le (standbyStatuses b) /\
      Forall (fun l => l <= latestFlushLSN b) (standbyStatuses b)
  | Panicked => True
  end.
Proof.
  assert (H : New world_ok cfg_example startup_existing = Done tt started_with_table)
    by (vm_compute; reflexivity).
  split; [exact H |].
  exact (statuses_never_go_back world_ok cfg_example startup_existing [Tick; Tick]
           started_with_table H).
Defined.

(* ------------------------------------------------------------------ *)
(** ** Start-up *)

Section ExistingSlot.

Variable W : World.

Definition start_fields (b : LogicalBackup) := (latestFlushLSN b, standbyStatuses b).

Lemma frame_start_prepareTablesForPublication S :
  frame True start_fields (prepareTablesForPublication W S).
Proof. frame_auto. Qed.

Lemma sendStatus_eq b :
  sendStatus W b =
  let b' := set_standbyStatuses (standbyStatuses b ++ [latestFlushLSN b])
              (set_bytesWritten 0 (set_msgCnt ∅ b)) in
  if send_ok W (latestFlushLSN b) then Done tt b' else Failed b'.
Proof.
  unfold sendStatus, mbind, M_bind, modify, get, skip, fail, mret, M_ret. cbn.
  destruct (send_ok W _); reflexivity.
Qed.

(** The same environment with other answers to [SendStandbyStatus]. *)
Definition with_send_ok (send : LSN -> bool) (W' : World) : World :=
  mkWorld (fs_ok W') send (write_ok W') (new_ok W') (Parse W').

(** The engine as the start-up hands it to [prepareTablesForPublication]
    when the slot exists: [adopted] is its flush LSN and the one status
    handed to [SendStandbyStatus]. *)
Definition resumed (c : config.Config) (adopted : LSN) : LogicalBackup :=
  set_standbyStatuses [adopted]
    (set_bytesWritten 0 (set_msgCnt ∅ (set_latestFlushLSN adopted (initial c)))).

Lemma New_existing_slot (c : config.Config) (S : Startup) (l restart : LSN) :
  connect_ok S = true -> publication_ok S = true ->
  slotFlushLSN S = Some l -> IsValid l = true ->
  restartLSN S = Some restart ->
  New W c S
  = prepareTablesForPublication W S (resumed c (if IsValid restart then restart else l)).
Proof.
  intros Hconn Hpub Hslot Hvalid Hrestart. unfold New, prepareDB.
  rewrite Hconn, Hpub, Hslot, Hrestart. cbn [negb]. rewrite bind_modify, Hvalid. cbn [negb].
  unfold mbind, M_bind, attempt.
  destruct (IsValid restart); unfold modify, skip, mret, M_ret;
    rewrite sendStatus_eq; cbv zeta;
    destruct (send_ok W _); reflexivity.
Qed.

Lemma New_existing_slot_Done (c : config.Config) (S : Startup) (l : LSN)
    (b : LogicalBackup) :
  slotFlushLSN S = Some l -> IsValid l = true ->
  New W c S = Done tt b ->
  exists restart,
    restartLSN S = Some restart /\
    latestFlushLSN b = (if IsValid restart then restart else l) /\
    standbyStatuses b = [latestFlushLSN b].
Proof.
  intros Hslot Hvalid Hnew.
  refine (wp_Done _ _
            (fun _ b' => exists restart,
               restartLSN S = Some restart /\
               latestFlushLSN b' = (if IsValid restart then restart else l) /\
               standbyStatuses b' = [latestFlushLSN b'])
            (fun _ => True) True _ _ _ Hnew).
  unfold prepareDB.
  destruct (negb (connect_ok S)); [exact I |].
  destruct (negb (publication_ok S)); [exact I |].
  rewrite Hslot. apply wp_bind, wp_modify. rewrite Hvalid. cbn [negb].
  destruct (restartLSN S) as [restart |]; [| exact I].
  apply wp_bind, wp_bind.
  assert (Hrestart :
            (if IsValid restart then modify (set_latestFlushLSN restart) else skip)
              (set_latestFlushLSN l (initial c))
            = Done tt (set_latestFlushLSN (if IsValid restart then restart else l)
                         (initial c))).
  { destruct (IsValid restart); reflexivity. }
  unfold wp at 1. rewrite Hrestart. set (l' := if IsValid restart then _ else _).
  assert (Hsent : wp (sendStatus W) (set_latestFlushLSN l' (initial c))
            (fun _ b1 => start_fields b1 = (l', [l']))
            (fun b1 => start_fields b1 = (l', [l'])) False).
  { unfold wp. rewrite sendStatus_eq. cbv zeta. destruct (send_ok W _); reflexivity. }
  apply wp_bind, wp_attempt.
  eapply wp_mono; [apply Hsent | | | intros []]; cbn beta.
  all: intros; apply wp_skip;
    (eapply (wp_frame start_fields) with (X := True);
       [apply frame_start_prepareTablesForPublication | | auto | auto]);
    intros ? b2 H2; exists restart; split; [reflexivity |];
    match goal with H : start_fields _ = (_, [_]) |- _ => rewrite H in H2 end;
    injection H2 as -> ->; split; reflexivity.
Qed.

End ExistingSlot.

Section ExistingSlotStart.

Variable W : World.

Lemma New_send_ok (send : LSN -> bool) (c : config.Config) (S : Startup) :
  New (with_send_ok send W) c S = New W c S.
Proof.
  unfold New, prepareDB.
  destruct (connect_ok S); [| reflexivity]. destruct (publication_ok S); [| reflexivity].
  cbn [negb]. destruct (slotFlushLSN S) as [l |]; [| reflexivity].
  rewrite !bind_modify. destruct (IsValid l); cbn [negb]; [| reflexivity].
  destruct (restartLSN S) as [restart |]; [| reflexivity].
  unfold mbind, M_bind, attempt.
  destruct (IsValid restart); unfold modify, skip, mret, M_ret;
    rewrite !sendStatus_eq; cbv zeta;
    destruct (send_ok W _), (send_ok (with_send_ok send W) _); reflexivity.
Qed.

(** X12.  When the replication slot exists, the start adopts the LSN of
    the state file if that is valid and the slot's flush LSN otherwise
    (also when the state file's LSN is the lower one), and hands exactly
    one standby status, carrying the adopted LSN, to [SendStandbyStatus].
    A failure to send it does not fail the start: whether the send
    succeeds changes neither the outcome of [New] nor the state it leaves,
    and once the database has been reached and the state file read, [New]
    ends as [prepareTablesForPublication] does from the state with the
    adopted LSN and that one status. *)
Theorem existing_slot_start (c : config.Config) (S : Startup) (l : LSN) :
  slotFlushLSN S = Some l -> IsValid l = true ->
  (forall send, New (with_send_ok send W) c S = New W c S) /\
  (forall restart,
     connect_ok S = true -> publication_ok S = true ->
     restartLSN S = Some restart ->
     New W c S
     = prepareTablesForPublication W S
         (resumed c (if IsValid restart then restart else l))) /\
  (forall b,
     New W c S = Done tt b ->
     exists restart,
       restartLSN S = Some restart /\
       latestFlushLSN b = (if IsValid restart then restart else l) /\
       standbyStatuses b = [latestFlushLSN b]).
Proof.
  intros Hslot Hvalid. split; [intros send; apply New_send_ok |]. split.
  - intros restart Hconn Hpub Hrestart. now apply New_existing_slot.
  - intros b Hnew. now apply (New_existing_slot_Done W c S l b).
Qed.

End ExistingSlotStart.

(** An environment in which no standby status can be sent. *)
Definition world_send_fails : World := with_send_ok (fun _ => false) world_ok.

Lemma existing_slot_start_witness :
  send_ok world_send_fails 1536 = false /\
  New world_send_fails cfg_example startup_existing = Done tt started_with_table /\
  New world_send_fails cfg_example startup_existing
  = prepareTablesForPublication world_send_fails startup_existing
      (resumed cfg_example 1536) /\
  latestFlushLSN started_with_table = 1536 /\
  standbyStatuses started_with_table = [1536].
Proof.
  destruct (existing_slot_start world_send_fails cfg_example startup_existing 1280
              eq_refl eq_refl) as (Hsend & Hprepare & Hadopts).
  assert (H : New world_send_fails cfg_example startup_existing = Done tt started_with_table).
  { etrans; [apply (Hsend (fun _ => false)) |]. vm_compute. reflexivity. }
  split; [reflexivity |]. split; [exact H |].
  split; [exact (Hprepare 1536 eq_refl eq_refl eq_refl) |].
  destruct (Hadopts started_with_table H) as (restart & Hrestart & Hlatest & Hsent).
  injection Hrestart as <-. rewrite Hsent, Hlatest. split; reflexivity.
Defined.

Section PublicationTables.

Variable W : World.
Variable S : Startup.

(** The body of the loop of [prepareTablesForPublication]. *)
Definition prepareTable (t : tableInfo) : M unit :=
  (if negb (bool_decide (targetReplicaIdentity t = ti_replicaIdentity t)) then
     if alter_ok S (ti_oid t) then skip else fail
   else skip);;
  if new_ok W (ti_oid t) then
    let tb := tablebackup.New (ti_name t) (ti_oid t) in
    BackupTables_Set (ti_oid t) tb;;
    maybeRegisterNewName (ti_oid t) (tablebackup.NamespacedName tb)
  else fail.

(** What the start-up needs of a table of the publication. *)
Definition table_accepted (t : tableInfo) : Prop :=
  new_ok W (ti_oid t) = true /\
  (targetReplicaIdentity t <> ti_replicaIdentity t -> alter_ok S (ti_oid t) = true).

Definition names (b : LogicalBackup) := nameChangeHistory (tableNameChanges b).

Lemma prepareTable_Done t b b' :
  names b !! ti_oid t = None ->
  prepareTable t b = Done tt b' ->
  table_accepted t /\
  backupTables b' = <[ti_oid t := tablebackup.New (ti_name t) (ti_oid t)]> (backupTables b) /\
  names b' = <[ti_oid t := [mkNameAtLSN (ti_name t) (transactionCommitLSN b)]]> (names b) /\
  transactionCommitLSN b' = transactionCommitLSN b.
Proof.
  unfold names, prepareTable, table_accepted. intros Hnone H.
  apply bind_Done in H as ([] & b1 & Halter & H).
  assert (Hb1 : b1 = b /\
            (targetReplicaIdentity t <> ti_replicaIdentity t -> alter_ok S (ti_oid t) = true)).
  { destruct (bool_decide_reflect (targetReplicaIdentity t = ti_replicaIdentity t));
      cbn [negb] in Halter.
    - injection Halter as <-. split; [reflexivity | tauto].
    - destruct (alter_ok S (ti_oid t)); [| discriminate].
      injection Halter as <-. auto. }
  destruct Hb1 as [-> Halt].
  destruct (new_ok W (ti_oid t)); [| discriminate]. cbv zeta in H.
  unfold BackupTables_Set, maybeRegisterNewName, BackupTables_GetIfExists,
    mbind, M_bind, modify, get, mret, M_ret in H.
  cbn in H. rewrite Hnone in H. cbn in H. rewrite !lookup_insert_eq in H. cbn in H.
  injection H as <-. cbn. rewrite insert_insert_eq. auto.
Qed.

Lemma prepareTables_Done tables : forall b b',
  NoDup (ti_oid <$> tables) ->
  (forall t, t ∈ tables -> names b !! ti_oid t = None) ->
  forM_ tables prepareTable b = Done tt b' ->
  transactionCommitLSN b' = transactionCommitLSN b /\
  (forall t, t ∈ tables ->
     table_accepted t /\
     backupTables b' !! ti_oid t = Some (tablebackup.New (ti_name t) (ti_oid t)) /\
     names b' !! ti_oid t = Some [mkNameAtLSN (ti_name t) (transactionCommitLSN b)]) /\
  (forall oid, oid ∉ ti_oid <$> tables ->
     backupTables b' !! oid = backupTables b !! oid /\ names b' !! oid = names b !! oid).
Proof.
  induction tables as [| t tables IH]; intros b b' Hnodup Hnone H.
  - injection H as <-. split; [reflexivity |]. split; [| auto].
    intros t Ht. now apply elem_of_nil in Ht.
  - cbn [forM_] in H. apply bind_Done in H as ([] & b1 & H1 & H).
    rewrite fmap_cons in Hnodup. apply NoDup_cons in Hnodup as [Hfresh Hnodup].
    apply prepareTable_Done in H1 as (Hacc & Htab1 & Hnames1 & Htx1);
      [| apply Hnone; left].
    destruct (IH b1 b' Hnodup) as (Htx & Hin & Hout); [| exact H |].
    { intros t' Ht'. rewrite Hnames1, lookup_insert_ne; [apply Hnone; now right |].
      intros Heq. apply Hfresh. rewrite Heq. now apply list_elem_of_fmap_2. }
    split; [congruence |]. split.
    + intros t' Ht'. apply elem_of_cons in Ht' as [-> | Ht'].
      * destruct (Hout (ti_oid t) Hfresh) as [-> ->].
        rewrite Htab1, Hnames1, !lookup_insert_eq. auto.
      * rewrite <- Htx1. now apply Hin.
    + intros oid Hoid. rewrite fmap_cons in Hoid.
      apply not_elem_of_cons in Hoid as [Hne Hoid].
      destruct (Hout oid Hoid) as [-> ->].
      rewrite Htab1, Hnames1, !lookup_insert_ne by congruence. auto.
Qed.

Definition table_fields (b : LogicalBackup) :=
  (backupTables b, names b, transactionCommitLSN b).

Lemma frame_tables_flushOidNameMap : frame False table_fields (flushOidNameMap W).
Proof. frame_auto. Qed.

Lemma frame_tables_writeRestartLSN : frame False table_fields (writeRestartLSN W).
Proof. frame_auto. Qed.

Lemma frame_tables_sendStatus : frame False table_fields (sendStatus W).
Proof. frame_auto. Qed.

(** X13.  After a successful start the registry holds exactly the
    tables of the publication (the rows having distinct OIDs): each has a
    fresh writer under its OID, carrying its name, and a name history of
    one entry, its name at LSN 0 (no transaction has been seen yet); no
    other OID has a writer or a history.  The start succeeds only if the
    writer of every table could be created and every replica identity that
    had to be changed could be, and, when the publication is empty, only if
    new tables are tracked. *)
Theorem start_registers_publication_tables (c : config.Config) (b : LogicalBackup)
    (tables : list tableInfo) :
  publicationTables S = Some tables ->
  NoDup (ti_oid <$> tables) ->
  New W c S = Done tt b ->
  (tables = [] -> config.TrackNewTables c = true) /\
  (forall t, t ∈ tables ->
     table_accepted t /\
     backupTables b !! ti_oid t = Some (tablebackup.New (ti_name t) (ti_oid t)) /\
     names b !! ti_oid t = Some [mkNameAtLSN (ti_name t) 0]) /\
  (forall oid, oid ∉ ti_oid <$> tables ->
     backupTables b !! oid = None /\ names b !! oid = None).
Proof.
  intros Htables Hnodup Hnew.
  set (Q := fun (_ : unit) (b : LogicalBackup) =>
    (tables = [] -> config.TrackNewTables c = true) /\
    (forall t, t ∈ tables ->
       table_accepted t /\
       backupTables b !! ti_oid t = Some (tablebackup.New (ti_name t) (ti_oid t)) /\
       names b !! ti_oid t = Some [mkNameAtLSN (ti_name t) 0]) /\
    (forall oid, oid ∉ ti_oid <$> tables ->
       backupTables b !! oid = None /\ names b !! oid = None)).
  refine (wp_Done _ _ Q (fun _ => True) True _ _ _ Hnew).
  assert (Hprep : forall b0, table_fields b0 = (∅, ∅, 0) -> cfg b0 = c ->
            wp (prepareTablesForPublication W S) b0 Q (fun _ => True) True).
  { intros b0 [= Htab0 Hnames0 Htx0] Hcfg0.
    unfold prepareTablesForPublication. apply wp_bind, wp_get. rewrite Htables.
    destruct (_ && _) eqn:Hempty; [exact I |].
    apply wp_bind. apply wp_of_Done. intros [] b1 H1.
    fold prepareTable in H1.
    change (forM_ tables prepareTable b0 = Done tt b1) in H1.
    apply prepareTables_Done in H1 as (Htx & Hin & Hout);
      [| exact Hnodup | intros; rewrite Hnames0; apply lookup_empty].
    apply wp_bind.
    eapply (wp_attempt_frame table_fields) with (X := False);
      [apply frame_tables_flushOidNameMap | | tauto].
    intros r b2 [= Htab2 Hnames2 Htx2]. apply wp_skip. unfold Q.
    rewrite Htab2, Hnames2. rewrite Htx0 in Hin. split; [| split].
    - intros ->. rewrite Hcfg0 in Hempty. cbn in Hempty.
      now destruct (config.TrackNewTables c).
    - exact Hin.
    - intros oid Hoid. destruct (Hout oid Hoid) as [-> ->].
      rewrite Htab0, Hnames0. split; apply lookup_empty. }
  unfold prepareDB.
  destruct (negb (connect_ok S)); [exact I |].
  destruct (negb (publication_ok S)); [exact I |].
  destruct (slotFlushLSN S) as [flushLSN |]; [| exact I].
  apply wp_bind, wp_modify, wp_bind.
  destruct (negb (IsValid flushLSN)).
  - destruct (createdSlot S) as [initialLSN |]; [| exact I].
    apply wp_bind, wp_modify, wp_bind.
    eapply (wp_attempt_frame (fun b => (table_fields b, cfg b))) with (X := False);
      [frame_auto | | tauto].
    intros r b1 [= H1 H2 H3 H4]. apply wp_skip, Hprep; [| exact H4].
    unfold table_fields. now rewrite H1, H2, H3.
  - destruct (restartLSN S) as [restart |]; [| exact I].
    apply wp_bind.
    eapply (wp_frame (fun b => (table_fields b, cfg b))) with (X := False);
      [frame_auto | | auto | tauto].
    intros _ b1 [= H1 H2 H3 H4]. apply wp_bind.
    eapply (wp_attempt_frame (fun b => (table_fields b, cfg b))) with (X := False);
      [frame_auto | | tauto].
    intros r b2 [= H1' H2' H3' H4']. apply wp_skip, Hprep; [| congruence].
    unfold table_fields. rewrite H1', H2', H3', H1, H2, H3. reflexivity.
Qed.

End PublicationTables.

Lemma start_registers_publication_tables_witness :
  New world_ok cfg_example startup_existing = Done tt started_with_table /\
  backupTables started_with_table !! 16384%N
    = Some (tablebackup.New (message.mkNamespacedName "public" "t") 16384%N) /\
  names started_with_table !! 16384%N
    = Some [mkNameAtLSN (message.mkNamespacedName "public" "t") 0] /\
  backupTables started_with_table !! 16385%N = None.
Proof.
  assert (H : New world_ok cfg_example startup_existing = Done tt started_with_table)
    by (vm_compute; reflexivity).
  split; [exact H |].
  destruct (start_registers_publication_tables world_ok startup_existing cfg_example
              started_with_table _ eq_refl (NoDup_singleton 16384%N) H)
    as (_ & Hin & Hout).
  destruct (Hin _ (list_elem_of_here _ _)) as (_ & Htab & Hnames).
  split; [exact Htab |]. split; [exact Hnames |].
  apply Hout. intros Hmem. apply list_elem_of_singleton in Hmem. discriminate Hmem.
Defined.

Section ReplicaIdentities.

(** The table as the database holds it once its replica identity has been
    set to the target. *)
Definition altered (t : tableInfo) : tableInfo :=
  mkTableInfo (ti_oid t) (ti_name t) (ti_hasPK t) (targetReplicaIdentity t).

(** X14.  The replica identity the start-up gives a table: DEFAULT when
    the table has a primary key; otherwise INDEX when it is INDEX already,
    and FULL in every other case.  The choice is stable: for a table whose
    replica identity has been set to the target, the target is the identity
    it has, so the next start issues no ALTER TABLE for it. *)
Theorem targetReplicaIdentity_settles (t : tableInfo) :
  targetReplicaIdentity (altered t) = ti_replicaIdentity (altered t) /\
  (ti_hasPK t = true -> targetReplicaIdentity t = ReplicaIdentityDefault) /\
  (ti_hasPK t = false ->
   targetReplicaIdentity t =
     if decide (ti_replicaIdentity t = ReplicaIdentityIndex)
     then ReplicaIdentityIndex else ReplicaIdentityFull).
Proof.
  unfold targetReplicaIdentity, altered. destruct t as [oid name hasPK ri]. cbn.
  destruct hasPK, ri; cbn; repeat split; intros; first [reflexivity | discriminate].
Qed.

End ReplicaIdentities.


(* ------------------------------------------------------------------ *)
(** ** The state file *)

(** *** File names *)

Lemma string_length_app (s1 s2 : string) :
  String.length (s1 ++ s2) = (String.length s1 + String.length s2)%nat.
Proof.
  induction s1 as [| a s1 IH]; [reflexivity |].
  change (S (String.length (s1 ++ s2)) = S (String.length s1 + String.length s2)).
  now rewrite IH.
Qed.

(** The seventh character from the end of a string. *)
Definition tail7 (s : string) : option Ascii.ascii :=
  String.get (String.length s - 7) s.

Lemma tail7_app (s1 s2 : string) :
  (7 <= String.length s2)%nat -> tail7 (s1 ++ s2) = tail7 s2.
Proof.
  intros Hlen. unfold tail7. rewrite string_length_app.
  rewrite (String.append_correct2 s1 s2). f_equal. lia.
Qed.

Lemma tail7_path_Join (dir file : string) :
  (7 <= String.length file)%nat -> tail7 (path_Join dir file) = tail7 file.
Proof.
  intros Hlen. unfold path_Join. destruct (decide (dir = "")); [reflexivity |].
  rewrite tail7_app; [apply (tail7_app "/" file Hlen) |].
  rewrite string_length_app. cbn. lia.
Qed.

(** The state file and the name map are different files, whatever the
    directories. *)
Lemma stateFile_not_OidNameMapFile (dir dir' : string) :
  path_Join dir stateFile <> path_Join dir' OidNameMapFile.
Proof.
  intros Heq. apply (f_equal tail7) in Heq.
  rewrite !tail7_path_Join in Heq by (cbn; lia). discriminate Heq.
Qed.
Section StateFile.

Variable W : World.

(** The calls of a complete write of the state file in [dir]. *)
Definition stateFile_calls (dir : string) (l : LSN) : list FsCall :=
  let name := path_Join dir stateFile in
  [OpenFile name; Encode name (StateInfoDoc l); SyncFileAndDirectory name].

Lemma writeStateFile_Done dir b b' :
  writeStateFile W dir b = Done tt b' <->
  fs_ok W (OpenFile (path_Join dir stateFile)) = true /\
  fs_ok W (Encode (path_Join dir stateFile) (StateInfoDoc (latestFlushLSN b))) = true /\
  b' = set_fsLog (fsLog b ++ stateFile_calls dir (latestFlushLSN b)) b.
Proof.
  unfold writeStateFile, stateFile_calls, mbind, M_bind, get, fsCall, fail, skip, mret, M_ret.
  cbn. destruct (fs_ok W (OpenFile _)); cbn; [| split; [discriminate | now intros [? _]]].
  destruct (fs_ok W (Encode _ _)); cbn; [| split; [discriminate | now intros (_ & ? & _)]].
  rewrite <- !app_assoc. cbn.
  split; [intros [= <-]; auto | intros (_ & _ & ->); reflexivity].
Qed.

Lemma filesAfter_stateFile_calls files dir l :
  fs_ok W (OpenFile (path_Join dir stateFile)) = true ->
  fs_ok W (Encode (path_Join dir stateFile) (StateInfoDoc l)) = true ->
  filesAfter W files (stateFile_calls dir l)
  = <[path_Join dir stateFile := Holds (StateInfoDoc l)]> files.
Proof.
  intros Hopen Henc. unfold filesAfter, stateFile_calls. cbn.
  rewrite Hopen, Henc. apply insert_insert_eq.
Qed.

Lemma filesAfter_app files calls1 calls2 :
  filesAfter W files (calls1 ++ calls2) = filesAfter W (filesAfter W files calls1) calls2.
Proof. apply foldl_app. Qed.

(** The calls of a complete [writeRestartLSN]: the state file of the
    staging directory, when one is configured, then that of the archive
    directory. *)
Definition restartLSN_calls (c : config.Config) (l : LSN) : list FsCall :=
  (if decide (config.StagingDir c = "") then []
   else stateFile_calls (config.StagingDir c) l)
  ++ stateFile_calls (config.ArchiveDir c) l.

(** X15.  What [writeRestartLSN] writes, [readRestartLSN] reads back.
    A successful write has made exactly the calls of [restartLSN_calls]
    and changed nothing else of the engine; on the files as these calls
    leave them (whatever they held before), the state file of the archive
    directory holds the engine's [latestFlushLSN], so does the state file of
    the staging directory when one is configured, and no other file is
    touched; and with the state file of the base directory readable,
    [readRestartLSN] returns that LSN.  (The state document stands for its
    YAML text, and the LSN in it for its "X/Y" text: encoding and parsing
    are taken to be inverse.) *)
Theorem restart_lsn_round_trip (files : gmap string FileContent)
    (readable : string -> bool) (b b' : LogicalBackup) :
  writeRestartLSN W b = Done tt b' ->
  readable (path_Join (baseDir b) stateFile) = true ->
  let l := latestFlushLSN b in
  let staging := path_Join (config.StagingDir (cfg b)) stateFile in
  let archive := path_Join (config.ArchiveDir (cfg b)) stateFile in
  let calls := restartLSN_calls (cfg b) l in
  let files' := filesAfter W files calls in
  b' = set_fsLog (fsLog b ++ calls) b /\
  files' !! archive = Some (Holds (StateInfoDoc l)) /\
  (config.StagingDir (cfg b) <> "" -> files' !! staging = Some (Holds (StateInfoDoc l))) /\
  (forall name,
     name <> archive -> (config.StagingDir (cfg b) = "" \/ name <> staging) ->
     files' !! name = files !! name) /\
  readRestartLSN files' readable b' = Some l.
Proof.
  intros Hwrite Hread. cbv zeta. unfold writeRestartLSN in Hwrite.
  rewrite bind_get in Hwrite. unfold baseDir in Hread.
  unfold readRestartLSN, baseDir, restartLSN_calls.
  destruct (decide (config.StagingDir (cfg b) = "")) as [Hnone | Hstaging].
  - rewrite bind_skip in Hwrite.
    apply writeStateFile_Done in Hwrite as (Hopen & Henc & ->).
    cbn [app cfg set_fsLog].
    rewrite decide_True by exact Hnone.
    rewrite filesAfter_stateFile_calls by assumption.
    split; [reflexivity |]. split; [apply lookup_insert_eq |].
    split; [intros Hne; now destruct Hne |].
    split; [intros name Hne _; now apply lookup_insert_ne |].
    rewrite lookup_insert_eq, Hread. reflexivity.
  - apply bind_Done in Hwrite as ([] & b1 & H1 & H2).
    apply writeStateFile_Done in H1 as (Hopen1 & Henc1 & ->).
    apply writeStateFile_Done in H2 as (Hopen2 & Henc2 & ->).
    cbn [latestFlushLSN set_fsLog fsLog cfg] in *.
    rewrite decide_False by exact Hstaging.
    rewrite filesAfter_app.
    rewrite !filesAfter_stateFile_calls by assumption.
    assert (Hstaged :
              <[path_Join (config.ArchiveDir (cfg b)) stateFile
                  := Holds (StateInfoDoc (latestFlushLSN b))]>
                (<[path_Join (config.StagingDir (cfg b)) stateFile
                     := Holds (StateInfoDoc (latestFlushLSN b))]> files)
              !! path_Join (config.StagingDir (cfg b)) stateFile
              = Some (Holds (StateInfoDoc (latestFlushLSN b)))).
    { destruct (decide (path_Join (config.ArchiveDir (cfg b)) stateFile
                        = path_Join (config.StagingDir (cfg b)) stateFile)) as [Heq | Hne].
      - rewrite Heq. apply lookup_insert_eq.
      - rewrite lookup_insert_ne by exact Hne. apply lookup_insert_eq. }
    split; [now rewrite app_assoc |]. split; [apply lookup_insert_eq |].
    split; [intros _; exact Hstaged |].
    split.
    + intros name Hne [Hno | Hne']; [contradiction |].
      rewrite !lookup_insert_ne by congruence. reflexivity.
    + rewrite Hstaged, Hread. reflexivity.
Qed.


(** The state file in the engine's base directory holds the flush LSN,
    if the file exists: [files] are the files before the first logged
    call. *)
Definition persisted (files : gmap string FileContent) (b : LogicalBackup) : Prop :=
  forall content,
    filesAfter W files (fsLog b) !! path_Join (baseDir b) stateFile = Some content ->
    content = Holds (StateInfoDoc (latestFlushLSN b)).

(** The state file exists and holds the flush LSN. *)
Definition held (files : gmap string FileContent) (b : LogicalBackup) : Prop :=
  filesAfter W files (fsLog b) !! path_Join (baseDir b) stateFile
  = Some (Holds (StateInfoDoc (latestFlushLSN b))).

Definition file_fields (b : LogicalBackup) := (cfg b, latestFlushLSN b, fsLog b).

Lemma persisted_fields files b b' :
  file_fields b' = file_fields b -> persisted files b -> persisted files b'.
Proof.
  unfold persisted, file_fields, baseDir. intros [= -> -> ->]. auto.
Qed.

Lemma held_persisted files b : held files b -> persisted files b.
Proof. unfold held, persisted. intros -> content [= <-]. reflexivity. Qed.

Hypothesis fs_always_ok : forall c, fs_ok W c = true.

Lemma filesAfter_other files name calls :
  Forall (fun c => FsCall_name c <> name) calls ->
  filesAfter W files calls !! name = files !! name.
Proof.
  unfold filesAfter. revert files.
  induction calls as [| c calls IH]; intros files Hall; [reflexivity |].
  apply Forall_cons in Hall as [Hc Hall]. cbn [foldl]. rewrite IH by exact Hall.
  destruct c as [n | n doc | n]; cbn in *; rewrite ?fs_always_ok;
    rewrite ?lookup_insert_ne by exact Hc; reflexivity.
Qed.

Lemma writeRestartLSN_Done b :
  exists calls,
    writeRestartLSN W b = Done tt (set_fsLog (fsLog b ++ calls) b) /\
    forall files,
      filesAfter W files calls !! path_Join (baseDir b) stateFile
      = Some (Holds (StateInfoDoc (latestFlushLSN b))).
Proof.
  unfold writeRestartLSN, baseDir. rewrite bind_get.
  destruct (decide (config.StagingDir (cfg b) = "")) as [Hnone | Hstaging].
  - exists (stateFile_calls (config.ArchiveDir (cfg b)) (latestFlushLSN b)).
    rewrite bind_skip. split.
    + apply writeStateFile_Done. auto.
    + intros files. rewrite filesAfter_stateFile_calls by apply fs_always_ok.
      apply lookup_insert_eq.
  - exists (stateFile_calls (config.StagingDir (cfg b)) (latestFlushLSN b)
            ++ stateFile_calls (config.ArchiveDir (cfg b)) (latestFlushLSN b)).
    split.
    + unfold mbind, M_bind.
      rewrite (proj2 (writeStateFile_Done (config.StagingDir (cfg b)) b _))
        by (repeat split; apply fs_always_ok).
      rewrite app_assoc. apply writeStateFile_Done. auto.
    + intros files. rewrite filesAfter_app.
      rewrite !filesAfter_stateFile_calls by apply fs_always_ok.
      destruct (decide (path_Join (config.ArchiveDir (cfg b)) stateFile
                        = path_Join (config.StagingDir (cfg b)) stateFile)) as [Heq | Hne].
      * rewrite Heq. apply lookup_insert_eq.
      * rewrite lookup_insert_ne by exact Hne. apply lookup_insert_eq.
Qed.

(** The state file exists. *)
Definition written (files : gmap string FileContent) (b : LogicalBackup) : Prop :=
  is_Some (filesAfter W files (fsLog b) !! path_Join (baseDir b) stateFile).

Lemma held_iff files b : held files b <-> persisted files b /\ written files b.
Proof.
  unfold held, persisted, written. split.
  - intros ->. split; [now intros content [= <-] | eauto].
  - intros [Hp [content Hc]]. now rewrite Hc, (Hp content Hc).
Qed.

(** From [b] to [b']: the configuration is kept, a state file that holds
    the flush LSN keeps holding it, a state file that exists keeps
    existing, and it exists when the flush LSN has changed. *)
Definition keeps_persisted (files : gmap string FileContent) : relation LogicalBackup :=
  fun b b' =>
    cfg b' = cfg b /\
    (persisted files b -> persisted files b') /\
    (written files b -> written files b') /\
    (latestFlushLSN b' <> latestFlushLSN b -> written files b').

#[global] Instance keeps_persisted_preorder files : PreOrder (keeps_persisted files).
Proof.
  split.
  - intros b. repeat split; auto. congruence.
  - intros b1 b2 b3 (Hc & Hp & Hw & Hn) (Hc' & Hp' & Hw' & Hn').
    split; [congruence |]. split; [auto |]. split; [auto |].
    intros Hne. destruct (decide (latestFlushLSN b3 = latestFlushLSN b2)) as [Heq | Hne'];
      [apply Hw', Hn; congruence | now apply Hn'].
Qed.

Lemma keeps_persisted_fields files b b' :
  file_fields b' = file_fields b -> keeps_persisted files b b'.
Proof.
  intros H. split; [now injection H |]. split; [now apply persisted_fields |].
  unfold written, baseDir. injection H as -> Hl ->. split; [auto | congruence].
Qed.

Lemma keeps_persisted_lookup files b b' :
  cfg b' = cfg b -> latestFlushLSN b' = latestFlushLSN b ->
  filesAfter W files (fsLog b') !! path_Join (baseDir b) stateFile
  = filesAfter W files (fsLog b) !! path_Join (baseDir b) stateFile ->
  keeps_persisted files b b'.
Proof.
  intros Hcfg Hlatest Hlook. unfold keeps_persisted, persisted, written, baseDir in *.
  rewrite Hcfg, Hlatest, Hlook. repeat split; auto. congruence.
Qed.

Lemma keeps_persisted_held files b b' :
  cfg b' = cfg b -> held files b' -> keeps_persisted files b b'.
Proof.
  intros Hcfg Hheld. apply held_iff in Hheld as [Hp Hw]. repeat split; auto.
Qed.

Lemma flushOidNameMap_persisted files :
  steps True (keeps_persisted files) (flushOidNameMap W).
Proof.
  intros b. destruct (isChanged (tableNameChanges b)) eqn:Hdirty.
  - pose proof (flushOidNameMap_dirty W b Hdirty) as Heq. rewrite !fs_always_ok in Heq.
    unfold wp. rewrite Heq. cbn [andb].
    apply keeps_persisted_lookup;
      [unfold flushed; rewrite fs_always_ok; reflexivity..|].
    unfold flushed, oidNameMap_calls, oidNameMap_file. cbn [fsLog set_fsLog set_tableNameChanges].
    rewrite filesAfter_app.
    apply (filesAfter_other _ (path_Join (baseDir b) stateFile)).
    repeat constructor; cbn; intros Heq'; symmetry in Heq';
      exact (stateFile_not_OidNameMapFile _ _ Heq').
  - unfold wp. rewrite flushOidNameMap_clean by exact Hdirty. reflexivity.
Qed.

Lemma frame_file_sendStatus : frame False file_fields (sendStatus W).
Proof. frame_auto. Qed.

Lemma advanceFlushLSN_persisted files :
  steps True (keeps_persisted files) (advanceFlushLSN W).
Proof.
  intros b. unfold advanceFlushLSN. apply wp_bind, wp_get. cbv zeta.
  destruct (latestFlushLSN b <? getNextFlushLSN b); [| apply wp_ret; reflexivity].
  apply wp_bind, wp_modify. set (b1 := set_latestFlushLSN _ b).
  destruct (writeRestartLSN_Done b1) as (calls & Hwrite & Hfiles).
  apply wp_bind, wp_attempt. unfold wp at 1. rewrite Hwrite.
  set (b2 := set_fsLog _ b1).
  assert (Hheld : held files b2).
  { unfold held. subst b2. cbn [fsLog set_fsLog]. rewrite filesAfter_app. apply Hfiles. }
  eapply (wp_attempt_frame file_fields) with (X := True);
    [intros b0; eapply wp_mono; [apply frame_file_sendStatus | | | ]; auto | | auto].
  intros r b3 H3. apply keeps_persisted_held; [now injection H3 |].
  unfold held, baseDir in *. injection H3 as -> -> ->. exact Hheld.
Qed.

End StateFile.

Ltac persisted_step :=
  lazymatch goal with
  | |- steps _ (keeps_persisted _ _) (modify _) =>
      apply steps_modify; intros; apply keeps_persisted_fields; reflexivity
  end.

Ltac persisted_auto := repeat (first [persisted_step | steps_step | steps_unfold]).





Section StateFileKept.

Variable W : World.
Hypothesis fs_always_ok : forall c, fs_ok W c = true.
Variable files : gmap string FileContent.

Lemma handler_persisted m walStart :
  steps True (keeps_persisted W files) (handler W m walStart).
Proof.
  destruct m as [v | v | v | v | v | v | | | raw]; try (persisted_auto; fail).
  intros b. unfold wp. rewrite handler_commit_parts.
  set (b0 := set_currentLSN _ _).
  assert (H0 : keeps_persisted W files b b0) by (apply keeps_persisted_fields; reflexivity).
  assert (Hsteps : steps True (keeps_persisted W files)
            (commitRecords W v;; attempt (flushOidNameMap W);;
             sent ← advanceFlushLSN W; updateMetricsOnCommit;;
             if (sent : bool) then skip else fail)).
  { apply steps_bind; [typeclasses eauto | persisted_auto | intros ?].
    apply steps_bind;
      [typeclasses eauto
      | apply steps_attempt, flushOidNameMap_persisted, fs_always_ok | intros ?].
    apply steps_bind;
      [typeclasses eauto | apply advanceFlushLSN_persisted, fs_always_ok | intros ?].
    persisted_auto. }
  specialize (Hsteps b0). unfold wp in Hsteps.
  match type of Hsteps with match ?c with _ => _ end =>
    destruct c;
      [etrans; [exact H0 | exact Hsteps] | etrans; [exact H0 | exact Hsteps] | exact I]
  end.
Qed.

Lemma sendStatus_persisted : steps True (keeps_persisted W files) (sendStatus W).
Proof. persisted_auto. Qed.

(** X16.  When the calls on the file system succeed, the state file
    follows the flush LSN: if the state file of the base directory, where
    it exists, holds [latestFlushLSN] before the receive loop runs, it does
    so after any number of turns; and when the loop has changed
    [latestFlushLSN], the file exists and holds the new value.  So a restart
    that reads the file resumes from the last flush LSN. *)
Theorem state_file_tracks_flush_lsn (turns : list Turn) (b : LogicalBackup) :
  persisted W files b ->
  match logicalDecodingLoop W turns b with
  | Done _ b' | Failed b' =>
      persisted W files b' /\
      (latestFlushLSN b' <> latestFlushLSN b -> held W files b')
  | Panicked => True
  end.
Proof.
  intros Hp.
  pose proof (logicalDecodingLoop_steps W (keeps_persisted W files)
                handler_persisted sendStatus_persisted turns b) as H.
  unfold wp in H.
  destruct (logicalDecodingLoop W turns b) as [r b' | b' |]; [| | exact I];
    destruct H as (_ & Hp' & _ & Hn);
    (split; [now apply Hp' | intros Hne; apply held_iff; auto]).
Qed.

Lemma prepareTablesForPublication_persisted S :
  steps True (keeps_persisted W files) (prepareTablesForPublication W S).
Proof.
  unfold prepareTablesForPublication.
  repeat first [apply flushOidNameMap_persisted, fs_always_ok
               | persisted_step | steps_step | steps_unfold].
Qed.

(** X17.  When the calls on the file system succeed, a start that
    creates the replication slot leaves the state file holding the
    engine's [latestFlushLSN] (the consistent point minus one), and has
    sent no standby status. *)
Theorem fresh_start_state_file (c : config.Config) (S : Startup) (l : LSN)
    (b : LogicalBackup) :
  slotFlushLSN S = Some l -> IsValid l = false ->
  New W c S = Done tt b ->
  held W files b /\ standbyStatuses b = [].
Proof.
  intros Hslot Hinvalid Hnew.
  refine (wp_Done _ _ (fun _ b' => held W files b' /\ standbyStatuses b' = [])
            (fun _ => True) True _ _ _ Hnew).
  unfold prepareDB.
  destruct (negb (connect_ok S)); [exact I |].
  destruct (negb (publication_ok S)); [exact I |].
  rewrite Hslot. apply wp_bind, wp_modify. rewrite Hinvalid. cbn [negb].
  destruct (createdSlot S) as [initialLSN |]; [| exact I].
  apply wp_bind, wp_bind, wp_modify. set (b1 := set_latestFlushLSN _ _).
  destruct (writeRestartLSN_Done W fs_always_ok b1) as (calls & Hwrite & Hfiles).
  apply wp_bind, wp_attempt. unfold wp at 1. rewrite Hwrite.
  set (b2 := set_fsLog _ b1). apply wp_skip.
  assert (Hheld : held W files b2).
  { unfold held. subst b2. cbn [fsLog set_fsLog]. rewrite filesAfter_app. apply Hfiles. }
  pose proof (prepareTablesForPublication_persisted S b2) as Hkeeps.
  pose proof (frame_start_prepareTablesForPublication W S b2) as Hframe.
  unfold wp, kept, start_fields in *.
  destruct (prepareTablesForPublication W S b2) as [[] b3 | b3 |]; [| exact I..].
  destruct Hkeeps as (_ & Hp & Hw & _). apply held_iff in Hheld as [Hp2 Hw2].
  split; [apply held_iff; auto |]. now injection Hframe.
Qed.

End StateFileKept.

Lemma restart_lsn_round_trip_witness :
  let b := set_latestFlushLSN 1280 (initial cfg_example) in
  let calls :=
    [OpenFile "staging/state.yaml";
     Encode "staging/state.yaml" (StateInfoDoc 1280);
     SyncFileAndDirectory "staging/state.yaml";
     OpenFile "archive/state.yaml";
     Encode "archive/state.yaml" (StateInfoDoc 1280);
     SyncFileAndDirectory "archive/state.yaml"] in
  let files := {["staging/state.yaml" := Holds (StateInfoDoc 768);
                 "archive/state.yaml" := Damaged]} : gmap string FileContent in
  writeRestartLSN world_ok b = Done tt (set_fsLog calls b) /\
  filesAfter world_ok files calls !! "archive/state.yaml" = Some (Holds (StateInfoDoc 1280)) /\
  filesAfter world_ok files calls !! "staging/state.yaml" = Some (Holds (StateInfoDoc 1280)) /\
  readRestartLSN (filesAfter world_ok files calls) (fun _ => true)
    (set_fsLog calls b) = Some 1280.
Proof.
  cbv zeta.
  assert (H : writeRestartLSN world_ok (set_latestFlushLSN 1280 (initial cfg_example))
              = Done tt (set_fsLog
                   [OpenFile "staging/state.yaml";
                    Encode "staging/state.yaml" (StateInfoDoc 1280);
                    SyncFileAndDirectory "staging/state.yaml";
                    OpenFile "archive/state.yaml";
                    Encode "archive/state.yaml" (StateInfoDoc 1280);
                    SyncFileAndDirectory "archive/state.yaml"]
                   (set_latestFlushLSN 1280 (initial cfg_example))))
    by (vm_compute; reflexivity).
  split; [exact H |].
  destruct (restart_lsn_round_trip world_ok
              {["staging/state.yaml" := Holds (StateInfoDoc 768);
                "archive/state.yaml" := Damaged]}
              (fun _ => true) _ _ H eq_refl)
    as (_ & Harchive & Hstaging & _ & Hread).
  split; [exact Harchive |]. split; [exact (Hstaging ltac:(discriminate)) | exact Hread].
Defined.

Lemma state_file_tracks_flush_lsn_witness :
  held world_ok ∅ started /\
  match logicalDecodingLoop world_ok [Tick] started with
  | Done _ b' | Failed b' =>
      persisted world_ok ∅ b' /\
      (latestFlushLSN b' <> latestFlushLSN started -> held world_ok ∅ b')
  | Panicked => True
  end.
Proof.
  assert (H : held world_ok ∅ started) by (vm_compute; reflexivity).
  split; [exact H |].
  exact (state_file_tracks_flush_lsn world_ok (fun _ => eq_refl) ∅ [Tick] started
           (held_persisted world_ok ∅ started H)).
Defined.

Lemma fresh_start_state_file_witness :
  New world_ok cfg_example (startup_fresh 1280) = Done tt started /\
  held world_ok ∅ started /\ standbyStatuses started = [].
Proof.
  assert (H : New world_ok cfg_example (startup_fresh 1280) = Done tt started)
    by (vm_compute; reflexivity).
  split; [exact H |].
  exact (fresh_start_state_file world_ok (fun _ => eq_refl) ∅ cfg_example
           (startup_fresh 1280) InvalidLSN started eq_refl eq_refl H).
Defined.

(* ------------------------------------------------------------------ *)
(** ** Directories, the loop, and the configuration *)

Section Directories.

Variable D : DirWorld.

(** X18.  [createDirs] only adds directories; every directory it adds is
    a non-empty one of its arguments that did not exist and that [os.Mkdir]
    could create; and when it returns nil, every non-empty argument exists
    afterwards and could be examined.  Empty names are skipped. *)
Theorem createDirs_creates (dirs : list string) (existing : gset string) :
  existing ⊆ (createDirs D dirs existing).1 /\
  (forall dir, dir ∈ (createDirs D dirs existing).1 ->
     dir ∈ existing \/ (dir ∈ dirs /\ dir <> "" /\ mkdir_ok D dir = true)) /\
  ((createDirs D dirs existing).2 = true ->
   forall dir, dir ∈ dirs -> dir <> "" ->
     dir ∈ (createDirs D dirs existing).1 /\ stat_fails D dir = false).
Proof.
  revert existing. induction dirs as [| d dirs IH]; intros existing; cbn [createDirs].
  - split; [reflexivity |]. split; [auto |]. intros _ dir Hin. now apply elem_of_nil in Hin.
  - destruct (decide (d = "")) as [-> | Hd].
    { destruct (IH existing) as (Hsub & Hnew & Hok). split; [exact Hsub |]. split.
      - intros dir Hdir. destruct (Hnew dir Hdir) as [? | (? & ? & ?)]; [now left |].
        right. split; [now right | auto].
      - intros Hres dir Hin Hne. apply elem_of_cons in Hin as [-> | Hin]; [congruence |].
        now apply Hok. }
    destruct (stat_fails D d) eqn:Hstat.
    { cbn. split; [reflexivity |]. split; [auto | discriminate]. }
    destruct (decide (d ∈ existing)) as [Hex | Hnex].
    { destruct (IH existing) as (Hsub & Hnew & Hok). split; [exact Hsub |]. split.
      - intros dir Hdir. destruct (Hnew dir Hdir) as [? | (? & ? & ?)]; [now left |].
        right. split; [now right | auto].
      - intros Hres dir Hin Hne. apply elem_of_cons in Hin as [-> | Hin]; [| now apply Hok].
        split; [now apply Hsub | exact Hstat]. }
    destruct (mkdir_ok D d) eqn:Hmk.
    2: { cbn. split; [reflexivity |]. split; [auto | discriminate]. }
    destruct (IH ({[d]} ∪ existing)) as (Hsub & Hnew & Hok). split; [| split].
    + etrans; [| exact Hsub]. apply union_subseteq_r.
    + intros dir Hdir. destruct (Hnew dir Hdir) as [Hin | (? & ? & ?)].
      * apply elem_of_union in Hin as [Hin | Hin]; [| now left].
        apply elem_of_singleton in Hin as ->. right. split; [now left | auto].
      * right. split; [now right | auto].
    + intros Hres dir Hin Hne. apply elem_of_cons in Hin as [-> | Hin]; [| now apply Hok].
      split; [| exact Hstat]. apply Hsub, elem_of_union. left. now apply elem_of_singleton.
Qed.

End Directories.

Section LoopReturns.

Variable W : World.

(** The engine after a call of [sendStatus], whether the status could be
    sent or not. *)
Definition statusHanded (b : LogicalBackup) : LogicalBackup :=
  set_standbyStatuses (standbyStatuses b ++ [latestFlushLSN b])
    (set_bytesWritten 0 (set_msgCnt ∅ b)).

(** The test of the loop on a WAL frame: it has been flushed already. *)
Definition replayed (wal : WalMessage) (b : LogicalBackup) : bool :=
  IsValid (WalStart wal) && (WalStart wal <=? latestFlushLSN b).

(** A delivered message reaches the check of its heartbeat in state [b1]:
    it carries no WAL frame, or its frame was decoded and [handler]
    returned nil. *)
Inductive handled (repMsg : ReplicationMessage) (b : LogicalBackup)
    : LogicalBackup -> Prop :=
| handled_no_frame :
    rm_WalMessage repMsg = None -> handled repMsg b b
| handled_frame wal logmsg b1 :
    rm_WalMessage repMsg = Some wal ->
    replayed wal b = false ->
    Parse W (WalData wal) = Some logmsg ->
    handler W logmsg (WalStart wal) b = Done tt b1 ->
    handled repMsg b b1.

(** The events that end the loop: turn [t], taken in state [b], returns
    in state [b'], after [b.stopCh <- struct{}{}] when [stop] is set. *)
Inductive returns : Turn -> LogicalBackup -> bool -> LogicalBackup -> Prop :=
| returns_ctx_done b :
    returns CtxDone b false b
| returns_canceled b :
    returns (Wait Canceled) b false b
| returns_receive_failed b :
    returns (Wait OtherError) b true b
| returns_tick_not_sent b :
    send_ok W (latestFlushLSN b) = false ->
    returns Tick b true (statusHanded b)
| returns_decode_failed repMsg wal b :
    rm_WalMessage repMsg = Some wal ->
    replayed wal b = false ->
    Parse W (WalData wal) = None ->
    returns (Wait (Delivered (Some repMsg))) b true b
| returns_handler_failed repMsg wal logmsg b b' :
    rm_WalMessage repMsg = Some wal ->
    replayed wal b = false ->
    Parse W (WalData wal) = Some logmsg ->
    handler W logmsg (WalStart wal) b = Failed b' ->
    returns (Wait (Delivered (Some repMsg))) b true b'
| returns_reply_not_sent repMsg b b1 :
    handled repMsg b b1 ->
    replyRequested repMsg = true ->
    send_ok W (latestFlushLSN b1) = false ->
    returns (Wait (Delivered (Some repMsg))) b true (statusHanded b1).

(** [handler] panics on the frame of turn [t], taken in state [b]. *)
Inductive panics : Turn -> LogicalBackup -> Prop :=
| panics_handler repMsg wal logmsg b :
    rm_WalMessage repMsg = Some wal ->
    replayed wal b = false ->
    Parse W (WalData wal) = Some logmsg ->
    handler W logmsg (WalStart wal) b = Panicked ->
    panics (Wait (Delivered (Some repMsg))) b.

Lemma attempt_sendStatus_eq b :
  attempt (sendStatus W) b = Done (send_ok W (latestFlushLSN b)) (statusHanded b).
Proof.
  unfold attempt. rewrite sendStatus_eq. cbv zeta. fold (statusHanded b).
  destruct (send_ok W _); reflexivity.
Qed.

Lemma tick_eq b :
  logicalDecodingTurn W Tick b =
  Done (if send_ok W (latestFlushLSN b) then Continue else Return true) (statusHanded b).
Proof.
  cbn [logicalDecodingTurn]. unfold mbind, M_bind. rewrite attempt_sendStatus_eq.
  destruct (send_ok W _); reflexivity.
Qed.

Lemma heartbeatReply_eq repMsg b :
  heartbeatReply W repMsg b =
  if replyRequested repMsg then
    Done (if send_ok W (latestFlushLSN b) then Continue else Return true) (statusHanded b)
  else Done Continue b.
Proof.
  unfold heartbeatReply. destruct (replyRequested repMsg); [| reflexivity].
  unfold mbind, M_bind. rewrite attempt_sendStatus_eq.
  destruct (send_ok W _); reflexivity.
Qed.

Lemma delivered_eq repMsg b :
  logicalDecodingTurn W (Wait (Delivered (Some repMsg))) b =
  match rm_WalMessage repMsg with
  | None => heartbeatReply W repMsg b
  | Some wal =>
      if replayed wal b then Done Continue b
      else
        match Parse W (WalData wal) with
        | None => Done (Return true) b
        | Some logmsg =>
            match handler W logmsg (WalStart wal) b with
            | Done _ b1 => heartbeatReply W repMsg b1
            | Failed b1 => Done (Return true) b1
            | Panicked => Panicked
            end
        end
  end.
Proof.
  cbn [logicalDecodingTurn]. unfold mbind at 1, M_bind at 1, get.
  destruct (rm_WalMessage repMsg) as [wal |]; [| reflexivity].
  unfold replayed. destruct (IsValid (WalStart wal) && _); [reflexivity |].
  destruct (Parse W (WalData wal)) as [logmsg |]; [| reflexivity].
  unfold mbind, M_bind, attempt.
  destruct (handler W logmsg (WalStart wal) b) as [[] b1 | b1 |]; reflexivity.
Qed.

Lemma logicalDecodingTurn_returns t b stop b' :
  logicalDecodingTurn W t b = Done (Return stop) b' <-> returns t b stop b'.
Proof.
  split.
  - destruct t as [| | [| | | [repMsg |]]].
    + intros [= <- <-]. constructor.
    + rewrite tick_eq. destruct (send_ok W _) eqn:Hsend; intros [= <- <-].
      now constructor.
    + discriminate.
    + intros [= <- <-]. constructor.
    + intros [= <- <-]. constructor.
    + rewrite delivered_eq. destruct (rm_WalMessage repMsg) as [wal |] eqn:Hwal.
      * destruct (replayed wal b) eqn:Hreplayed; [discriminate |].
        destruct (Parse W (WalData wal)) as [logmsg |] eqn:Hparse.
        2: { intros [= <- <-]. now apply returns_decode_failed with wal. }
        destruct (handler W logmsg (WalStart wal) b) as [[] b1 | b1 |] eqn:Hhandler;
          [| intros [= <- <-]; now apply returns_handler_failed with wal logmsg
           | discriminate].
        rewrite heartbeatReply_eq.
        destruct (replyRequested repMsg) eqn:Hreply; [| discriminate].
        destruct (send_ok W _) eqn:Hsend; intros [= <- <-].
        apply returns_reply_not_sent; [| assumption..].
        now apply handled_frame with wal logmsg.
      * rewrite heartbeatReply_eq.
        destruct (replyRequested repMsg) eqn:Hreply; [| discriminate].
        destruct (send_ok W _) eqn:Hsend; intros [= <- <-].
        apply returns_reply_not_sent; [| assumption..]. now apply handled_no_frame.
    + discriminate.
  - intros Hreturns.
    destruct Hreturns as [b | b | b | b Hsend | repMsg wal b Hwal Hreplayed Hparse
                         | repMsg wal logmsg b b' Hwal Hreplayed Hparse Hhandler
                         | repMsg b b1 Hhandled Hreply Hsend];
      try reflexivity.
    + rewrite tick_eq, Hsend. reflexivity.
    + rewrite delivered_eq, Hwal, Hreplayed, Hparse. reflexivity.
    + rewrite delivered_eq, Hwal, Hreplayed, Hparse, Hhandler. reflexivity.
    + rewrite delivered_eq.
      destruct Hhandled as [Hwal | wal logmsg b1 Hwal Hreplayed Hparse Hhandler].
      * rewrite Hwal, heartbeatReply_eq, Hreply, Hsend. reflexivity.
      * rewrite Hwal, Hreplayed, Hparse, Hhandler, heartbeatReply_eq, Hreply, Hsend.
        reflexivity.
Qed.

Lemma logicalDecodingTurn_panics t b :
  logicalDecodingTurn W t b = Panicked <-> panics t b.
Proof.
  split.
  - destruct t as [| | [| | | [repMsg |]]]; try discriminate.
    + rewrite tick_eq. discriminate.
    + rewrite delivered_eq. destruct (rm_WalMessage repMsg) as [wal |] eqn:Hwal.
      * destruct (replayed wal b) eqn:Hreplayed; [discriminate |].
        destruct (Parse W (WalData wal)) as [logmsg |] eqn:Hparse; [| discriminate].
        destruct (handler W logmsg (WalStart wal) b) as [[] b1 | b1 |] eqn:Hhandler;
          [| discriminate | intros _; now apply panics_handler with wal logmsg].
        rewrite heartbeatReply_eq. destruct (replyRequested repMsg); discriminate.
      * rewrite heartbeatReply_eq. destruct (replyRequested repMsg); discriminate.
  - intros [repMsg wal logmsg b0 Hwal Hreplayed Hparse Hhandler].
    rewrite delivered_eq, Hwal, Hreplayed, Hparse, Hhandler. reflexivity.
Qed.

Lemma logicalDecodingTurn_not_Failed t b :
  match logicalDecodingTurn W t b with Failed _ => False | _ => True end.
Proof.
  destruct t as [| | [| | | [repMsg |]]]; try exact I.
  - rewrite tick_eq. exact I.
  - rewrite delivered_eq. destruct (rm_WalMessage repMsg) as [wal |].
    + destruct (replayed wal b); [exact I |].
      destruct (Parse W (WalData wal)) as [logmsg |]; [| exact I].
      destruct (handler W logmsg (WalStart wal) b) as [[] b1 | b1 |]; try exact I.
      rewrite heartbeatReply_eq. destruct (replyRequested repMsg); exact I.
    + rewrite heartbeatReply_eq. destruct (replyRequested repMsg); exact I.
Qed.

Lemma logicalDecodingLoop_app (turns1 turns2 : list Turn) (b : LogicalBackup) :
  logicalDecodingLoop W (turns1 ++ turns2) b =
  match logicalDecodingLoop W turns1 b with
  | Done Continue b1 => logicalDecodingLoop W turns2 b1
  | r => r
  end.
Proof.
  revert b. induction turns1 as [| t turns1 IH]; intros b; [reflexivity |].
  cbn [app logicalDecodingLoop]. unfold mbind, M_bind.
  destruct (logicalDecodingTurn W t b) as [[| stop] b1 | b1 |]; [apply IH | reflexivity..].
Qed.

Lemma logicalDecodingLoop_cons t turns b :
  logicalDecodingLoop W (t :: turns) b =
  match logicalDecodingTurn W t b with
  | Done Continue b1 => logicalDecodingLoop W turns b1
  | r => r
  end.
Proof.
  cbn [logicalDecodingLoop]. unfold mbind, M_bind.
  destruct (logicalDecodingTurn W t b) as [[| stop] b1 | b1 |]; reflexivity.
Qed.

(** The turn at which the loop stops, and the state in which it is taken. *)
Definition stops_at (turns : list Turn) (b : LogicalBackup) (t : Turn)
    (b1 : LogicalBackup) : Prop :=
  exists turns1 turns2,
    turns = turns1 ++ t :: turns2 /\
    logicalDecodingLoop W turns1 b = Done Continue b1.

Lemma stops_at_later t0 turns b b0 t b1 :
  logicalDecodingTurn W t0 b = Done Continue b0 ->
  stops_at turns b0 t b1 -> stops_at (t0 :: turns) b t b1.
Proof.
  intros Hturn (turns1 & turns2 & -> & Hprefix).
  exists (t0 :: turns1), turns2. split; [reflexivity |].
  now rewrite logicalDecodingLoop_cons, Hturn.
Qed.

(** X19.  What ends the receive loop.  Run over the turns that come, the
    loop never hands an error to its caller.  It returns silently only at a
    turn whose context is done or whose wait was cancelled, in the state the
    turns before have left.  It returns after signalling [stopCh] only at a
    turn where the ticker's status could not be sent, where receiving
    failed, where a frame that is not a replayed one could not be decoded,
    where [handler] returned an error on such a frame, or where the reply
    to a heartbeat that asked for one could not be sent; the state is then
    the one [handler] or [sendStatus] has left.  It panics only where
    [handler] does.  When it has taken every turn, none of them was a
    shutdown or a failed receive.  Conversely, the first turn at which one
    of these events occurs ends the loop as that event says: no later turn
    is taken. *)
Theorem receive_loop_returns (turns : list Turn) (b : LogicalBackup) :
  match logicalDecodingLoop W turns b with
  | Done Continue _ =>
      Forall (fun t => t <> CtxDone /\ t <> Wait Canceled /\ t <> Wait OtherError) turns
  | Done (Return stop) b' =>
      exists t b1, stops_at turns b t b1 /\ returns t b1 stop b'
  | Failed _ => False
  | Panicked =>
      exists t b1, stops_at turns b t b1 /\ panics t b1
  end /\
  (forall t b1 stop b',
     stops_at turns b t b1 -> returns t b1 stop b' ->
     logicalDecodingLoop W turns b = Done (Return stop) b').
Proof.
  split.
  - revert b. induction turns as [| t turns IH]; intros b; [constructor |].
    rewrite logicalDecodingLoop_cons.
    pose proof (logicalDecodingTurn_returns t b) as Hreturns.
    pose proof (logicalDecodingTurn_panics t b) as Hpanics.
    pose proof (logicalDecodingTurn_not_Failed t b) as Hfailed.
    destruct (logicalDecodingTurn W t b) as [[| stop] b0 | b0 |] eqn:Hturn;
      [| | contradiction |].
    + specialize (IH b0).
      destruct (logicalDecodingLoop W turns b0) as [[| stop] b' | b' |];
        [| | contradiction |].
      * constructor; [| exact IH].
        repeat split; intros ->; discriminate Hturn.
      * destruct IH as (t1 & b1 & Hat & Hret). exists t1, b1.
        split; [now apply stops_at_later with b0 | exact Hret].
      * destruct IH as (t1 & b1 & Hat & Hpan). exists t1, b1.
        split; [now apply stops_at_later with b0 | exact Hpan].
    + exists t, b. split; [now exists [], turns | now apply Hreturns].
    + exists t, b. split; [now exists [], turns | now apply Hpanics].
  - intros t b1 stop b' (turns1 & turns2 & -> & Hprefix) Hreturns.
    rewrite logicalDecodingLoop_app, Hprefix, logicalDecodingLoop_cons.
    apply logicalDecodingTurn_returns in Hreturns. now rewrite Hreturns.
Qed.

End LoopReturns.

Lemma receive_loop_returns_witness :
  let frame := mkReplicationMessage (Some (mkWalMessage 2000 [])) None in
  logicalDecodingLoop world_send_fails
    [Wait DeadlineExceeded; Wait (Delivered None); Tick; CtxDone] started
  = Done (Return true) (statusHanded started) /\
  standbyStatuses (statusHanded started) = [1279] /\
  logicalDecodingLoop world_ok [Wait (Delivered (Some frame)); Tick] started
  = Done (Return true) started /\
  logicalDecodingLoop world_ok [Tick; Wait Canceled; Tick] started
  = Done (Return false) (statusHanded started).
Proof.
  cbv zeta. split; [| split; [reflexivity | split]].
  - apply (proj2 (receive_loop_returns world_send_fails _ started) Tick started).
    + exists [Wait DeadlineExceeded; Wait (Delivered None)], [CtxDone].
      split; reflexivity.
    + apply returns_tick_not_sent. reflexivity.
  - apply (proj2 (receive_loop_returns world_ok _ started)
             (Wait (Delivered (Some (mkReplicationMessage
                                       (Some (mkWalMessage 2000 [])) None)))) started).
    + exists [], [Tick]. split; reflexivity.
    + apply returns_decode_failed with (mkWalMessage 2000 []); reflexivity.
  - apply (proj2 (receive_loop_returns world_ok _ started)
             (Wait Canceled) (statusHanded started)).
    + exists [Tick], [Tick]. split; [reflexivity | vm_compute; reflexivity].
    + apply returns_canceled.
Defined.

Section ConfigReload.

Import config.

(** X20.  Loading is idempotent: a configuration that [config.New] has
    returned is returned unchanged when it is loaded again, its interval
    being a whole number of minutes already. *)
Theorem config_New_reload (opened : bool) (decoded : option Config) (cfg' : Config) :
  config.New opened decoded = Some cfg' -> config.New true (Some cfg') = Some cfg'.
Proof.
  unfold config.New. destruct opened; [| discriminate].
  destruct decoded as [cfg |]; [| discriminate]. intros [= <-]. f_equal.
  unfold set_ForceBasebackupAfterInactivityInterval. cbn. f_equal.
  destruct (Truncate_minute (ForceBasebackupAfterInactivityInterval cfg)) as (_ & Hrem & _).
  cbv zeta in Hrem. set (r := Truncate _ _) in *.
  unfold Truncate at 1. change (1 * Minute <=? 0) with false. cbn iota.
  change (1 * Minute) with Minute. rewrite Hrem. lia.
Qed.

End ConfigReload.

Lemma config_New_reload_witness :
  config.New true (Some (config.mkConfig "staging" "archive" true 100 (90 * config.Second)))
  = Some (config.mkConfig "staging" "archive" true 100 (60 * config.Second)) /\
  config.New true (Some (config.mkConfig "staging" "archive" true 100 (60 * config.Second)))
  = Some (config.mkConfig "staging" "archive" true 100 (60 * config.Second)).
Proof.
  assert (H : config.New true
                (Some (config.mkConfig "staging" "archive" true 100 (90 * config.Second)))
              = Some (config.mkConfig "staging" "archive" true 100 (60 * config.Second)))
    by reflexivity.
  split; [exact H |].
  exact (config_New_reload true _ _ H).
Defined.
